(** * i-PI geometry optimiser and input fields: a shallow embedding

    The development follows three source files:
    - [ipi/engine/geop.py]: [LineMover], [BFGSMover] and [GeopMover]
      ([bind] and [step]);
    - [utils/inputvalue.py]: [Input] and [InputValue]
      ([__init__], [store], [fetch], [check]);
    - [ipi/inputs/forcefields.py]: [InputFFSocket] (field table and [check]).

    Python floats and numpy arrays of floats are modelled in exact
    arithmetic over [R]; Python exceptions are values of [exn]; methods that
    mutate [self] are state transformers that keep the state reached when an
    exception is raised. *)

From Stdlib Require Import Reals Lra Lia ZArith String Bool List.
Import ListNotations.

Set Implicit Arguments.

(** ** Exceptions and the state-and-error monad *)

Inductive exn : Type :=
| ValueError (msg : string)
| TypeError (msg : string)
| KeyError (key : string)
| AttributeError (name : string)
| IndexError
| ZeroDivisionError.

Inductive result (A : Type) : Type :=
| Ok (a : A)
| Raise (e : exn).

Arguments Ok {A} a.
Arguments Raise {A} e.

Definition rbind {A B : Type} (r : result A) (k : A -> result B) : result B :=
  match r with
  | Ok a => k a
  | Raise e => Raise e
  end.

Definition raises {A : Type} (r : result A) : Prop := exists e, r = Raise e.

(** A method of an object whose attributes are the state [S]. *)
Definition M (S A : Type) : Type := S -> result A * S.

Definition ret {S A : Type} (a : A) : M S A := fun s => (Ok a, s).

Definition raise {S A : Type} (e : exn) : M S A := fun s => (Raise e, s).

Definition mbind {S A B : Type} (m : M S A) (k : A -> M S B) : M S B :=
  fun s =>
    match m s with
    | (Ok a, s') => k a s'
    | (Raise e, s') => (Raise e, s')
    end.

Definition get {S : Type} : M S S := fun s => (Ok s, s).

Definition modify {S : Type} (f : S -> S) : M S unit := fun s => (Ok tt, f s).

Definition lift {S A : Type} (r : result A) : M S A := fun s => (r, s).

(** [m] leaves the observation [proj] of the state unchanged, whether it
    returns or raises. *)
Definition keeps {S A X : Type} (proj : S -> X) (m : M S A) : Prop :=
  forall s, proj (snd (m s)) = proj s.

Declare Scope monad_scope.
Delimit Scope monad_scope with monad.

Notation "x <- m ;; k" := (mbind m (fun x => k))
  (at level 61, m at next level, right associativity) : monad_scope.
Notation "m ;;; k" := (mbind m (fun _ => k))
  (at level 61, right associativity) : monad_scope.
Notation "x <~ r ;; k" := (rbind r (fun x => k))
  (at level 61, r at next level, right associativity) : monad_scope.

Open Scope R_scope.
Open Scope monad_scope.

(** ** Scalar Python values held by input fields *)

Inductive value : Type :=
| VInt (z : Z)
| VFloat (r : R)
| VStr (s : string)
| VBool (b : bool).

(** The number a value stands for in arithmetic ([bool] is a subtype of
    [int]); strings are not numbers. *)
Definition num_of (v : value) : option R :=
  match v with
  | VInt z => Some (IZR z)
  | VFloat r => Some r
  | VBool b => Some (if b then 1 else 0)
  | VStr _ => None
  end.

(** [v / k] and [v * k] for a float [k]: the result is a float; a string
    operand is a [TypeError]; Python float division by zero raises. *)
Definition py_div (v : value) (k : R) : result value :=
  match num_of v with
  | Some r => if Req_dec_T k 0 then Raise ZeroDivisionError else Ok (VFloat (r / k))
  | None => Raise (TypeError "unsupported operand type(s) for /")
  end.

Definition py_mul (v : value) (k : R) : result value :=
  match num_of v with
  | Some r => Ok (VFloat (r * k))
  | None => Raise (TypeError "can't multiply sequence by non-int of type 'float'")
  end.

(** [a == b]. *)
Definition py_eq (a b : value) : bool :=
  match num_of a, num_of b with
  | Some x, Some y => if Req_dec_T x y then true else false
  | None, None =>
      match a, b with
      | VStr s, VStr t => String.eqb s t
      | _, _ => false
      end
  | _, _ => false
  end.

(** [a < b] (Python 2: numbers sort before strings). *)
Definition py_lt (a b : value) : bool :=
  match num_of a, num_of b with
  | Some x, Some y => if Rlt_dec x y then true else false
  | Some _, None => true
  | None, Some _ => false
  | None, None =>
      match a, b with
      | VStr s, VStr t => String.ltb s t
      | _, _ => false
      end
  end.

Definition py_gt (a b : value) : bool := py_lt b a.

(** [v in l]. *)
Definition py_in (v : value) (l : list value) : bool := existsb (py_eq v) l.

(** ** utils/inputvalue.py *)

Module InputValue.

(** A [dtype]: any callable converting raw data. *)
Definition callable : Type := value -> result value.

(** [class Input]: the attributes set by [Input.__init__]. *)
Record Input : Type := mkInput {
  _help : string;
  _dimension : string;
  units : string;
  _default : option value;
  _optional : bool;
  _explicit : bool
}.

Definition default_help : string := "Generic input value".
Definition default_dimension : string := "undefined".
Definition default_units : string := "".
Definition default_value : option value := None.

Definition or_default {A : Type} (o : option A) (d : A) : A :=
  match o with
  | Some a => a
  | None => d
  end.

(** [Input.__init__(help, dimension, units, default)]; the loops over
    [fields] and [attribs] build the nested objects and do not touch the
    attributes below. *)
Definition Input_init (help dimension units_ : option string)
    (default : option value) : Input :=
  {| _help := or_default help default_help;
     _dimension := or_default dimension default_dimension;
     units := or_default units_ default_units;
     _default := match default with
                 | None => default_value
                 | Some d => Some d
                 end;
     _optional := match default with
                  | None => false
                  | Some _ => true
                  end;
     _explicit := false |}.

Definition set_explicit (b : bool) (i : Input) : Input :=
  {| _help := _help i; _dimension := _dimension i; units := units i;
     _default := _default i; _optional := _optional i; _explicit := b |}.

(** [Input.store]. *)
Definition Input_store : M Input unit := modify (set_explicit true).

Section WithUnitMap.

(** [units.UnitMap]: for each dimension, the conversion factor of each of
    its units. The table itself is in the [units] module. *)
Variable UnitMap : string -> option (string -> option R).

(** [UnitMap[dimension][units]]. *)
Definition unit_factor (dimension units_ : string) : result R :=
  match UnitMap dimension with
  | None => Raise (KeyError dimension)
  | Some m =>
      match m units_ with
      | None => Raise (KeyError units_)
      | Some k => Ok k
      end
  end.

(** [Input.check]. *)
Definition Input_check (i : Input) : result unit :=
  match UnitMap (_dimension i) with
  | None => Raise (KeyError (_dimension i))
  | Some m =>
      match m (units i) with
      | None => Raise (TypeError "Unit type is not compatible with dimension")
      | Some _ =>
          if negb (_explicit i || _optional i)
          then Raise (ValueError "Uninitialized Input value")
          else Ok tt
      end
  end.

(** [Input.fetch]. *)
Definition Input_fetch (i : Input) : result unit := Input_check i.

(** [class InputValue(Input)]; [value] is [None] while the attribute has not
    been assigned. *)
Record InputValue : Type := mkInputValue {
  base : Input;
  type_ : callable;
  value_ : option value;
  _valid : option (list value)
}.

Definition set_base (b : Input) (iv : InputValue) : InputValue :=
  {| base := b; type_ := type_ iv; value_ := value_ iv; _valid := _valid iv |}.

Definition set_value (v : value) (iv : InputValue) : InputValue :=
  {| base := base iv; type_ := type_ iv; value_ := Some v; _valid := _valid iv |}.

(** [InputValue.store]. *)
Definition store (v : value) : M InputValue unit :=
  modify (fun iv => set_base (set_explicit true (base iv)) iv) ;;;
  iv <- get ;;
  c <- lift (type_ iv v) ;;
  modify (set_value c) ;;;
  if String.eqb (_dimension (base iv)) "undefined" then ret tt
  else
    k <- lift (unit_factor (_dimension (base iv)) (units (base iv))) ;;
    c' <- lift (py_div c k) ;;
    modify (set_value c').

(** [InputValue.check]. *)
Definition check (iv : InputValue) : result unit :=
  _ <~ Input_check (base iv) ;;
  match _valid iv with
  | None => Ok tt
  | Some valid =>
      match value_ iv with
      | None => Raise (AttributeError "value")
      | Some v =>
          if py_in v valid then Ok tt
          else Raise (ValueError "is not a valid option")
      end
  end.

(** [InputValue.fetch]; [Input.fetch] calls [self.check()], which is
    [InputValue.check] on this object. *)
Definition fetch (iv : InputValue) : result value :=
  _ <~ check iv ;;
  match value_ iv with
  | None => Raise (AttributeError "value")
  | Some v =>
      if String.eqb (_dimension (base iv)) "undefined" then Ok v
      else
        k <~ unit_factor (_dimension (base iv)) (units (base iv)) ;;
        py_mul v k
  end.

(** [InputValue.__init__]. With [dtype=None] the constructor reads
    [self.value] before any assignment. *)
Definition InputValue_init (help dimension units_ : option string)
    (default : option value) (dtype : option callable)
    (options : option (list value)) : result InputValue :=
  let b := Input_init help dimension units_ default in
  match dtype with
  | None => Raise (AttributeError "value")
  | Some ty =>
      _ <~ match options with
           | Some valid =>
               match default, _default b with
               | Some _, Some d =>
                   if py_in d valid then Ok tt
                   else Raise (ValueError "Default value not in option list")
               | _, _ => Ok tt
               end
           | None => Ok tt
           end ;;
      let iv := {| base := b; type_ := ty; value_ := None; _valid := options |} in
      match _default b with
      | None => Ok iv
      | Some d =>
          match store d iv with
          | (Ok _, iv') => Ok (set_base (set_explicit false (base iv')) iv')
          | (Raise e, _) => Raise e
          end
      end
  end.

End WithUnitMap.

End InputValue.

(** ** ipi/inputs/forcefields.py *)

Module ForceFields.

Import InputValue.

(** [warning(msg, verbosity.low)]: the calls made, oldest first. *)
Definition warning (msg : string) : M (list string) unit :=
  modify (fun log => log ++ [msg]).

Definition low_port_warning : string :=
  "Low port number being used, this may interrupt important system processes.".

Definition port_error : exn :=
  ValueError "Port number out of acceptable range.".

Definition slots_error : exn :=
  ValueError "Slot number out of acceptable range.".

Definition latency_error : exn :=
  ValueError "Negative latency parameter specified.".

Definition timeout_error : exn :=
  ValueError "Negative timeout parameter specified.".

(** [class InputFFSocket(InputForceField)]: the object itself and the
    scalar entries of its [attribs] and [fields] tables ([pars], a
    dictionary handed to the driver, is not read by [check]). *)
Record InputFFSocket : Type := mkInputFFSocket {
  self_ : Input;
  name : InputValue;
  pbc : InputValue;
  mode : InputValue;
  latency : InputValue;
  address : InputValue;
  port : InputValue;
  slots : InputValue;
  timeout : InputValue
}.

Section Tables.

Variable UnitMap : string -> option (string -> option R).

(** The builtins [str], [int], [float] and [bool] used as [dtype]. *)
Variables py_str py_int py_float py_bool : callable.

(** The entries of [InputFFSocket.attribs] and [InputFFSocket.fields] after
    the two [update] calls, each built from its class and keyword arguments. *)
Definition name_field : result InputValue :=
  InputValue_init UnitMap
    (Some "The name by which the forcefienld will be identified in the System forces section."%string)
    None None None (Some py_str) None.

Definition pbc_field : result InputValue :=
  InputValue_init UnitMap
    (Some "Applies periodic boundary conditions to the atoms coordinates before passing them on to the driver code."%string)
    None None (Some (VBool true)) (Some py_bool) None.

Definition mode_field : result InputValue :=
  InputValue_init UnitMap
    (Some "Specifies whether the driver interface will listen onto a internet socket [inet] or onto a unix socket [unix]."%string)
    None None (Some (VStr "inet")) (Some py_str)
    (Some [VStr "unix"; VStr "inet"]).

Definition latency_field : result InputValue :=
  InputValue_init UnitMap
    (Some "The number of seconds the polling thread will wait between exhamining the list of requests."%string)
    None None (Some (VFloat (1 / 100))) (Some py_float) None.

Definition address_field : result InputValue :=
  InputValue_init UnitMap
    (Some "This gives the server address that the socket will run on."%string)
    None None (Some (VStr "localhost")) (Some py_str) None.

Definition port_field : result InputValue :=
  InputValue_init UnitMap
    (Some "This gives the port number that defines the socket."%string)
    None None (Some (VInt 65535)) (Some py_int) None.

Definition slots_field : result InputValue :=
  InputValue_init UnitMap
    (Some "This gives the number of client codes that can queue at any one time."%string)
    None None (Some (VInt 4)) (Some py_int) None.

Definition timeout_field : result InputValue :=
  InputValue_init UnitMap
    (Some "This gives the number of seconds before assuming a calculation has died. If 0 there is no timeout."%string)
    None None (Some (VFloat 0)) (Some py_float) None.

Definition default_help : string :=
  "Deals with the assigning of force calculation jobs to different driver codes, and collecting the data, using a socket for the data communication.".

(** [Input.__init__] on an [InputFFSocket]. *)
Definition InputFFSocket_init (help dimension units_ : option string)
    (default : option value) : result InputFFSocket :=
  let b := Input_init (Some (or_default help default_help)) dimension units_ default in
  a <~ address_field ;;
  p <~ port_field ;;
  s <~ slots_field ;;
  t <~ timeout_field ;;
  l <~ latency_field ;;
  m <~ mode_field ;;
  n <~ name_field ;;
  c <~ pbc_field ;;
  Ok {| self_ := b; name := n; pbc := c; mode := m; latency := l;
        address := a; port := p; slots := s; timeout := t |}.

(** Lines 161-166 of [InputFFSocket.check]: slots, latency, timeout. *)
Definition check_rest (s : InputFFSocket) : M (list string) unit :=
  n <- lift (fetch UnitMap (slots s)) ;;
  out <- (if py_lt n (VInt 1) then ret true
          else n' <- lift (fetch UnitMap (slots s)) ;;
               ret (py_gt n' (VInt 5))) ;;
  (if out : bool then
     _ <- lift (fetch UnitMap (slots s)) ;;
     raise slots_error
   else ret tt) ;;;
  l <- lift (fetch UnitMap (latency s)) ;;
  (if py_lt l (VInt 0) then raise latency_error else ret tt) ;;;
  t <- lift (fetch UnitMap (timeout s)) ;;
  if py_lt t (VFloat 0) then raise timeout_error else ret tt.

(** [InputFFSocket.check]. [InputForceField] has no [check] of its own, so
    [super().check()] is [Input.check]. *)
Definition check (s : InputFFSocket) : M (list string) unit :=
  lift (Input_check UnitMap (self_ s)) ;;;
  p <- lift (fetch UnitMap (port s)) ;;
  out <- (if py_lt p (VInt 1) then ret true
          else p' <- lift (fetch UnitMap (port s)) ;;
               ret (py_gt p' (VInt 65535))) ;;
  (if out : bool then
     _ <- lift (fetch UnitMap (port s)) ;;
     raise port_error
   else
     p'' <- lift (fetch UnitMap (port s)) ;;
     if py_lt p'' (VInt 1025) then warning low_port_warning else ret tt) ;;;
  check_rest s.

End Tables.

End ForceFields.

(** ** numpy arrays of floats *)

Module Np.

(** A one-dimensional array. *)
Definition vec : Type := list R.

(** A two-dimensional array, one row per bead; rows have equal lengths. *)
Definition array : Type := list vec.

Definition flatten (a : array) : vec := concat a.

Definition size (a : array) : nat := length (flatten a).

(** Row lengths: two arrays have the same [shape] when these agree. *)
Definition shape (a : array) : list nat := map (@length R) a.

Definition shape_eqb (a b : array) : bool :=
  if list_eq_dec Nat.eq_dec (shape a) (shape b) then true else false.

Fixpoint map2 (op : R -> R -> R) (a b : vec) : vec :=
  match a, b with
  | x :: a', y :: b' => op x y :: map2 op a' b'
  | _, _ => []
  end.

(** [np.dot] of two one-dimensional arrays of the same length. *)
Definition dot (a b : vec) : R := fold_right Rplus 0 (map2 Rmult a b).

Definition np_dot (a b : vec) : result R :=
  if Nat.eqb (length a) (length b) then Ok (dot a b)
  else Raise (ValueError "shapes not aligned").

(** [np.sqrt(np.dot(a.flatten(), a.flatten()))]. *)
Definition norm (a : array) : R := sqrt (dot (flatten a) (flatten a)).

(** [a / c], [a * c] and [-a] for a scalar [c]. *)
Definition div_scalar (a : array) (c : R) : array :=
  map (map (fun x => x / c)) a.

Definition mul_scalar (a : array) (c : R) : array :=
  map (map (fun x => x * c)) a.

Definition neg (a : array) : array := map (map Ropp) a.

(** Element-wise operation on two one-dimensional arrays, with numpy's
    broadcasting of a length-one operand. *)
Definition bcast (op : R -> R -> R) (a b : vec) : result vec :=
  if Nat.eqb (length a) (length b) then Ok (map2 op a b)
  else
    match a, b with
    | [x], _ => Ok (map (op x) b)
    | _, [y] => Ok (map (fun x => op x y) a)
    | _, _ => Raise (ValueError "operands could not be broadcast together")
    end.

Fixpoint mapM {A B : Type} (f : A -> result B) (l : list A) : result (list B) :=
  match l with
  | [] => Ok []
  | x :: l' =>
      y <~ f x ;;
      ys <~ mapM f l' ;;
      Ok (y :: ys)
  end.

(** A two-dimensional array combined with a one-dimensional one: the
    vector is broadcast along the rows. *)
Definition bcast_rows (op : R -> R -> R) (a : array) (b : vec) : result array :=
  mapM (fun row => bcast op row b) a.

(** The sum of two arrays of the same shape ([set_dir] has compared the
    shapes before any such sum is taken). *)
Definition add (a b : array) : result array :=
  if shape_eqb a b then Ok (List.map (fun p => map2 Rplus (fst p) (snd p)) (combine a b))
  else Raise (ValueError "operands could not be broadcast together").

(** [dst[:] = src] for a one-dimensional [dst]: a leading axis of length
    one is dropped, a single element is repeated, anything else does not
    broadcast. The new contents of [dst]. *)
Definition assign_slice (dst : vec) (src : array) : result vec :=
  match src with
  | [row] =>
      if Nat.eqb (length row) (length dst) then Ok row
      else
        match row with
        | [x] => Ok (repeat x (length dst))
        | _ => Raise (ValueError "could not broadcast input array")
        end
  | _ => Raise (ValueError "could not broadcast input array")
  end.

(** An index into an axis of length [n]: negative indices count from the
    end. *)
Definition np_index (n : nat) (i : Z) : result nat :=
  if ((0 <=? i) && (i <? Z.of_nat n))%Z then Ok (Z.to_nat i)
  else if ((- Z.of_nat n <=? i) && (i <? 0))%Z then Ok (Z.to_nat (Z.of_nat n + i))
  else Raise IndexError.

Fixpoint set_nth (j : nat) (x : R) (l : vec) : vec :=
  match l, j with
  | [], _ => []
  | _ :: l', O => x :: l'
  | y :: l', S j' => y :: set_nth j' x l'
  end.

(** [row[idx] = x] for an array of indices [idx]. *)
Fixpoint assign_at (idx : list Z) (x : R) (row : vec) : result vec :=
  match idx with
  | [] => Ok row
  | i :: rest =>
      j <~ np_index (length row) i ;;
      assign_at rest x (set_nth j x row)
  end.

(** [np.eye(n)]. *)
Definition eye (n : nat) : array :=
  List.map (fun i => List.map (fun j => if Nat.eqb i j then 1 else 0) (seq 0 n)) (seq 0 n).

(** [max(a, b)] of Python: the first argument unless the second is larger. *)
Definition py_max (a b : R) : R := if Rlt_dec a b then b else a.

End Np.

(** ** Objective-driven searches

    [min_brent] and [BFGS] (module [mintools]) receive the objective as a
    callable: a search is a program that evaluates its objective at points
    of its choice and then returns or raises. *)

Inductive Search (Q A T : Type) : Type :=
| Return (t : T)
| Abort (e : exn)
| Probe (q : Q) (k : A -> Search Q A T).

Arguments Return {Q A T} t.
Arguments Abort {Q A T} e.
Arguments Probe {Q A T} q k.

Fixpoint run {S Q A T : Type} (fdf : Q -> M S A) (p : Search Q A T) (s : S)
    : result T * S :=
  match p with
  | Return t => (Ok t, s)
  | Abort e => (Raise e, s)
  | Probe q k =>
      match fdf q s with
      | (Ok a, s') => run fdf (k a) s'
      | (Raise e, s') => (Raise e, s')
      end
  end.

(** ** ipi/engine/geop.py *)

Module Geop.

Import Np.

(** [class LineMover]: [x0] and [d] are [None] until [set_dir]; [dbeads]
    and [dcell] exist once [bind] has copied the mover's beads and cell. *)
Module LineMover.

Record t : Type := mk {
  x0 : option array;
  d : option array;
  dbeads_q : option array;
  dcell : option array
}.

Definition init : t :=
  {| x0 := None; d := None; dbeads_q := None; dcell := None |}.

Definition set_x0 (v : option array) (l : t) : t :=
  {| x0 := v; d := d l; dbeads_q := dbeads_q l; dcell := dcell l |}.

Definition set_d (v : option array) (l : t) : t :=
  {| x0 := x0 l; d := v; dbeads_q := dbeads_q l; dcell := dcell l |}.

Definition set_dbeads_q (v : option array) (l : t) : t :=
  {| x0 := x0 l; d := d l; dbeads_q := v; dcell := dcell l |}.

Definition set_dcell (v : option array) (l : t) : t :=
  {| x0 := x0 l; d := d l; dbeads_q := dbeads_q l; dcell := v |}.

End LineMover.

(** [class BFGSMover]. *)
Module BFGSMover.

Record t : Type := mk {
  x0 : option array;
  d : option array;
  dbeads_q : option array;
  dcell : option array
}.

Definition init : t :=
  {| x0 := None; d := None; dbeads_q := None; dcell := None |}.

Definition set_d (v : option array) (l : t) : t :=
  {| x0 := x0 l; d := v; dbeads_q := dbeads_q l; dcell := dcell l |}.

Definition set_dbeads_q (v : option array) (l : t) : t :=
  {| x0 := x0 l; d := d l; dbeads_q := v; dcell := dcell l |}.

Definition set_dcell (v : option array) (l : t) : t :=
  {| x0 := x0 l; d := d l; dbeads_q := dbeads_q l; dcell := v |}.

End BFGSMover.

(** The [ls_options] dictionary. *)
Record LsOptions : Type := mkLsOptions {
  tolerance : R;
  iter : R;
  step_ : R;
  adaptive : R
}.

Definition set_step (x : R) (o : LsOptions) : LsOptions :=
  {| tolerance := tolerance o; iter := iter o; step_ := x; adaptive := adaptive o |}.

(** [class GeopMover(Mover)], with the positions of the beads and the cell
    it is bound to ([self.beads.q], [self.cell]). The stored force and
    direction are one-dimensional, as [bind] creates them. *)
Record GeopMover : Type := mkGeopMover {
  fixatoms : list Z;
  mode : string;
  ls_options : LsOptions;
  grad_tol : R;
  max_step : R;
  cg_old_f : vec;
  cg_old_d : vec;
  invhessian : array;
  lm : LineMover.t;
  bfgsm : BFGSMover.t;
  beads_q : array;
  cell : array
}.

Definition set_ls_options (v : LsOptions) (s : GeopMover) : GeopMover :=
  {| fixatoms := fixatoms s; mode := mode s; ls_options := v;
     grad_tol := grad_tol s; max_step := max_step s; cg_old_f := cg_old_f s;
     cg_old_d := cg_old_d s; invhessian := invhessian s; lm := lm s;
     bfgsm := bfgsm s; beads_q := beads_q s; cell := cell s |}.

Definition set_cg_old_f (v : vec) (s : GeopMover) : GeopMover :=
  {| fixatoms := fixatoms s; mode := mode s; ls_options := ls_options s;
     grad_tol := grad_tol s; max_step := max_step s; cg_old_f := v;
     cg_old_d := cg_old_d s; invhessian := invhessian s; lm := lm s;
     bfgsm := bfgsm s; beads_q := beads_q s; cell := cell s |}.

Definition set_cg_old_d (v : vec) (s : GeopMover) : GeopMover :=
  {| fixatoms := fixatoms s; mode := mode s; ls_options := ls_options s;
     grad_tol := grad_tol s; max_step := max_step s; cg_old_f := cg_old_f s;
     cg_old_d := v; invhessian := invhessian s; lm := lm s;
     bfgsm := bfgsm s; beads_q := beads_q s; cell := cell s |}.

Definition set_invhessian (v : array) (s : GeopMover) : GeopMover :=
  {| fixatoms := fixatoms s; mode := mode s; ls_options := ls_options s;
     grad_tol := grad_tol s; max_step := max_step s; cg_old_f := cg_old_f s;
     cg_old_d := cg_old_d s; invhessian := v; lm := lm s;
     bfgsm := bfgsm s; beads_q := beads_q s; cell := cell s |}.

Definition set_lm (v : LineMover.t) (s : GeopMover) : GeopMover :=
  {| fixatoms := fixatoms s; mode := mode s; ls_options := ls_options s;
     grad_tol := grad_tol s; max_step := max_step s; cg_old_f := cg_old_f s;
     cg_old_d := cg_old_d s; invhessian := invhessian s; lm := v;
     bfgsm := bfgsm s; beads_q := beads_q s; cell := cell s |}.

Definition set_bfgsm (v : BFGSMover.t) (s : GeopMover) : GeopMover :=
  {| fixatoms := fixatoms s; mode := mode s; ls_options := ls_options s;
     grad_tol := grad_tol s; max_step := max_step s; cg_old_f := cg_old_f s;
     cg_old_d := cg_old_d s; invhessian := invhessian s; lm := lm s;
     bfgsm := v; beads_q := beads_q s; cell := cell s |}.

Definition set_beads_q (v : array) (s : GeopMover) : GeopMover :=
  {| fixatoms := fixatoms s; mode := mode s; ls_options := ls_options s;
     grad_tol := grad_tol s; max_step := max_step s; cg_old_f := cg_old_f s;
     cg_old_d := cg_old_d s; invhessian := invhessian s; lm := lm s;
     bfgsm := bfgsm s; beads_q := v; cell := cell s |}.

Definition set_cell (v : array) (s : GeopMover) : GeopMover :=
  {| fixatoms := fixatoms s; mode := mode s; ls_options := ls_options s;
     grad_tol := grad_tol s; max_step := max_step s; cg_old_f := cg_old_f s;
     cg_old_d := cg_old_d s; invhessian := invhessian s; lm := lm s;
     bfgsm := bfgsm s; beads_q := beads_q s; cell := v |}.

(** A method of [self.lm] or [self.bfgsm] called from the mover. *)
Definition on_lm {A : Type} (m : M LineMover.t A) : M GeopMover A :=
  fun s => let (r, l) := m (lm s) in (r, set_lm l s).

Definition on_bfgsm {A : Type} (m : M BFGSMover.t A) : M GeopMover A :=
  fun s => let (r, b) := m (bfgsm s) in (r, set_bfgsm b s).

(** [GeopMover.__init__] ([fixcom] goes to [Mover] and [tolerances] is
    only stored; neither is read by [bind] or [step]). The beads and the
    cell are attached by [bind]; the arrays are empty until then. *)
Definition GeopMover_init (fixatoms_ : list Z) (mode_ : string)
    (grad_tolerance maximum_step : R) (cg_old_force cg_old_direction : vec)
    (invhessian_ : array) (ls_options_ : LsOptions) : GeopMover :=
  {| fixatoms := fixatoms_; mode := mode_; ls_options := ls_options_;
     grad_tol := grad_tolerance; max_step := maximum_step;
     cg_old_f := cg_old_force; cg_old_d := cg_old_direction;
     invhessian := invhessian_; lm := LineMover.init; bfgsm := BFGSMover.init;
     beads_q := []; cell := [] |}.

(** Lines 209-213: the three index assignments on one row, and the loop
    over the rows of [dq1_unit]. *)
Definition fix_row (fix_ : list Z) (dqb : vec) : result vec :=
  r1 <~ assign_at (List.map (fun a => a * 3)%Z fix_) 0 dqb ;;
  r2 <~ assign_at (List.map (fun a => a * 3 + 1)%Z fix_) 0 r1 ;;
  assign_at (List.map (fun a => a * 3 + 2)%Z fix_) 0 r2.

Definition apply_fixatoms (fix_ : list Z) (dq1_unit : array) : result array :=
  if Nat.ltb 0 (length fix_) then mapM (fix_row fix_) dq1_unit
  else Ok dq1_unit.

(** [LineMover.bind] and [BFGSMover.bind]: [ens.beads.copy()] and
    [ens.cell.copy()] are fresh objects holding the same numbers;
    [dforces] is bound to them. *)
Definition LineMover_bind (ens : GeopMover) : M LineMover.t unit :=
  modify (LineMover.set_dbeads_q (Some (beads_q ens))) ;;;
  modify (LineMover.set_dcell (Some (cell ens))).

Definition BFGSMover_bind (ens : GeopMover) : M BFGSMover.t unit :=
  modify (BFGSMover.set_dbeads_q (Some (beads_q ens))) ;;;
  modify (BFGSMover.set_dcell (Some (cell ens))).

(** [LineMover.set_dir]. *)
Definition set_dir (x0 mdir : array) : M LineMover.t unit :=
  modify (LineMover.set_x0 (Some x0)) ;;;
  modify (LineMover.set_d (Some (div_scalar mdir (norm mdir)))) ;;;
  if shape_eqb x0 (div_scalar mdir (norm mdir)) then ret tt
  else raise (ValueError "Incompatible shape of initial value and displacement direction").

Section WithForces.

(** [forces.pot] and [forces.f] of a [Forces] object, as functions of the
    positions and cell it is bound to. *)
Variable pot_of : array -> array -> R.
Variable force_of : array -> array -> array.

(** [mintools.min_brent(fdf, fdf0, x0, tol, itmax, init_step)], returning
    [(x, fx)]. *)
Variable min_brent : R * R -> R -> R -> R -> R -> Search R (R * R) (R * R).

(** [mintools.BFGS(x0, d0, fdf, fdf0, invhessian, max_step, tol, grad_tol,
    itmax)], returning [(x, fx, d, invhessian)]. *)
Variable BFGS : array -> option array -> R * array -> array -> R -> R -> R -> R ->
                Search array (R * array) (array * R * array * array).

(** [LineMover.__call__]. *)
Definition LineMover_call (x : R) : M LineMover.t (R * R) :=
  l <- get ;;
  match LineMover.x0 l, LineMover.d l with
  | Some x0, Some d =>
      q <- lift (add x0 (mul_scalar d x)) ;;
      match LineMover.dbeads_q l, LineMover.dcell l with
      | Some _, Some c =>
          modify (LineMover.set_dbeads_q (Some q)) ;;;
          let e := pot_of q c in
          g <- lift (np_dot (flatten (force_of q c)) (flatten d)) ;;
          ret (e, - g)
      | _, _ => raise (AttributeError "dbeads")
      end
  | _, _ => raise (TypeError "unsupported operand type(s)")
  end.

(** [BFGSMover.__call__]. *)
Definition BFGSMover_call (x : array) : M BFGSMover.t (R * array) :=
  b <- get ;;
  match BFGSMover.dbeads_q b, BFGSMover.dcell b with
  | Some _, Some c =>
      modify (BFGSMover.set_dbeads_q (Some x)) ;;;
      ret (pot_of x c, neg (force_of x c))
  | _, _ => raise (AttributeError "dbeads")
  end.

(** [GeopMover.bind]; [Mover.bind] attaches the beads and the cell. *)
Definition bind (beads cell_ : array) : M GeopMover unit :=
  modify (set_beads_q beads) ;;;
  modify (set_cell cell_) ;;;
  s <- get ;;
  (if negb (Nat.eqb (length (cg_old_f s)) (size beads)) then
     if Nat.eqb (length (cg_old_f s)) 0
     then modify (set_cg_old_f (repeat 0 (size beads)))
     else raise (ValueError "Conjugate gradient force size does not match system size")
   else ret tt) ;;;
  s <- get ;;
  (if negb (Nat.eqb (length (cg_old_d s)) (size beads)) then
     if Nat.eqb (length (cg_old_d s)) 0
     then modify (set_cg_old_d (repeat 0 (size beads)))
     else raise (ValueError "Conjugate gradient direction size does not match system size")
   else ret tt) ;;;
  s <- get ;;
  on_lm (LineMover_bind s) ;;;
  on_bfgsm (BFGSMover_bind s).

(** Lines 151-153: first BFGS step. *)
Definition bfgs_init (step : Z) : M GeopMover unit :=
  if (step =? 0)%Z then
    s <- get ;;
    let f := force_of (beads_q s) (cell s) in
    modify (fun s => set_bfgsm (BFGSMover.set_d (Some (div_scalar f (norm f))) (bfgsm s)) s) ;;;
    modify (set_invhessian (eye (length (flatten (beads_q s)))))
  else ret tt.

(** Lines 180-204: [(gradf1, dq1, dq1_unit)]. The quotients are those of
    the reals: where a divisor is zero (a zero force in a norm, a zero
    stored force under [beta]) numpy continues with [inf] or [nan], values
    the reals do not have, and the statements about a division carry the
    hypothesis that its divisor is not zero. *)
Definition direction (step : Z) (s : GeopMover) : result (array * array * array) :=
  if String.eqb (mode s) "sd" || (step =? 0)%Z then
    let gradf1 := force_of (beads_q s) (cell s) in
    let dq1 := gradf1 in
    Ok (gradf1, dq1, div_scalar dq1 (norm gradf1))
  else
    let gradf0 := cg_old_f s in
    let dq0 := cg_old_d s in
    let gradf1 := force_of (beads_q s) (cell s) in
    df <~ bcast Rminus (flatten gradf1) gradf0 ;;
    num <~ np_dot df (flatten gradf1) ;;
    let beta := num / dot gradf0 gradf0 in
    dq1 <~ bcast_rows Rplus gradf1 (List.map (Rmult (py_max 0 beta)) dq0) ;;
    Ok (gradf1, dq1, div_scalar dq1 (norm dq1)).

(** Lines 180-220 of [step]: the direction, the stored force and
    direction, the fixed atoms, and the line search; [(x, dq1_unit)]. *)
Definition line_search (step : Z) : M GeopMover (R * array) :=
  s <- get ;;
  g <- lift (direction step s) ;;
  let '(gradf1, dq1, dq1_unit) := g in
  d' <- lift (assign_slice (cg_old_d s) dq1) ;;
  modify (set_cg_old_d d') ;;;
  f' <- lift (assign_slice (cg_old_f s) gradf1) ;;
  modify (set_cg_old_f f') ;;;
  dq1_unit <- lift (apply_fixatoms (fixatoms s) dq1_unit) ;;
  on_lm (set_dir (beads_q s) dq1_unit) ;;;
  let u0 := pot_of (beads_q s) (cell s) in
  du0 <- lift (np_dot (flatten (force_of (beads_q s) (cell s))) (flatten dq1_unit)) ;;
  r <- on_lm (run LineMover_call
                (min_brent (u0, du0) 0 (tolerance (ls_options s))
                   (iter (ls_options s)) (step_ (ls_options s)))) ;;
  ret (fst r, dq1_unit).

(** Lines 222-224 of [step]. *)
Definition update (x : R) (dq1_unit : array) : M GeopMover unit :=
  modify (fun s => set_ls_options
            (set_step (x * adaptive (ls_options s)
                       + (1 - adaptive (ls_options s)) * step_ (ls_options s))
               (ls_options s)) s) ;;;
  s <- get ;;
  q <- lift (add (beads_q s) (mul_scalar dq1_unit x)) ;;
  modify (set_beads_q q).

(** Lines 146-176 of [step]. *)
Definition bfgs_step (step : Z) : M GeopMover unit :=
  bfgs_init step ;;;
  s <- get ;;
  let u0 := pot_of (beads_q s) (cell s) in
  let du0 := neg (force_of (beads_q s) (cell s)) in
  r <- on_bfgsm (run BFGSMover_call
                   (BFGS (beads_q s) (BFGSMover.d (bfgsm s)) (u0, du0)
                      (invhessian s) (max_step s) (tolerance (ls_options s))
                      (grad_tol s) (iter (ls_options s)))) ;;
  let '(q, fx, d, h) := r in
  modify (set_beads_q q) ;;;
  modify (fun s => set_bfgsm (BFGSMover.set_d (Some d) (bfgsm s)) s) ;;;
  modify (set_invhessian h).

(** [GeopMover.step]; the timers and the printed traces are left out. *)
Definition step (n : Z) : M GeopMover unit :=
  s <- get ;;
  if String.eqb (mode s) "bfgs" then bfgs_step n
  else
    r <- line_search n ;;
    update (fst r) (snd r).

End WithForces.

End Geop.

(** ** Concrete instances used to exercise the statements *)

Module Examples.

Import Np.

(** A unit table with the undefined dimension and a time dimension. *)
Definition UnitMap_ex (dimension : string) : option (string -> option R) :=
  if String.eqb dimension "undefined" then
    Some (fun u => if String.eqb u "" then Some 1 else None)
  else if String.eqb dimension "time" then
    Some (fun u => if String.eqb u "" then Some 1
                   else if String.eqb u "atomic_unit" then Some 1
                   else if String.eqb u "femtosecond" then Some (41341373 / 1000000)
                   else None)
  else None.

(** A [dtype] applied to data that already has the type: [int] on an
    integer, [float] on a float. *)
Definition dtype_same : InputValue.callable := fun v => Ok v.

(** An optional field of undefined dimension declared with default [v]. *)
Definition field_holding (v : value) : InputValue.InputValue :=
  {| InputValue.base := InputValue.Input_init None None None (Some v);
     InputValue.type_ := dtype_same;
     InputValue.value_ := Some v;
     InputValue._valid := None |}.

(** The [mode] attribute of the socket input: a string among two options. *)
Definition mode_ex : InputValue.InputValue :=
  {| InputValue.base :=
       InputValue.Input_init
         (Some "Specifies whether the driver interface will listen onto a internet socket [inet] or onto a unix socket [unix]."%string)
         None None (Some (VStr "inet"));
     InputValue.type_ := dtype_same;
     InputValue.value_ := Some (VStr "inet");
     InputValue._valid := Some [VStr "unix"; VStr "inet"] |}.

(** A time field in femtoseconds. *)
Definition time_field : InputValue.InputValue :=
  {| InputValue.base :=
       InputValue.Input_init None (Some "time"%string) (Some "femtosecond"%string) None;
     InputValue.type_ := dtype_same;
     InputValue.value_ := None;
     InputValue._valid := None |}.

(** A socket input whose port holds [p]. *)
Definition socket_ex (p : Z) : ForceFields.InputFFSocket :=
  {| ForceFields.self_ :=
       InputValue.set_explicit true (InputValue.Input_init None None None None);
     ForceFields.name := field_holding (VStr "driver");
     ForceFields.pbc := field_holding (VBool true);
     ForceFields.mode := mode_ex;
     ForceFields.latency := field_holding (VFloat (1 / 100));
     ForceFields.address := field_holding (VStr "localhost");
     ForceFields.port := field_holding (VInt p);
     ForceFields.slots := field_holding (VInt 4);
     ForceFields.timeout := field_holding (VFloat 0) |}.

(** Harmonic potential: the force is minus the position. *)
Definition pot_ex (q c : array) : R := dot (flatten q) (flatten q) / 2.
Definition force_ex (q c : array) : array := neg q.

(** A line search that evaluates the objective once, at the initial step,
    and returns that displacement. *)
Definition min_brent_ex (fdf0 : R * R) (x0 tol itmax init_step : R)
    : Search R (R * R) (R * R) :=
  Probe init_step (fun r => Return (init_step, fst r)).

(** A quasi-Newton routine that evaluates the objective at the start point
    and returns it. *)
Definition BFGS_ex (x0 : array) (d0 : option array) (fdf0 : R * array)
    (invhessian : array) (max_step tol grad_tol itmax : R)
    : Search array (R * array) (array * R * array * array) :=
  Probe x0 (fun r => Return (x0, fst r, snd r, invhessian)).

(** A quasi-Newton routine that returns at once, giving back the
    direction it was handed. *)
Definition BFGS_echo (x0 : array) (d0 : option array) (fdf0 : R * array)
    (invhessian : array) (max_step tol grad_tol itmax : R)
    : Search array (R * array) (array * R * array * array) :=
  Return (x0, fst fdf0, match d0 with Some d => d | None => [] end, invhessian).

Definition cell_ex : array := eye 3.

Definition ls_options_ex : Geop.LsOptions :=
  {| Geop.tolerance := 1 / 100000; Geop.iter := 100; Geop.step_ := 1 / 1000;
     Geop.adaptive := 1 |}.

(** One bead, two atoms at (1,0,0) and (0,2,0); the mover is bound. *)
Definition mover_ex (mode_ : string) (fix_ : list Z) (old_f old_d : vec) : Geop.GeopMover :=
  snd (Geop.bind [[1; 0; 0; 0; 2; 0]] cell_ex
         (Geop.GeopMover_init fix_ mode_ (1 / 1000000) 100 old_f old_d [] ls_options_ex)).

End Examples.

(** ** Further parts of the sources *)

Module GeopMore.

Import Np Geop.

Definition set_fixatoms (v : list Z) (s : GeopMover) : GeopMover :=
  {| fixatoms := v; mode := mode s; ls_options := ls_options s;
     grad_tol := grad_tol s; max_step := max_step s; cg_old_f := cg_old_f s;
     cg_old_d := cg_old_d s; invhessian := invhessian s; lm := lm s;
     bfgsm := bfgsm s; beads_q := beads_q s; cell := cell s |}.

End GeopMore.

(** ** utils/inputvalue.py: parsing *)

Module InputParse.

Import InputValue.

(** [io_xml.xml_node]: a name, the attributes of the tag, and the fields
    found inside it, where the key ["_text"] holds the text of the tag.
    Both dictionaries are listed in the order in which they are iterated. *)
Inductive xml_node : Type :=
| XmlNode (name : string) (attribs : list (string * string))
          (fields : list (string * xml_field))
with xml_field : Type :=
| XmlText (text : string)
| XmlChild (node : xml_node).

Definition xml_name (x : xml_node) : string :=
  match x with XmlNode n _ _ => n end.

Definition xml_attribs (x : xml_node) : list (string * string) :=
  match x with XmlNode _ a _ => a end.

Definition xml_fields (x : xml_node) : list (string * xml_field) :=
  match x with XmlNode _ _ f => f end.

(** [d[key]] and [key in d] on a dictionary. *)
Fixpoint lookup {A : Type} (key : string) (d : list (string * A)) : option A :=
  match d with
  | [] => None
  | (k, v) :: d' => if String.eqb key k then Some v else lookup key d'
  end.

Definition has_key {A : Type} (key : string) (d : list (string * A)) : bool :=
  match lookup key d with
  | Some _ => true
  | None => false
  end.

Definition set_units (u : string) (i : Input) : Input :=
  {| _help := _help i; _dimension := _dimension i; units := u;
     _default := _default i; _optional := _optional i; _explicit := _explicit i |}.

(** An input object whose attributes and fields are all scalar: the
    object of [Input] itself, the names in its [attribs] and [fields]
    tables in the order in which they are iterated, and the entries that
    [__init__] puts in [__dict__] under those names; a name listed in both
    tables has one entry. The declared names differ from the names of the
    attributes of [Input] itself, which live in the same [__dict__]. *)
Record InputObject : Type := mkInputObject {
  obj_self : Input;
  obj_attribs : list string;
  obj_fields : list string;
  obj_dict : list (string * InputValue)
}.

Definition set_obj_self (b : Input) (o : InputObject) : InputObject :=
  {| obj_self := b; obj_attribs := obj_attribs o; obj_fields := obj_fields o;
     obj_dict := obj_dict o |}.

Definition set_obj_dict (d : list (string * InputValue)) (o : InputObject)
    : InputObject :=
  {| obj_self := obj_self o; obj_attribs := obj_attribs o;
     obj_fields := obj_fields o; obj_dict := d |}.

(** [key in table]. *)
Definition mem (key : string) (table : list string) : bool :=
  existsb (String.eqb key) table.

(** A method of the entry stored under [key]. *)
Fixpoint on_entry (key : string) (m : M InputValue unit)
    (d : list (string * InputValue)) : result unit * list (string * InputValue) :=
  match d with
  | [] => (Raise (KeyError key), [])
  | (k, iv) :: d' =>
      if String.eqb key k then
        let (r, iv') := m iv in (r, (k, iv') :: d')
      else
        let (r, d'') := on_entry key m d' in (r, (k, iv) :: d'')
  end.

(** [self.__dict__[key].m()]. *)
Definition on_dict (key : string) (m : M InputValue unit) : M InputObject unit :=
  fun o => let (r, d) := on_entry key m (obj_dict o) in (r, set_obj_dict d o).

(** [Input.parse] also raises [NameError]. *)
Inductive parse_exn : Type :=
| Builtin (e : exn)
| NameError (msg : string).

Inductive presult (A : Type) : Type :=
| POk (a : A)
| PRaise (e : parse_exn).

Arguments POk {A} a.
Arguments PRaise {A} e.

Definition P (S A : Type) : Type := S -> presult A * S.

Definition pret {S A : Type} (a : A) : P S A := fun s => (POk a, s).

Definition praise {S A : Type} (e : parse_exn) : P S A := fun s => (PRaise e, s).

Definition pbind {S A B : Type} (m : P S A) (k : A -> P S B) : P S B :=
  fun s =>
    match m s with
    | (POk a, s') => k a s'
    | (PRaise e, s') => (PRaise e, s')
    end.

(** A method that raises builtin exceptions only. *)
Definition of_M {S A : Type} (m : M S A) : P S A :=
  fun s =>
    match m s with
    | (Ok a, s') => (POk a, s')
    | (Raise e, s') => (PRaise (Builtin e), s')
    end.

Notation "m >>> k" := (pbind m (fun _ => k))
  (at level 62, right associativity).

(** A loop [for x in l: body(x)]. *)
Fixpoint for_each {S A : Type} (l : list A) (body : A -> P S unit) : P S unit :=
  match l with
  | [] => pret tt
  | x :: l' => body x >>> for_each l' body
  end.

Section WithReader.

(** [io_xml.read_type(type, data)]; the data is whatever the node holds
    under ["_text"], or the text of an attribute. *)
Variable read_type : callable -> xml_field -> result value.

(** [InputValue.parse(xml, text)]; [xml] is whatever the caller found in
    the [fields] of the parent node. *)
Definition InputValue_parse (xml : option xml_field) (text : string)
    : M InputValue unit :=
  modify (fun iv => set_base (set_explicit true (base iv)) iv) ;;;
  iv <- get ;;
  match xml with
  | None =>
      v <- lift (read_type (type_ iv) (XmlText text)) ;;
      modify (set_value v)
  | Some (XmlText _) => raise (AttributeError "fields")
  | Some (XmlChild x) =>
      match lookup "_text" (xml_fields x) with
      | None => raise (KeyError "_text")
      | Some t =>
          v <- lift (read_type (type_ iv) t) ;;
          modify (set_value v) ;;;
          match lookup "units" (xml_attribs x) with
          | Some u => modify (fun iv => set_base (set_units u (base iv)) iv)
          | None => ret tt
          end
      end
  end.

(** The two closing loops of [Input.parse]: a declared attribute or field
    that is neither explicit nor optional. The message reads [xml.name]. *)
Definition mandatory (what : string) (xml : option xml_node)
    (table : list string) : P InputObject unit :=
  for_each table (fun a => fun o =>
    match lookup a (obj_dict o) with
    | None => praise (Builtin (KeyError a)) o
    | Some va =>
        if negb (_explicit (base va) || _optional (base va)) then
          match xml with
          | Some _ => praise (Builtin (ValueError what)) o
          | None => praise (Builtin (AttributeError "name")) o
          end
        else pret tt o
    end).

(** The loop of [Input.parse] over [xml.attribs]. *)
Definition parse_attribs (x : xml_node) : P InputObject unit :=
  for_each (xml_attribs x) (fun av => fun o =>
    if mem (fst av) (obj_attribs o) then
      of_M (on_dict (fst av) (InputValue_parse None (snd av))) o
    else if String.eqb (fst av) "_text" then pret tt o
    else praise (NameError "Attribute name is not a recognized property") o).

(** The loop of [Input.parse] over [xml.fields]. *)
Definition parse_fields (x : xml_node) : P InputObject unit :=
  for_each (xml_fields x) (fun fv => fun o =>
    if mem (fst fv) (obj_fields o) then
      of_M (on_dict (fst fv) (InputValue_parse (Some (snd fv)) "")) o
    else if String.eqb (fst fv) "_text" then pret tt o
    else praise (NameError "Tag name is not a recognized property") o).

(** [Input.parse(xml, text)] on such an object; [adapt] does nothing. *)
Definition Input_parse (xml : option xml_node) (text : string)
    : P InputObject unit :=
  of_M (modify (fun o => set_obj_self (set_explicit true (obj_self o)) o)) >>>
  match xml with
  | None => pret tt
  | Some x => parse_attribs x >>> parse_fields x
  end >>>
  (fun o => mandatory "Attribute name is mandatory and was not found in the input"
              xml (obj_attribs o) o) >>>
  (fun o => mandatory "Field name is mandatory and was not found in the input"
              xml (obj_fields o) o).

End WithReader.

End InputParse.

(** ** inputs/ensembles.py *)

Module Ensembles.

Import InputValue.

(** [str.upper()] on ASCII text. *)
Definition upper_ascii (c : Ascii.ascii) : Ascii.ascii :=
  let n := Ascii.nat_of_ascii c in
  if (97 <=? n)%nat && (n <=? 122)%nat then Ascii.ascii_of_nat (n - 32) else c.

Fixpoint upper (s : string) : string :=
  match s with
  | EmptyString => EmptyString
  | String c s' => String (upper_ascii c) (upper s')
  end.

(** [v.upper()]. *)
Definition py_upper (v : value) : result string :=
  match v with
  | VStr s => Ok (upper s)
  | _ => Raise (AttributeError "upper")
  end.

(** The options of the [type] attribute in the [attribs] table. *)
Definition type_options : list value :=
  [VStr "nve"; VStr "nvt"; VStr "npt"; VStr "nst"].

(** What [RestartEnsemble.check] reads of the barostat input: its own
    [Input] attributes, those of its thermostat, and its [kind]. *)
Record RestartBaro : Type := mkRestartBaro {
  baro_self : Input;
  baro_thermostat : Input;
  kind : InputValue
}.

(** What [RestartEnsemble.check] reads of the ensemble input. *)
Record RestartEnsemble : Type := mkRestartEnsemble {
  ens_self : Input;
  type_ : InputValue;
  thermostat : Input;
  barostat : RestartBaro
}.

Section WithUnitMap.

Variable UnitMap : string -> option (string -> option R).

(** [if flag == False: raise ValueError(msg)]. *)
Definition require (flag : bool) (msg : string) : result unit :=
  if Bool.eqb flag false then Raise (ValueError msg) else Ok tt.

(** [self.type.fetch().upper() == name]. *)
Definition type_is (e : RestartEnsemble) (name : string) : result bool :=
  t <~ fetch UnitMap (type_ e) ;;
  u <~ py_upper t ;;
  Ok (String.eqb u name).

(** [RestartEnsemble.check]. *)
Definition check (e : RestartEnsemble) : result unit :=
  _ <~ Input_check UnitMap (ens_self e) ;;
  nvt <~ type_is e "NVT" ;;
  _ <~ (if nvt : bool then
          require (_explicit (thermostat e))
                  "No thermostat tag supplied for NVT simulation"
        else Ok tt) ;;
  npt <~ type_is e "NPT" ;;
  _ <~ (if npt : bool then
          _ <~ require (_explicit (thermostat e))
                       "No thermostat tag supplied for NPT simulation" ;;
          _ <~ require (_explicit (baro_self (barostat e)))
                       "No barostat tag supplied for NPT simulation" ;;
          require (_explicit (baro_thermostat (barostat e)))
                  "No thermostat tag supplied in barostat for NPT simulation"
        else Ok tt) ;;
  nst <~ type_is e "NST" ;;
  if nst : bool then
    _ <~ require (_explicit (thermostat e))
                 "No thermostat tag supplied for NST simulation" ;;
    _ <~ require (_explicit (baro_self (barostat e)))
                 "No barostat tag supplied for NST simulation" ;;
    _ <~ require (_explicit (baro_thermostat (barostat e)))
                 "No thermostat tag supplied in barostat for NST simulation" ;;
    k <~ fetch UnitMap (kind (barostat e)) ;;
    if py_eq k (VStr "rigid") then
      Raise (ValueError "You must use a flexible barostat to do constant stress simulations.")
    else Ok tt
  else Ok tt.

End WithUnitMap.

End Ensembles.

(** ** Further concrete instances *)

Module MoreExamples.

Import InputValue InputParse Ensembles Examples.

Local Open Scope string_scope.

(** [int] on the data used below: an integer is kept, text that is not a
    number is refused. *)
Definition int_ex : callable :=
  fun v =>
    match v with
    | VInt z => Ok (VInt z)
    | VBool b => Ok (VInt (if b then 1 else 0))
    | _ => Raise (ValueError "invalid literal for int() with base 10")
    end.

(** A field of type [int] holding 5. *)
Definition int_field : InputValue :=
  {| base := Input_init None None None None;
     InputValue.type_ := int_ex;
     value_ := Some (VInt 5);
     _valid := None |}.

(** [float] on the texts used below. *)
Definition float_ex : callable :=
  fun v =>
    match v with
    | VStr s =>
        if String.eqb s "2" then Ok (VFloat 2)
        else Raise (ValueError "could not convert string to float")
    | VInt z => Ok (VFloat (IZR z))
    | VFloat r => Ok (VFloat r)
    | VBool b => Ok (VFloat (if b then 1 else 0))
    end.

(** A reader that hands the text to the type. *)
Definition read_type_ex (ty : callable) (data : xml_field) : result value :=
  match data with
  | XmlText s => ty (VStr s)
  | XmlChild _ => Raise (TypeError "expected string or buffer")
  end.

(** A mandatory time field in atomic units. *)
Definition timestep_ex : InputValue :=
  {| base := Input_init None (Some "time"%string) None None;
     InputValue.type_ := float_ex;
     value_ := None;
     _valid := None |}.

(** [<timestep units='femtosecond'>2</timestep>]. *)
Definition timestep_node : xml_node :=
  XmlNode "timestep" [("units", "femtosecond")] [("_text", XmlText "2")].

(** An input with the optional attribute [mode] and the mandatory field
    [timestep]. *)
Definition object_ex : InputObject :=
  {| obj_self := Input_init None None None None;
     obj_attribs := ["mode"];
     obj_fields := ["timestep"];
     obj_dict := [("timestep", timestep_ex); ("mode", mode_ex)] |}.

(** [<run mode='unix'> <timestep units='femtosecond'>2</timestep> </run>]. *)
Definition run_node : xml_node :=
  XmlNode "run" [("mode", "unix")]
    [("timestep", XmlChild timestep_node); ("_text", XmlText " ")].

(** An input object as [__init__] leaves it, then marked as given. *)
Definition given : Input := set_explicit true (Input_init None None None None).

(** The [type] attribute of the ensemble input holding [t]. *)
Definition type_holding (t : string) : InputValue :=
  {| base := Input_init None None None (Some (VStr "nve"));
     InputValue.type_ := dtype_same;
     value_ := Some (VStr t);
     _valid := Some type_options |}.

(** A constant-temperature ensemble input with its thermostat given and
    the barostat left at its default. *)
Definition ensemble_ex : RestartEnsemble :=
  {| ens_self := given;
     Ensembles.type_ := type_holding "nvt";
     thermostat := given;
     barostat := {| baro_self := Input_init None None None None;
                    baro_thermostat := Input_init None None None None;
                    kind := field_holding (VStr "rigid") |} |}.

End MoreExamples.

(** * Properties *)

Unset Implicit Arguments.

(** ** Input fields *)

Section InputProperties.

Import InputValue.

Variable UnitMap : string -> option (string -> option R).

Lemma raises_Raise (A : Type) (e : exn) : raises (@Raise A e).
Proof. exists e; reflexivity. Qed.

Lemma not_raises_Ok (A : Type) (a : A) : ~ raises (Ok a).
Proof. intros [e H]; discriminate H. Qed.

Lemma raises_rbind (A B : Type) (r : result A) (k : A -> result B) :
  raises r -> raises (rbind r k).
Proof. intros [e ->]; apply raises_Raise. Qed.

(** An object that is neither explicit nor optional fails [Input.check],
    whatever its units. *)
Lemma Input_check_required (i : Input) :
  _optional i = false -> _explicit i = false -> raises (Input_check UnitMap i).
Proof.
  intros Ho He. unfold Input_check.
  destruct (UnitMap (_dimension i)) as [m|]; [|apply raises_Raise].
  destruct (m (units i)); [|apply raises_Raise].
  rewrite Ho, He; apply raises_Raise.
Qed.

Lemma check_required (iv : InputValue) :
  _optional (base iv) = false -> _explicit (base iv) = false ->
  raises (check UnitMap iv) /\ raises (fetch UnitMap iv).
Proof.
  intros Ho He.
  assert (H : raises (check UnitMap iv)).
  { unfold check; apply raises_rbind, Input_check_required; assumption. }
  split; [exact H|]. unfold fetch; apply raises_rbind; exact H.
Qed.

(** What [store] leaves behind when the conversion succeeds. *)
Lemma store_undefined (iv : InputValue) (v c : value) :
  type_ iv v = Ok c ->
  String.eqb (_dimension (base iv)) "undefined" = true ->
  store UnitMap v iv
  = (Ok tt, set_value c (set_base (set_explicit true (base iv)) iv)).
Proof.
  intros Hty Hdim. unfold store, mbind, modify, get, lift, ret; simpl.
  rewrite Hty, Hdim. reflexivity.
Qed.

Lemma store_dimension (iv : InputValue) (v c : value) (k r : R) :
  type_ iv v = Ok c ->
  String.eqb (_dimension (base iv)) "undefined" = false ->
  unit_factor UnitMap (_dimension (base iv)) (units (base iv)) = Ok k ->
  k <> 0 ->
  num_of c = Some r ->
  store UnitMap v iv
  = (Ok tt, set_value (VFloat (r / k))
              (set_value c (set_base (set_explicit true (base iv)) iv))).
Proof.
  intros Hty Hdim Hk Hk0 Hr. unfold store, mbind, modify, get, lift, ret; simpl.
  rewrite Hty, Hdim, Hk. unfold py_div. rewrite Hr.
  destruct (Req_dec_T k 0) as [E|_]; [contradiction|]. reflexivity.
Qed.

(** [fetch] is [check] followed by the conversion back to user units. *)
Lemma fetch_undefined (iv : InputValue) (c : value) :
  value_ iv = Some c ->
  String.eqb (_dimension (base iv)) "undefined" = true ->
  fetch UnitMap iv = rbind (check UnitMap iv) (fun _ => Ok c).
Proof. intros Hv Hdim. unfold fetch. rewrite Hv, Hdim. reflexivity. Qed.

Lemma fetch_dimension (iv : InputValue) (k r : R) :
  value_ iv = Some (VFloat (r / k)) ->
  String.eqb (_dimension (base iv)) "undefined" = false ->
  unit_factor UnitMap (_dimension (base iv)) (units (base iv)) = Ok k ->
  k <> 0 ->
  fetch UnitMap iv = rbind (check UnitMap iv) (fun _ => Ok (VFloat r)).
Proof.
  intros Hv Hdim Hk Hk0. unfold fetch. rewrite Hv, Hdim, Hk.
  destruct (check UnitMap iv); simpl; [|reflexivity].
  unfold py_mul; simpl. do 2 f_equal. field. exact Hk0.
Qed.

(** A successful [store] in a field with a dimension found a non-zero
    factor and a numeric value. *)
Lemma store_Ok_inv (iv iv' : InputValue) (v : value) :
  store UnitMap v iv = (Ok tt, iv') ->
  exists c, type_ iv v = Ok c /\
    (String.eqb (_dimension (base iv)) "undefined" = false ->
     exists k r, unit_factor UnitMap (_dimension (base iv)) (units (base iv)) = Ok k
                 /\ k <> 0 /\ num_of c = Some r).
Proof.
  unfold store, mbind, modify, get, lift, ret; simpl.
  destruct (type_ iv v) as [c|e] eqn:Hty; [|discriminate].
  intros H. exists c; split; [reflexivity|]. intros Hdim. rewrite Hdim in H.
  destruct (unit_factor UnitMap _ _) as [k|e] eqn:Hk; [|discriminate].
  unfold py_div in H. destruct (num_of c) as [r|] eqn:Hr; [|discriminate].
  destruct (Req_dec_T k 0) as [E|N]; [discriminate|].
  exists k, r; auto.
Qed.

Lemma init_default_inv (help dim un : option string) (d : value)
    (dtype : option callable) (options : option (list value)) (iv : InputValue) :
  InputValue_init UnitMap help dim un (Some d) dtype options = Ok iv ->
  exists ty iv',
    dtype = Some ty /\
    store UnitMap d
      {| base := Input_init help dim un (Some d); type_ := ty;
         value_ := None; _valid := options |} = (Ok tt, iv') /\
    iv = set_base (set_explicit false (base iv')) iv'.
Proof.
  unfold InputValue_init. destruct dtype as [ty|]; [|discriminate].
  simpl. destruct options as [valid|]; simpl.
  - destruct (py_in d valid); simpl; [|discriminate].
    destruct (store UnitMap d _) as [[[]|e] iv'] eqn:Hs; [|discriminate].
    intros H; injection H as <-. exists ty, iv'. auto.
  - destruct (store UnitMap d _) as [[[]|e] iv'] eqn:Hs; [|discriminate].
    intros H; injection H as <-. exists ty, iv'. auto.
Qed.

(** When [check] passes. *)
Lemma Input_check_Ok_iff (i : Input) :
  Input_check UnitMap i = Ok tt <->
  (exists m k, UnitMap (_dimension i) = Some m /\ m (units i) = Some k) /\
  _explicit i || _optional i = true.
Proof.
  unfold Input_check. split.
  - destruct (UnitMap (_dimension i)) as [m|]; [|discriminate].
    destruct (m (units i)) as [k|] eqn:Hk; [|discriminate].
    destruct (_explicit i || _optional i); [|discriminate].
    intros _. split; [exists m, k; auto|reflexivity].
  - intros [(m & k & Hm & Hk) Hf]. rewrite Hm, Hk, Hf. reflexivity.
Qed.

Lemma check_Ok_iff (iv : InputValue) :
  check UnitMap iv = Ok tt <->
  Input_check UnitMap (base iv) = Ok tt /\
  (forall valid, _valid iv = Some valid ->
     exists w, value_ iv = Some w /\ py_in w valid = true).
Proof.
  unfold check, rbind. split.
  - destruct (Input_check UnitMap (base iv)) as [[]|e]; [|discriminate].
    destruct (_valid iv) as [valid|].
    + destruct (value_ iv) as [w|]; [|discriminate].
      destruct (py_in w valid) eqn:Hin; [|discriminate].
      intros _. split; [reflexivity|]. intros valid' E. injection E as <-.
      exists w. auto.
    + intros _. split; [reflexivity|discriminate].
  - intros [-> H]. destruct (_valid iv) as [valid|]; [|reflexivity].
    destruct (H valid eq_refl) as (w & -> & ->). reflexivity.
Qed.

(** C8. A field or attribute declared without a default is required:
    until it is explicitly set, [check] and [fetch] raise, with the
    [ValueError] for an uninitialised value when its units are known for
    its dimension; once a value has been stored the base check passes.
    A field declared with a default is optional and not explicit after
    construction; its [fetch] runs [check] and returns the default as
    converted by the field's [dtype] (a float equal to it when a dimension
    is declared) when [check] passes, that is when the declared units are
    known for the dimension and the stored default is one of the declared
    options, and raises otherwise. *)
Theorem C8_required_raises_default_fetched
    (help dim un : option string) (default : option value)
    (dtype : option callable) (options : option (list value)) (iv : InputValue) :
  InputValue_init UnitMap help dim un default dtype options = Ok iv ->
  (default = None ->
     _optional (base iv) = false /\ _explicit (base iv) = false /\
     raises (check UnitMap iv) /\ raises (fetch UnitMap iv) /\
     raises (Input_check UnitMap (Input_init help dim un None)) /\
     raises (Input_fetch UnitMap (Input_init help dim un None)) /\
     (forall m k,
        UnitMap (_dimension (base iv)) = Some m -> m (units (base iv)) = Some k ->
        check UnitMap iv = Raise (ValueError "Uninitialized Input value") /\
        fetch UnitMap iv = Raise (ValueError "Uninitialized Input value") /\
        forall v iv',
          store UnitMap v iv = (Ok tt, iv') ->
          Input_check UnitMap (base iv') = Ok tt /\
          (options = None ->
           check UnitMap iv' = Ok tt /\ exists w, fetch UnitMap iv' = Ok w)))
  /\
  (forall d, default = Some d ->
     _optional (base iv) = true /\ _explicit (base iv) = false /\
     exists ty c, dtype = Some ty /\ ty d = Ok c /\
       (String.eqb (_dimension (base iv)) "undefined" = true ->
          value_ iv = Some c /\
          fetch UnitMap iv = rbind (check UnitMap iv) (fun _ => Ok c)) /\
       (String.eqb (_dimension (base iv)) "undefined" = false ->
          exists r, num_of c = Some r /\
            fetch UnitMap iv = rbind (check UnitMap iv) (fun _ => Ok (VFloat r))) /\
       (check UnitMap iv = Ok tt <->
        (exists m k, UnitMap (_dimension (base iv)) = Some m /\
                     m (units (base iv)) = Some k) /\
        (forall valid, options = Some valid ->
           exists w, value_ iv = Some w /\ py_in w valid = true))).
Proof.
  intros Hinit; split.
  - intros ->. unfold InputValue_init in Hinit.
    destruct dtype as [ty|]; [|discriminate]. simpl in Hinit.
    assert (Hiv : iv = {| base := Input_init help dim un None; type_ := ty;
                          value_ := None; _valid := options |}).
    { destruct options; simpl in Hinit; injection Hinit as <-; reflexivity. }
    subst iv; simpl. split; [reflexivity|]. split; [reflexivity|].
    split; [|split; [|split; [|split]]].
    + apply check_required; reflexivity.
    + apply check_required; reflexivity.
    + apply Input_check_required; reflexivity.
    + apply Input_check_required; reflexivity.
    + intros m k Hm Hk.
      set (iv0 := {| base := Input_init help dim un None; type_ := ty;
                     value_ := None; _valid := options |}).
      assert (Hc : check UnitMap iv0 = Raise (ValueError "Uninitialized Input value")).
      { unfold check, Input_check, rbind; simpl. rewrite Hm, Hk. reflexivity. }
      split; [exact Hc|]. split; [unfold fetch, rbind; rewrite Hc; reflexivity|].
      intros v iv' Hs.
      destruct (store_Ok_inv _ _ _ Hs) as (c & Hty & Hdimc).
      destruct (String.eqb (_dimension (base iv0)) "undefined") eqn:Hdim.
      * rewrite (store_undefined iv0 v c Hty Hdim) in Hs. injection Hs as <-.
        assert (Hb : Input_check UnitMap
                       (base (set_value c (set_base (set_explicit true (base iv0)) iv0)))
                     = Ok tt).
        { unfold Input_check; simpl. rewrite Hm, Hk. reflexivity. }
        split; [exact Hb|]. intros ->.
        assert (Hck : check UnitMap
                        (set_value c (set_base (set_explicit true (base iv0)) iv0))
                      = Ok tt).
        { unfold check, rbind. rewrite Hb. reflexivity. }
        split; [exact Hck|]. exists c.
        pose proof (fetch_undefined (set_value c (set_base (set_explicit true (base iv0)) iv0))
                      c eq_refl Hdim) as Hfe.
        rewrite Hck in Hfe. exact Hfe.
      * destruct (Hdimc eq_refl) as (k' & r & Hk' & Hk0 & Hr).
        rewrite (store_dimension iv0 v c k' r Hty Hdim Hk' Hk0 Hr) in Hs.
        injection Hs as <-.
        assert (Hb : Input_check UnitMap
                       (base (set_value (VFloat (r / k'))
                                (set_value c (set_base (set_explicit true (base iv0)) iv0))))
                     = Ok tt).
        { unfold Input_check; simpl. rewrite Hm, Hk. reflexivity. }
        split; [exact Hb|]. intros ->.
        assert (Hck : check UnitMap
                        (set_value (VFloat (r / k'))
                           (set_value c (set_base (set_explicit true (base iv0)) iv0)))
                      = Ok tt).
        { unfold check, rbind. rewrite Hb. reflexivity. }
        split; [exact Hck|]. exists (VFloat r).
        pose proof (fetch_dimension
                      (set_value (VFloat (r / k'))
                         (set_value c (set_base (set_explicit true (base iv0)) iv0)))
                      k' r eq_refl Hdim Hk' Hk0) as Hfe.
        rewrite Hck in Hfe. exact Hfe.
  - intros d ->. destruct (init_default_inv _ _ _ _ _ _ _ Hinit) as (ty & iv' & -> & Hs & ->).
    destruct (store_Ok_inv _ _ _ Hs) as (c & Hty & Hdimc). simpl in Hty, Hdimc.
    set (iv0 := {| base := Input_init help dim un (Some d); type_ := ty;
                   value_ := None; _valid := options |}) in *.
    assert (Hchk : forall w : InputValue,
              _optional (base w) = true -> _valid w = options ->
              (check UnitMap w = Ok tt <->
               (exists m k, UnitMap (_dimension (base w)) = Some m /\
                            m (units (base w)) = Some k) /\
               (forall valid, options = Some valid ->
                  exists x, value_ w = Some x /\ py_in x valid = true))).
    { intros w Ho Hv. rewrite check_Ok_iff, Input_check_Ok_iff, Ho, orb_true_r, Hv.
      tauto. }
    destruct (String.eqb (_dimension (base iv0)) "undefined") eqn:Hdim.
    + rewrite (store_undefined iv0 d c Hty Hdim) in Hs. injection Hs as <-.
      simpl. split; [reflexivity|]. split; [reflexivity|].
      exists ty, c. split; [reflexivity|]. split; [exact Hty|]. split; [|split].
      * intros _. split; [reflexivity|]. apply fetch_undefined; [reflexivity|exact Hdim].
      * simpl in Hdim. rewrite Hdim. discriminate.
      * apply Hchk; reflexivity.
    + destruct (Hdimc Hdim) as (k & r & Hk & Hk0 & Hr).
      rewrite (store_dimension iv0 d c k r Hty Hdim Hk Hk0 Hr) in Hs. injection Hs as <-.
      simpl. split; [reflexivity|]. split; [reflexivity|].
      exists ty, c. split; [reflexivity|]. split; [exact Hty|]. split; [|split].
      * simpl in Hdim. rewrite Hdim. discriminate.
      * intros _. exists r. split; [exact Hr|].
        apply fetch_dimension with (k := k); [reflexivity|exact Hdim|exact Hk|exact Hk0].
      * apply Hchk; reflexivity.
Qed.

(** C10. When the conversion [dtype(v)] gives [c], [store(v)] succeeds and
    a following [fetch] first runs [check] and, unless [check] raises
    (units unknown to the dimension, stored value outside the declared
    options), returns the stored data in user units: with an undefined
    dimension the stored value is [c] and [fetch] returns exactly [c]; with
    a dimension whose factor [k] is not zero the stored value is [c / k]
    and [fetch] returns [(c / k) * k], the float equal to [c]. *)
Theorem C10_store_fetch_roundtrip (iv : InputValue) (v c : value) :
  type_ iv v = Ok c ->
  (String.eqb (_dimension (base iv)) "undefined" = true ->
     exists iv', store UnitMap v iv = (Ok tt, iv') /\
       value_ iv' = Some c /\
       fetch UnitMap iv' = rbind (check UnitMap iv') (fun _ => Ok c) /\
       (check UnitMap iv' = Ok tt -> fetch UnitMap iv' = Ok c))
  /\
  (String.eqb (_dimension (base iv)) "undefined" = false ->
     forall k r,
       unit_factor UnitMap (_dimension (base iv)) (units (base iv)) = Ok k ->
       k <> 0 -> num_of c = Some r ->
       exists iv', store UnitMap v iv = (Ok tt, iv') /\
         value_ iv' = Some (VFloat (r / k)) /\
         py_mul (VFloat (r / k)) k = Ok (VFloat r) /\
         fetch UnitMap iv' = rbind (check UnitMap iv') (fun _ => Ok (VFloat r)) /\
         (check UnitMap iv' = Ok tt -> fetch UnitMap iv' = Ok (VFloat r))).
Proof.
  intros Hty; split.
  - intros Hdim. eexists; split; [apply (store_undefined iv v c Hty Hdim)|].
    split; [reflexivity|].
    assert (F : fetch UnitMap (set_value c (set_base (set_explicit true (base iv)) iv))
                = rbind (check UnitMap (set_value c (set_base (set_explicit true (base iv)) iv)))
                    (fun _ => Ok c)).
    { apply fetch_undefined; [reflexivity|exact Hdim]. }
    split; [exact F|]. intros Hc. rewrite F, Hc. reflexivity.
  - intros Hdim k r Hk Hk0 Hr.
    eexists; split; [apply (store_dimension iv v c k r Hty Hdim Hk Hk0 Hr)|].
    split; [reflexivity|].
    split. { unfold py_mul; simpl. do 2 f_equal. field. exact Hk0. }
    match goal with |- fetch _ ?x = _ /\ _ =>
      assert (F : fetch UnitMap x = rbind (check UnitMap x) (fun _ => Ok (VFloat r)))
    end.
    { apply fetch_dimension with (k := k); [reflexivity|exact Hdim|exact Hk|exact Hk0]. }
    split; [exact F|]. intros Hc. rewrite F, Hc. reflexivity.
Qed.

End InputProperties.

(** ** Socket force-field input *)

Section SocketProperties.

Import InputValue ForceFields.

Variable UnitMap : string -> option (string -> option R).

Lemma py_lt_int (a b : Z) : py_lt (VInt a) (VInt b) = (a <? b)%Z.
Proof.
  unfold py_lt; simpl. destruct (Rlt_dec (IZR a) (IZR b)) as [H|H].
  - symmetry; apply Z.ltb_lt, lt_IZR, H.
  - symmetry; apply Z.ltb_ge. apply Z.le_ngt. intros L; apply H, IZR_lt, L.
Qed.

Lemma py_lt_float_int (x : R) (b : Z) :
  IZR b <= x -> py_lt (VFloat x) (VInt b) = false.
Proof.
  intros H. unfold py_lt; simpl. destruct (Rlt_dec x (IZR b)); [lra|reflexivity].
Qed.

Lemma py_lt_float (x y : R) : y <= x -> py_lt (VFloat x) (VFloat y) = false.
Proof.
  intros H. unfold py_lt; simpl. destruct (Rlt_dec x y); [lra|reflexivity].
Qed.





End SocketProperties.

(** ** Arrays *)

Section ArrayProperties.

Import Np.

Lemma dot_self_nonneg (v : vec) : 0 <= dot v v.
Proof.
  unfold dot. induction v as [|x v IH]; simpl; [lra|].
  pose proof (Rle_0_sqr x) as Hx. unfold Rsqr in Hx. lra.
Qed.

Lemma flatten_map (g : R -> R) (a : array) :
  flatten (List.map (List.map g) a) = List.map g (flatten a).
Proof. unfold flatten. symmetry; apply concat_map. Qed.

Lemma dot_scale (k : R) (v : vec) :
  dot (List.map (fun x => x * k) v) (List.map (fun x => x * k) v) = k * k * dot v v.
Proof.
  unfold dot. induction v as [|x v IH]; simpl; [ring|]. rewrite IH. ring.
Qed.

Lemma dot_div_scalar (a : array) (c : R) :
  dot (flatten (div_scalar a c)) (flatten (div_scalar a c))
  = / c * / c * dot (flatten a) (flatten a).
Proof.
  unfold div_scalar. rewrite flatten_map.
  rewrite (map_ext (fun x => x / c) (fun x => x * / c)) by reflexivity.
  apply dot_scale.
Qed.

(** Dividing a non-zero array by its norm gives an array of norm one. *)
Lemma unit_norm (a : array) :
  dot (flatten a) (flatten a) <> 0 ->
  dot (flatten (div_scalar a (norm a))) (flatten (div_scalar a (norm a))) = 1.
Proof.
  intros Hnz. rewrite dot_div_scalar. unfold norm.
  set (q := dot (flatten a) (flatten a)) in *.
  assert (Hq : 0 < q) by (pose proof (dot_self_nonneg (flatten a)); fold q in H; lra).
  assert (Hs : sqrt q * sqrt q = q) by (apply sqrt_sqrt; lra).
  assert (Hs0 : sqrt q <> 0) by (pose proof (sqrt_lt_R0 q Hq); lra).
  rewrite <- Hs at 3. field. exact Hs0.
Qed.

Lemma norm_of_unit (a : array) :
  dot (flatten a) (flatten a) = 1 -> norm a = 1.
Proof. intros H. unfold norm. rewrite H. apply sqrt_1. Qed.

Lemma div_scalar_one (a : array) : div_scalar a 1 = a.
Proof.
  unfold div_scalar. rewrite <- (map_id a) at 2. apply map_ext. intros row.
  rewrite <- (map_id row) at 2. apply map_ext. intros x. field.
Qed.

(** Normalising twice is normalising once. *)
Lemma div_scalar_norm_idem (a : array) :
  dot (flatten a) (flatten a) <> 0 ->
  div_scalar (div_scalar a (norm a)) (norm (div_scalar a (norm a)))
  = div_scalar a (norm a).
Proof.
  intros H. rewrite (norm_of_unit _ (unit_norm a H)). apply div_scalar_one.
Qed.

Lemma shape_map (g : R -> R) (a : array) : shape (List.map (List.map g) a) = shape a.
Proof.
  unfold shape. rewrite map_map. apply map_ext. intros row. apply length_map.
Qed.

Lemma shape_eqb_true (a b : array) : shape_eqb a b = true <-> shape a = shape b.
Proof.
  unfold shape_eqb. destruct (list_eq_dec Nat.eq_dec (shape a) (shape b)); split;
    intros; try assumption; try reflexivity; try discriminate; contradiction.
Qed.

Lemma add_shape_ok (a b : array) :
  shape a = shape b -> exists c, add a b = Ok c.
Proof.
  intros H. unfold add. apply shape_eqb_true in H. rewrite H. eexists; reflexivity.
Qed.

Lemma py_max_Rmax (a b : R) : py_max a b = Rmax a b.
Proof.
  unfold py_max, Rmax. destruct (Rlt_dec a b), (Rle_dec a b); try reflexivity; lra.
Qed.

Lemma bcast_same_length (op : R -> R -> R) (a b : vec) :
  length a = length b -> bcast op a b = Ok (map2 op a b).
Proof. intros H. unfold bcast. rewrite H, Nat.eqb_refl. reflexivity. Qed.

Lemma bcast_rows_same_length (op : R -> R -> R) (a : array) (b : vec) :
  Forall (fun row => length row = length b) a ->
  bcast_rows op a b = Ok (List.map (fun row => map2 op row b) a).
Proof.
  unfold bcast_rows. induction 1 as [|row a Hrow Ha IH]; simpl; [reflexivity|].
  rewrite (bcast_same_length op row b Hrow); simpl. rewrite IH; reflexivity.
Qed.

Lemma np_dot_same_length (a b : vec) :
  length a = length b -> np_dot a b = Ok (dot a b).
Proof. intros H. unfold np_dot. rewrite H, Nat.eqb_refl. reflexivity. Qed.

Lemma map2_length (op : R -> R -> R) (a b : vec) :
  length a = length b -> length (map2 op a b) = length a.
Proof.
  revert b. induction a as [|x a IH]; intros [|y b] H; simpl in *; try discriminate;
    [reflexivity|]. f_equal. apply IH. lia.
Qed.

(** Adding a vector of zeros changes nothing. *)
Lemma map2_plus_zero (row d : vec) :
  length row = length d -> map2 Rplus row (List.map (Rmult 0) d) = row.
Proof.
  revert d. induction row as [|x row IH]; intros [|y d] H; simpl in *; try discriminate;
    [reflexivity|]. rewrite IH by lia. f_equal. ring.
Qed.

Lemma length_set_nth (j : nat) (x : R) (l : vec) : length (set_nth j x l) = length l.
Proof.
  revert j. induction l as [|y l IH]; intros [|j]; simpl; try reflexivity.
  f_equal; apply IH.
Qed.

Lemma nth_set_nth_eq (j : nat) (x : R) (l : vec) (dflt : R) :
  (j < length l)%nat -> nth j (set_nth j x l) dflt = x.
Proof.
  revert j. induction l as [|y l IH]; intros [|j] H; simpl in *; try lia;
    [reflexivity|]. apply IH. lia.
Qed.

Lemma nth_set_nth_keep (i j : nat) (x : R) (l : vec) (dflt : R) :
  nth i l dflt = x -> nth i (set_nth j x l) dflt = x.
Proof.
  revert i j. induction l as [|y l IH]; intros [|i] [|j] H; simpl in *; auto.
Qed.

Lemma np_index_lt (n : nat) (i : Z) (j : nat) : np_index n i = Ok j -> (j < n)%nat.
Proof.
  unfold np_index.
  destruct ((0 <=? i)%Z && (i <? Z.of_nat n)%Z) eqn:H1.
  - intros H; injection H as <-. apply andb_true_iff in H1 as [A B].
    apply Z.leb_le in A. apply Z.ltb_lt in B. lia.
  - destruct ((- Z.of_nat n <=? i)%Z && (i <? 0)%Z) eqn:H2; [|discriminate].
    intros H; injection H as <-. apply andb_true_iff in H2 as [A B].
    apply Z.leb_le in A. apply Z.ltb_lt in B. lia.
Qed.

(** After [row[idx] = x]: the length is kept, every index of [idx] is valid
    and holds [x], and positions that already held [x] still do. *)
Lemma assign_at_spec (idx : list Z) (x : R) (row row' : vec) :
  assign_at idx x row = Ok row' ->
  length row' = length row /\
  (forall i, In i idx ->
     exists j, np_index (length row) i = Ok j /\ nth j row' 1 = x) /\
  (forall j, nth j row 1 = x -> nth j row' 1 = x).
Proof.
  revert row. induction idx as [|i idx IH]; intros row; simpl.
  - intros H; injection H as <-. repeat split; auto. intros i [].
  - destruct (np_index (length row) i) as [j|e] eqn:Hj; simpl; [|discriminate].
    intros H. destruct (IH _ H) as (L & A & K).
    rewrite length_set_nth in L, A. split; [exact L|]. split.
    + intros i' [<-|Hin].
      * exists j; split; [exact Hj|]. apply K, nth_set_nth_eq, (np_index_lt _ _ _ Hj).
      * apply A, Hin.
    + intros j' Hj'. apply K, nth_set_nth_keep, Hj'.
Qed.

Lemma assign_at_total (idx : list Z) (x : R) (row : vec) :
  (forall i, In i idx -> (- Z.of_nat (length row) <= i < Z.of_nat (length row))%Z) ->
  exists row', assign_at idx x row = Ok row'.
Proof.
  revert row. induction idx as [|i idx IH]; intros row H; simpl.
  - eexists; reflexivity.
  - assert (Hi := H i (or_introl eq_refl)).
    assert (exists j, np_index (length row) i = Ok j) as [j Hj].
    { unfold np_index. destruct ((0 <=? i)%Z && (i <? Z.of_nat (length row))%Z) eqn:H1;
        [eexists; reflexivity|].
      destruct ((- Z.of_nat (length row) <=? i)%Z && (i <? 0)%Z) eqn:H2;
        [eexists; reflexivity|].
      apply andb_false_iff in H1, H2. exfalso.
      destruct H1 as [A|A], H2 as [B|B];
        try apply Z.leb_gt in A; try apply Z.ltb_ge in A;
        try apply Z.leb_gt in B; try apply Z.ltb_ge in B; lia. }
    rewrite Hj; simpl. apply IH. intros i' Hin. rewrite length_set_nth.
    apply H; right; exact Hin.
Qed.

Lemma mapM_Forall2 (A B : Type) (f : A -> result B) (l : list A) (l' : list B) :
  mapM f l = Ok l' -> Forall2 (fun a b => f a = Ok b) l l'.
Proof.
  revert l'. induction l as [|a l IH]; simpl; intros l'.
  - intros H; injection H as <-. constructor.
  - destruct (f a) as [b|e] eqn:Hb; simpl; [|discriminate].
    destruct (mapM f l) as [bs|e]; simpl; [|discriminate].
    intros H; injection H as <-. constructor; [exact Hb|apply IH; reflexivity].
Qed.

Lemma mapM_total (A B : Type) (f : A -> result B) (l : list A) :
  (forall a, In a l -> exists b, f a = Ok b) -> exists l', mapM f l = Ok l'.
Proof.
  induction l as [|a l IH]; simpl; intros H; [eexists; reflexivity|].
  destruct (H a (or_introl eq_refl)) as [b ->]; simpl.
  destruct IH as [bs ->]; [intros; apply H; right; assumption|]. simpl.
  eexists; reflexivity.
Qed.

End ArrayProperties.

(** ** Frames *)

Section Frames.

Context {S X : Type} (proj : S -> X).

Lemma keeps_ret (A : Type) (a : A) : keeps proj (ret a).
Proof. intros s; reflexivity. Qed.

Lemma keeps_raise (A : Type) (e : exn) : keeps proj (@raise S A e).
Proof. intros s; reflexivity. Qed.

Lemma keeps_lift (A : Type) (r : result A) : keeps proj (lift r).
Proof. intros s; reflexivity. Qed.

Lemma keeps_get : keeps proj get.
Proof. intros s; reflexivity. Qed.

Lemma keeps_modify (f : S -> S) : (forall s, proj (f s) = proj s) -> keeps proj (modify f).
Proof. intros H s; apply H. Qed.

Lemma keeps_mbind (A B : Type) (m : M S A) (k : A -> M S B) :
  keeps proj m -> (forall a, keeps proj (k a)) -> keeps proj (mbind m k).
Proof.
  intros Hm Hk s. unfold mbind. specialize (Hm s).
  destruct (m s) as [[a|e] s1]; simpl in *.
  - rewrite Hk. exact Hm.
  - exact Hm.
Qed.

Lemma keeps_run (Q A T : Type) (fdf : Q -> M S A) (p : Search Q A T) :
  (forall q, keeps proj (fdf q)) -> keeps proj (run fdf p).
Proof.
  intros Hf. induction p as [t|e|q k IH]; intros s; simpl; try reflexivity.
  specialize (Hf q s). destruct (fdf q s) as [[a|e] s1]; simpl in *.
  - rewrite IH. exact Hf.
  - exact Hf.
Qed.

End Frames.

Ltac keeps_step :=
  first
    [ apply keeps_ret | apply keeps_raise | apply keeps_lift | apply keeps_get
    | apply keeps_modify; intros; reflexivity
    | apply keeps_mbind; [|intros]
    | match goal with
      | |- keeps _ (if ?b then _ else _) => destruct b
      | |- keeps _ (match ?x with _ => _ end) => destruct x
      end ].

(** ** Geometry optimiser *)

Section GeopProperties.

Import Np Geop.

Variable pot_of : array -> array -> R.
Variable force_of : array -> array -> array.
Variable min_brent : R * R -> R -> R -> R -> R -> Search R (R * R) (R * R).
Variable BFGS : array -> option array -> R * array -> array -> R -> R -> R -> R ->
                Search array (R * array) (array * R * array * array).

Lemma keeps_on_lm (X A : Type) (proj : GeopMover -> X) (m : M LineMover.t A) :
  (forall l s, proj (set_lm l s) = proj s) -> keeps proj (on_lm m).
Proof. intros H s. unfold on_lm. destruct (m (lm s)); simpl. apply H. Qed.

Lemma keeps_on_bfgsm (X A : Type) (proj : GeopMover -> X) (m : M BFGSMover.t A) :
  (forall b s, proj (set_bfgsm b s) = proj s) -> keeps proj (on_bfgsm m).
Proof. intros H s. unfold on_bfgsm. destruct (m (bfgsm s)); simpl. apply H. Qed.

(** An objective evaluation writes [dbeads.q] and nothing else. *)
Lemma LineMover_call_frame (x : R) (l : LineMover.t) :
  keeps LineMover.x0 (LineMover_call pot_of force_of x) /\
  keeps LineMover.d (LineMover_call pot_of force_of x) /\
  keeps LineMover.dcell (LineMover_call pot_of force_of x).
Proof.
  repeat split; unfold LineMover_call; repeat keeps_step.
Qed.

Lemma BFGSMover_call_frame (x : array) :
  keeps BFGSMover.x0 (BFGSMover_call pot_of force_of x) /\
  keeps BFGSMover.d (BFGSMover_call pot_of force_of x) /\
  keeps BFGSMover.dcell (BFGSMover_call pot_of force_of x).
Proof.
  repeat split; unfold BFGSMover_call; repeat keeps_step.
Qed.

Lemma LineMover_eta (l l' : LineMover.t) :
  LineMover.x0 l' = LineMover.x0 l -> LineMover.d l' = LineMover.d l ->
  LineMover.dcell l' = LineMover.dcell l ->
  l' = LineMover.set_dbeads_q (LineMover.dbeads_q l') l.
Proof.
  destruct l, l'; simpl; intros -> -> ->; reflexivity.
Qed.

Lemma BFGSMover_eta (b b' : BFGSMover.t) :
  BFGSMover.x0 b' = BFGSMover.x0 b -> BFGSMover.d b' = BFGSMover.d b ->
  BFGSMover.dcell b' = BFGSMover.dcell b ->
  b' = BFGSMover.set_dbeads_q (BFGSMover.dbeads_q b') b.
Proof.
  destruct b, b'; simpl; intros -> -> ->; reflexivity.
Qed.

(** Any search over the line objective leaves the line mover as it was,
    up to [dbeads.q]. *)
Lemma run_LineMover_frame (T : Type) (p : Search R (R * R) T) (l : LineMover.t) :
  snd (run (LineMover_call pot_of force_of) p l)
  = LineMover.set_dbeads_q
      (LineMover.dbeads_q (snd (run (LineMover_call pot_of force_of) p l))) l.
Proof.
  apply LineMover_eta.
  - apply (keeps_run LineMover.x0); intros q; apply (LineMover_call_frame q l).
  - apply (keeps_run LineMover.d); intros q; apply (LineMover_call_frame q l).
  - apply (keeps_run LineMover.dcell); intros q; apply (LineMover_call_frame q l).
Qed.

Lemma run_BFGSMover_frame (T : Type) (p : Search array (R * array) T) (b : BFGSMover.t) :
  snd (run (BFGSMover_call pot_of force_of) p b)
  = BFGSMover.set_dbeads_q
      (BFGSMover.dbeads_q (snd (run (BFGSMover_call pot_of force_of) p b))) b.
Proof.
  apply BFGSMover_eta.
  - apply (keeps_run BFGSMover.x0); intros q; apply (BFGSMover_call_frame q).
  - apply (keeps_run BFGSMover.d); intros q; apply (BFGSMover_call_frame q).
  - apply (keeps_run BFGSMover.dcell); intros q; apply (BFGSMover_call_frame q).
Qed.

(** The line search of a step does not touch the live positions, the cell,
    the options or the configuration of the mover. *)
Lemma line_search_keeps (n : Z) :
  keeps beads_q (line_search pot_of force_of min_brent n) /\
  keeps cell (line_search pot_of force_of min_brent n) /\
  keeps ls_options (line_search pot_of force_of min_brent n) /\
  keeps bfgsm (line_search pot_of force_of min_brent n).
Proof.
  repeat split; unfold line_search;
    repeat first [ keeps_step | apply keeps_on_lm; intros; reflexivity ].
Qed.

(** What a successful [line_search] went through. *)
Lemma line_search_Ok_inv (n : Z) (s s' : GeopMover) (x : R) (u : array) :
  line_search pot_of force_of min_brent n s = (Ok (x, u), s') ->
  exists gradf1 dq1 dq1_unit d' f' du0 fx l',
    direction force_of n s = Ok (gradf1, dq1, dq1_unit) /\
    assign_slice (cg_old_d s) dq1 = Ok d' /\
    assign_slice (cg_old_f s) gradf1 = Ok f' /\
    apply_fixatoms (fixatoms s) dq1_unit = Ok u /\
    shape (beads_q s) = shape u /\
    np_dot (flatten (force_of (beads_q s) (cell s))) (flatten u) = Ok du0 /\
    run (LineMover_call pot_of force_of)
        (min_brent (pot_of (beads_q s) (cell s), du0) 0
           (tolerance (ls_options s)) (iter (ls_options s)) (step_ (ls_options s)))
        (LineMover.set_d (Some (div_scalar u (norm u)))
           (LineMover.set_x0 (Some (beads_q s)) (lm s)))
    = (Ok (x, fx), l') /\
    s' = set_lm l' (set_cg_old_f f' (set_cg_old_d d' s)).
Proof.
  unfold line_search, mbind, get, lift, modify, ret, on_lm, set_dir, raise; simpl.
  destruct (direction force_of n s) as [[[gradf1 dq1] dq1_unit]|e] eqn:Hd; simpl;
    [|discriminate].
  destruct (assign_slice (cg_old_d s) dq1) as [d'|e] eqn:Hd'; simpl; [|discriminate].
  destruct (assign_slice (cg_old_f s) gradf1) as [f'|e] eqn:Hf'; simpl; [|discriminate].
  destruct (apply_fixatoms (fixatoms s) dq1_unit) as [u'|e] eqn:Hu; simpl; [|discriminate].
  destruct (shape_eqb (beads_q s) (div_scalar u' (norm u'))) eqn:Hsh; simpl; [|discriminate].
  destruct (np_dot _ (flatten u')) as [du0|e] eqn:Hdu; simpl; [|discriminate].
  match goal with |- context [run ?f ?p ?l] => destruct (run f p l) as [[[x' fx]|e] l'] eqn:Hrun end;
    simpl; [|discriminate].
  intros H. injection H as <- <- <-.
  exists gradf1, dq1, dq1_unit, d', f', du0, fx, l'.
  repeat split; try assumption; try reflexivity.
  apply shape_eqb_true in Hsh. rewrite Hsh. apply shape_map.
Qed.

(** After a successful [line_search] the line mover holds the direction it
    searched along: the returned [dq1_unit] divided by its norm. *)
Lemma line_search_direction (n : Z) (s s' : GeopMover) (x : R) (u : array) :
  line_search pot_of force_of min_brent n s = (Ok (x, u), s') ->
  LineMover.d (lm s') = Some (div_scalar u (norm u)) /\
  LineMover.x0 (lm s') = Some (beads_q s).
Proof.
  intros H. destruct (line_search_Ok_inv _ _ _ _ _ H)
    as (g & dq1 & dq1u & d' & f' & du0 & fx & l' & _ & _ & _ & _ & _ & _ & Hrun & ->).
  simpl. pose proof (run_LineMover_frame _ (min_brent (pot_of (beads_q s) (cell s), du0) 0
           (tolerance (ls_options s)) (iter (ls_options s)) (step_ (ls_options s)))
           (LineMover.set_d (Some (div_scalar u (norm u)))
              (LineMover.set_x0 (Some (beads_q s)) (lm s)))) as F.
  rewrite Hrun in F; simpl in F. rewrite F. simpl. split; reflexivity.
Qed.

(** The first-step direction. *)
Lemma direction_first (s : GeopMover) :
  direction force_of 0 s
  = Ok (force_of (beads_q s) (cell s), force_of (beads_q s) (cell s),
        div_scalar (force_of (beads_q s) (cell s)) (norm (force_of (beads_q s) (cell s)))).
Proof. unfold direction. rewrite orb_true_r. reflexivity. Qed.

(** The conjugate-gradient direction when the stored vectors have the size
    of the configuration. *)
Lemma direction_cg (n : Z) (s : GeopMover) :
  String.eqb (mode s) "sd" = false -> n <> 0%Z ->
  length (flatten (force_of (beads_q s) (cell s))) = length (cg_old_f s) ->
  Forall (fun row => length row = length (cg_old_d s)) (force_of (beads_q s) (cell s)) ->
  let gradf1 := force_of (beads_q s) (cell s) in
  let gradf0 := cg_old_f s in
  let dq0 := cg_old_d s in
  let beta := dot (map2 Rminus (flatten gradf1) gradf0) (flatten gradf1)
              / dot gradf0 gradf0 in
  let dq1 := List.map (fun row => map2 Rplus row (List.map (Rmult (Rmax 0 beta)) dq0)) gradf1 in
  direction force_of n s = Ok (gradf1, dq1, div_scalar dq1 (norm dq1)).
Proof.
  intros Hm Hn Hf Hd gradf1 gradf0 dq0 beta dq1. unfold direction.
  rewrite Hm. replace (n =? 0)%Z with false by (symmetry; apply Z.eqb_neq, Hn). simpl.
  rewrite (bcast_same_length Rminus _ _ Hf); simpl.
  rewrite np_dot_same_length by (rewrite map2_length; [reflexivity|exact Hf]). simpl.
  rewrite bcast_rows_same_length
    by (eapply Forall_impl; [|exact Hd]; intros row Hrow; simpl in Hrow;
        rewrite length_map; exact Hrow).
  simpl. rewrite py_max_Rmax. reflexivity.
Qed.

(** The BFGS branch of a first step, written out: the direction and the
    inverse Hessian are set, [BFGS] is called with them, and its results
    are stored. *)
Lemma bfgs_first_step (s : GeopMover) :
  String.eqb (mode s) "bfgs" = true ->
  let f := force_of (beads_q s) (cell s) in
  let u := div_scalar f (norm f) in
  let s1 := set_invhessian (eye (length (flatten (beads_q s))))
              (set_bfgsm (BFGSMover.set_d (Some u) (bfgsm s)) s) in
  step pot_of force_of min_brent BFGS 0 s
  = match run (BFGSMover_call pot_of force_of)
            (BFGS (beads_q s) (Some u) (pot_of (beads_q s) (cell s), neg f)
               (eye (length (flatten (beads_q s)))) (max_step s)
               (tolerance (ls_options s)) (grad_tol s) (iter (ls_options s)))
            (bfgsm s1) with
    | (Ok (q, fx, d, h), b) =>
        (Ok tt,
         set_invhessian h
           (set_bfgsm (BFGSMover.set_d (Some d) b) (set_beads_q q (set_bfgsm b s1))))
    | (Raise e, b) => (Raise e, set_bfgsm b s1)
    end.
Proof.
  intros Hm f u s1.
  unfold step, mbind, get; simpl. rewrite Hm.
  unfold bfgs_step, bfgs_init, mbind, get, modify, on_bfgsm; simpl.
  fold f. fold u.
  destruct (run (BFGSMover_call pot_of force_of) _ _) as [[[[[q fx] d] h]|e] b];
    reflexivity.
Qed.

(** C1. On step 0 with a force that is not zero, every mode computes the
    force divided by its Euclidean norm, a vector of norm one: it is the
    [dq1_unit] of steepest descent and conjugate gradient, and in BFGS
    mode [step] hands it to [BFGS] as the direction, with the identity as
    inverse Hessian. In steepest descent and conjugate gradient the fixed
    atoms are then masked and the line search runs along the masked vector
    divided by its norm; it is the normalised force when no atom is
    fixed. *)
Theorem C1_first_step_direction (s : GeopMover) :
  let f := force_of (beads_q s) (cell s) in
  let u := div_scalar f (norm f) in
  dot (flatten f) (flatten f) <> 0 ->
  direction force_of 0 s = Ok (f, f, u) /\
  dot (flatten u) (flatten u) = 1 /\
  (String.eqb (mode s) "bfgs" = true ->
   let s1 := set_invhessian (eye (length (flatten (beads_q s))))
               (set_bfgsm (BFGSMover.set_d (Some u) (bfgsm s)) s) in
   step pot_of force_of min_brent BFGS 0 s
   = match run (BFGSMover_call pot_of force_of)
             (BFGS (beads_q s) (Some u) (pot_of (beads_q s) (cell s), neg f)
                (eye (length (flatten (beads_q s)))) (max_step s)
                (tolerance (ls_options s)) (grad_tol s) (iter (ls_options s)))
             (bfgsm s1) with
     | (Ok (q, fx, d, h), b) =>
         (Ok tt,
          set_invhessian h
            (set_bfgsm (BFGSMover.set_d (Some d) b) (set_beads_q q (set_bfgsm b s1))))
     | (Raise e, b) => (Raise e, set_bfgsm b s1)
     end) /\
  (String.eqb (mode s) "bfgs" = false ->
   forall x u' s',
     line_search pot_of force_of min_brent 0 s = (Ok (x, u'), s') ->
     apply_fixatoms (fixatoms s) u = Ok u' /\
     LineMover.d (lm s') = Some (div_scalar u' (norm u')) /\
     (fixatoms s = [] -> u' = u /\ LineMover.d (lm s') = Some u)).
Proof.
  intros f u Hnz. split; [apply direction_first|]. split; [apply unit_norm, Hnz|].
  split.
  - intros Hm. apply (bfgs_first_step s Hm).
  - intros _ x u' s' Hls.
    destruct (line_search_direction _ _ _ _ _ Hls) as [Hd _].
    destruct (line_search_Ok_inv _ _ _ _ _ Hls)
      as (g & dq1 & dq1u & d' & f' & du0 & fx & l' & Hdir & _ & _ & Hu & _).
    rewrite direction_first in Hdir. injection Hdir as <- <- <-.
    split; [exact Hu|]. split; [exact Hd|].
    intros Hfix. rewrite Hfix in Hu. unfold apply_fixatoms in Hu; simpl in Hu.
    injection Hu as <-. split; [reflexivity|].
    rewrite Hd. f_equal. apply div_scalar_norm_idem, Hnz.
Qed.

Lemma dot_sub_left (a b : vec) :
  length a = length b -> dot (map2 Rminus a b) a = dot a a - dot b a.
Proof.
  revert b. induction a as [|x a IH]; intros [|y b] H; simpl in *; try discriminate.
  - unfold dot; simpl. ring.
  - unfold dot in *; simpl. rewrite IH by lia. ring.
Qed.

(** The Polak-Ribiere [beta] is not positive exactly when the current
    force is at least as long along the stored one as along itself. *)
Lemma beta_nonpositive_iff (f1 f0 : vec) :
  length f1 = length f0 -> dot f0 f0 <> 0 ->
  (dot (map2 Rminus f1 f0) f1 / dot f0 f0 <= 0 <-> dot f1 f1 <= dot f0 f1).
Proof.
  intros Hl Hnz. rewrite (dot_sub_left f1 f0 Hl).
  assert (Hpos : 0 < dot f0 f0) by (pose proof (dot_self_nonneg f0); lra).
  assert (Hinv : 0 < / dot f0 f0) by (apply Rinv_0_lt_compat, Hpos).
  unfold Rdiv. split; intros H.
  - assert (H' : (dot f1 f1 - dot f0 f1) * / dot f0 f0 * dot f0 f0 <= 0 * dot f0 f0)
      by (apply Rmult_le_compat_r; lra).
    rewrite Rmult_assoc, Rinv_l in H' by exact Hnz. lra.
  - assert (H' : (dot f1 f1 - dot f0 f1) * / dot f0 f0 <= 0 * / dot f0 f0)
      by (apply Rmult_le_compat_r; lra).
    lra.
Qed.

(** C6. On a conjugate-gradient step after the first with a stored force
    that is not zero, the Polak-Ribiere [beta] is not positive exactly
    when [dot(gradf1, gradf1) <= dot(cg_old_f, gradf1)]; the direction is
    then the steepest-descent one, the current force divided by its norm,
    without any part of the stored direction. For a current force that is
    not zero and is orthogonal or opposed to the stored one [beta] is
    positive and the stored direction enters with weight [beta]. *)
Theorem C6_nonpositive_beta_is_steepest_descent (n : Z) (s : GeopMover) :
  String.eqb (mode s) "sd" = false -> n <> 0%Z ->
  length (flatten (force_of (beads_q s) (cell s))) = length (cg_old_f s) ->
  Forall (fun row => length row = length (cg_old_d s)) (force_of (beads_q s) (cell s)) ->
  dot (cg_old_f s) (cg_old_f s) <> 0 ->
  let gradf1 := force_of (beads_q s) (cell s) in
  let beta := dot (map2 Rminus (flatten gradf1) (cg_old_f s)) (flatten gradf1)
              / dot (cg_old_f s) (cg_old_f s) in
  (beta <= 0 <->
   dot (flatten gradf1) (flatten gradf1) <= dot (cg_old_f s) (flatten gradf1)) /\
  (beta <= 0 ->
   direction force_of n s = Ok (gradf1, gradf1, div_scalar gradf1 (norm gradf1)) /\
   direction force_of n s = direction force_of 0 s) /\
  (dot (cg_old_f s) (flatten gradf1) <= 0 ->
   dot (flatten gradf1) (flatten gradf1) <> 0 ->
   0 < beta /\
   let dq1 := List.map (fun row => map2 Rplus row (List.map (Rmult beta) (cg_old_d s)))
                gradf1 in
   direction force_of n s = Ok (gradf1, dq1, div_scalar dq1 (norm dq1))).
Proof.
  intros Hm Hn Hf Hd Hnz gradf1 beta.
  pose proof (beta_nonpositive_iff (flatten gradf1) (cg_old_f s) Hf Hnz) as Hiff.
  fold beta in Hiff.
  split; [exact Hiff|]. split.
  - intros Hbeta.
    assert (E : direction force_of n s
                = Ok (gradf1, gradf1, div_scalar gradf1 (norm gradf1))).
    { rewrite (direction_cg n s Hm Hn Hf Hd). fold gradf1. fold beta.
      rewrite Rmax_left by exact Hbeta.
      assert (Hid : List.map (fun row => map2 Rplus row (List.map (Rmult 0) (cg_old_d s)))
                      gradf1 = gradf1).
      { rewrite <- (map_id gradf1) at 2. apply map_ext_in. intros row Hin.
        apply map2_plus_zero. rewrite Forall_forall in Hd. apply Hd, Hin. }
      rewrite Hid. reflexivity. }
    split; [exact E|]. rewrite E. symmetry. apply direction_first.
  - intros Hopp Hnz1.
    assert (Hpos : 0 < beta).
    { destruct (Rle_or_lt beta 0) as [Hle|Hlt]; [|exact Hlt].
      apply Hiff in Hle. pose proof (dot_self_nonneg (flatten gradf1)). lra. }
    split; [exact Hpos|]. intros dq1.
    rewrite (direction_cg n s Hm Hn Hf Hd). fold gradf1. fold beta.
    rewrite Rmax_right by lra. reflexivity.
Qed.

(** After the three assignments of lines 211-213 the row has its length and
    holds zero at the three coordinates of every fixed atom. *)
Lemma fix_row_spec (fix_ : list Z) (row row' : vec) :
  fix_row fix_ row = Ok row' ->
  length row' = length row /\
  forall a k, In a fix_ -> (0 <= k <= 2)%Z ->
    exists j, np_index (length row) (a * 3 + k) = Ok j /\ nth j row' 1 = 0.
Proof.
  unfold fix_row.
  destruct (assign_at (List.map (fun a => a * 3)%Z fix_) 0 row) as [r1|e] eqn:H1;
    simpl; [|discriminate].
  destruct (assign_at (List.map (fun a => a * 3 + 1)%Z fix_) 0 r1) as [r2|e] eqn:H2;
    simpl; [|discriminate].
  intros H3.
  destruct (assign_at_spec _ _ _ _ H1) as (L1 & A1 & K1).
  destruct (assign_at_spec _ _ _ _ H2) as (L2 & A2 & K2).
  destruct (assign_at_spec _ _ _ _ H3) as (L3 & A3 & K3).
  split; [congruence|].
  intros a k Ha Hk.
  assert (Hcases : k = 0%Z \/ k = 1%Z \/ k = 2%Z) by lia.
  destruct Hcases as [ -> | [ -> | -> ] ].
  - destruct (A1 (a * 3)%Z) as (j & Hj & Hz); [apply in_map_iff; exists a; auto|].
    exists j. rewrite Z.add_0_r. split; [exact Hj|]. apply K3, K2, Hz.
  - destruct (A2 (a * 3 + 1)%Z) as (j & Hj & Hz); [apply in_map_iff; exists a; auto|].
    exists j. rewrite L1 in Hj. split; [exact Hj|]. apply K3, Hz.
  - destruct (A3 (a * 3 + 2)%Z) as (j & Hj & Hz); [apply in_map_iff; exists a; auto|].
    exists j. rewrite L2, L1 in Hj. split; [exact Hj|exact Hz].
Qed.

Lemma fix_row_total (fix_ : list Z) (row : vec) :
  (forall a, In a fix_ ->
     (- Z.of_nat (length row) <= a * 3 /\ a * 3 + 2 < Z.of_nat (length row))%Z) ->
  exists row', fix_row fix_ row = Ok row'.
Proof.
  intros H. unfold fix_row.
  destruct (assign_at_total (List.map (fun a => a * 3)%Z fix_) 0 row) as [r1 H1].
  { intros i Hi. apply in_map_iff in Hi as (a & <- & Ha). specialize (H a Ha). lia. }
  rewrite H1; simpl. destruct (assign_at_spec _ _ _ _ H1) as (L1 & _).
  destruct (assign_at_total (List.map (fun a => a * 3 + 1)%Z fix_) 0 r1) as [r2 H2].
  { intros i Hi. apply in_map_iff in Hi as (a & <- & Ha). specialize (H a Ha). lia. }
  rewrite H2; simpl. destruct (assign_at_spec _ _ _ _ H2) as (L2 & _).
  apply assign_at_total.
  intros i Hi. apply in_map_iff in Hi as (a & <- & Ha). specialize (H a Ha). lia.
Qed.




(** C4. [bind] raises exactly when a stored conjugate-gradient vector has
    a size that is neither zero nor the size of the configuration; when it
    returns, a stored vector of size zero has become a vector of zeros of
    that size, any other is untouched, and both movers hold their copies. *)
Theorem C4_bind_size_mismatch (beads cell_ : array) (s : GeopMover) :
  let out := bind beads cell_ s in
  let bad (v : vec) := length v <> 0%nat /\ length v <> size beads in
  (raises (fst out) <-> bad (cg_old_f s) \/ bad (cg_old_d s)) /\
  (bad (cg_old_f s) ->
   fst out = Raise (ValueError "Conjugate gradient force size does not match system size")) /\
  (~ bad (cg_old_f s) -> bad (cg_old_d s) ->
   fst out = Raise (ValueError "Conjugate gradient direction size does not match system size")) /\
  (~ bad (cg_old_f s) -> ~ bad (cg_old_d s) ->
   fst out = Ok tt /\
   cg_old_f (snd out)
   = (if Nat.eqb (length (cg_old_f s)) 0 then repeat 0 (size beads) else cg_old_f s) /\
   cg_old_d (snd out)
   = (if Nat.eqb (length (cg_old_d s)) 0 then repeat 0 (size beads) else cg_old_d s) /\
   length (cg_old_f (snd out)) = size beads /\
   length (cg_old_d (snd out)) = size beads /\
   beads_q (snd out) = beads /\
   LineMover.dbeads_q (lm (snd out)) = Some beads /\
   BFGSMover.dbeads_q (bfgsm (snd out)) = Some beads).
Proof.
  intros out bad.
  assert (Hcases :
    (bad (cg_old_f s) /\
     fst out = Raise (ValueError "Conjugate gradient force size does not match system size")) \/
    (~ bad (cg_old_f s) /\ bad (cg_old_d s) /\
     fst out = Raise (ValueError "Conjugate gradient direction size does not match system size")) \/
    (~ bad (cg_old_f s) /\ ~ bad (cg_old_d s) /\
     fst out = Ok tt /\
     cg_old_f (snd out)
     = (if Nat.eqb (length (cg_old_f s)) 0 then repeat 0 (size beads) else cg_old_f s) /\
     cg_old_d (snd out)
     = (if Nat.eqb (length (cg_old_d s)) 0 then repeat 0 (size beads) else cg_old_d s) /\
     length (cg_old_f (snd out)) = size beads /\
     length (cg_old_d (snd out)) = size beads /\
     beads_q (snd out) = beads /\
     LineMover.dbeads_q (lm (snd out)) = Some beads /\
     BFGSMover.dbeads_q (bfgsm (snd out)) = Some beads)).
  { subst out bad.
    unfold bind, mbind, modify, get, raise, ret, on_lm, on_bfgsm,
      LineMover_bind, BFGSMover_bind; simpl.
    destruct (Nat.eqb (length (cg_old_f s)) (size beads)) eqn:Ef; simpl.
    - apply Nat.eqb_eq in Ef.
      destruct (Nat.eqb (length (cg_old_d s)) (size beads)) eqn:Ed; simpl.
      + apply Nat.eqb_eq in Ed. right; right.
        split; [intros [_ H]; contradiction|]. split; [intros [_ H]; contradiction|].
        split; [reflexivity|].
        split. { destruct (Nat.eqb (length (cg_old_f s)) 0) eqn:Z0; [|reflexivity].
                 apply Nat.eqb_eq in Z0. rewrite <- Ef, Z0.
                 destruct (cg_old_f s); [reflexivity|discriminate]. }
        split. { destruct (Nat.eqb (length (cg_old_d s)) 0) eqn:Z0; [|reflexivity].
                 apply Nat.eqb_eq in Z0. rewrite <- Ed, Z0.
                 destruct (cg_old_d s); [reflexivity|discriminate]. }
        repeat split; assumption.
      + apply Nat.eqb_neq in Ed.
        destruct (Nat.eqb (length (cg_old_d s)) 0) eqn:Zd; simpl.
        * apply Nat.eqb_eq in Zd. right; right.
          split; [intros [_ H]; contradiction|]. split; [intros [H _]; contradiction|].
          split; [reflexivity|].
          split. { destruct (Nat.eqb (length (cg_old_f s)) 0) eqn:Z0; [|reflexivity].
                   apply Nat.eqb_eq in Z0. rewrite <- Ef, Z0.
                   destruct (cg_old_f s); [reflexivity|discriminate]. }
          split; [reflexivity|]. split; [exact Ef|]. split; [apply repeat_length|].
          repeat split.
        * apply Nat.eqb_neq in Zd. right; left.
          split; [intros [_ H]; contradiction|]. split; [split; assumption|reflexivity].
    - apply Nat.eqb_neq in Ef.
      destruct (Nat.eqb (length (cg_old_f s)) 0) eqn:Zf; simpl.
      + apply Nat.eqb_eq in Zf.
        destruct (Nat.eqb (length (cg_old_d s)) (size beads)) eqn:Ed; simpl.
        * apply Nat.eqb_eq in Ed. right; right.
          split; [intros [H _]; contradiction|]. split; [intros [_ H]; contradiction|].
          split; [reflexivity|]. split; [reflexivity|].
          split. { destruct (Nat.eqb (length (cg_old_d s)) 0) eqn:Z0; [|reflexivity].
                   apply Nat.eqb_eq in Z0. rewrite <- Ed, Z0.
                   destruct (cg_old_d s); [reflexivity|discriminate]. }
          split; [apply repeat_length|]. repeat split; assumption.
        * apply Nat.eqb_neq in Ed.
          destruct (Nat.eqb (length (cg_old_d s)) 0) eqn:Zd; simpl.
          -- apply Nat.eqb_eq in Zd. right; right.
             split; [intros [H _]; contradiction|]. split; [intros [H _]; contradiction|].
             split; [reflexivity|]. split; [reflexivity|]. split; [reflexivity|].
             split; [apply repeat_length|]. split; [apply repeat_length|]. repeat split.
          -- apply Nat.eqb_neq in Zd. right; left.
             split; [intros [H _]; contradiction|]. split; [split; assumption|reflexivity].
      + apply Nat.eqb_neq in Zf. left. split; [split; assumption|reflexivity]. }
  split; [|split; [|split]].
  - split.
    + intros [e He]. destruct Hcases as [[B _]|[(_ & B & _)|(_ & _ & O & _)]];
        [left; exact B|right; exact B|rewrite O in He; discriminate].
    + intros HB. destruct Hcases as [[_ E]|[(_ & _ & E)|(NF & ND & _)]];
        [rewrite E; apply raises_Raise|rewrite E; apply raises_Raise|].
      destruct HB; contradiction.
  - intros B. destruct Hcases as [[_ E]|[(NF & _)|(NF & _)]];
      [exact E|contradiction|contradiction].
  - intros NF B. destruct Hcases as [[B' _]|[(_ & _ & E)|(_ & ND & _)]];
      [contradiction|exact E|contradiction].
  - intros NF ND. destruct Hcases as [[B' _]|[(_ & B' & _)|(_ & _ & R)]];
      [contradiction|contradiction|exact R].
Qed.

(** The final update of a step, given what the line search returned. *)
Lemma update_after_line_search (n : Z) (s s1 : GeopMover) (x : R) (u : array) :
  line_search pot_of force_of min_brent n s = (Ok (x, u), s1) ->
  exists q,
    add (beads_q s) (mul_scalar u x) = Ok q /\
    update x u s1
    = (Ok tt,
       set_beads_q q
         (set_ls_options
            (set_step (x * adaptive (ls_options s)
                       + (1 - adaptive (ls_options s)) * step_ (ls_options s))
               (ls_options s)) s1)).
Proof.
  intros Hls.
  destruct (line_search_keeps n) as (Kq & _ & Ko & _).
  specialize (Kq s). specialize (Ko s). rewrite Hls in Kq, Ko. simpl in Kq, Ko.
  destruct (line_search_Ok_inv _ _ _ _ _ Hls)
    as (g & dq1 & dq1u & d' & f' & du0 & fx & l' & _ & _ & _ & _ & Hsh & _).
  destruct (add_shape_ok (beads_q s) (mul_scalar u x)) as [q Hq].
  { rewrite Hsh. unfold mul_scalar. symmetry; apply shape_map. }
  exists q. split; [exact Hq|].
  unfold update, mbind, modify, get, lift; simpl. rewrite Kq, Ko, Hq. reflexivity.
Qed.

(** A completed steepest-descent or conjugate-gradient step has stored
    its force and its direction (not normalised) for the next step. *)
Lemma step_stores_force_and_direction (n : Z) (s s' : GeopMover) :
  String.eqb (mode s) "bfgs" = false ->
  step pot_of force_of min_brent BFGS n s = (Ok tt, s') ->
  exists gradf1 dq1 dq1_unit,
    direction force_of n s = Ok (gradf1, dq1, dq1_unit) /\
    assign_slice (cg_old_f s) gradf1 = Ok (cg_old_f s') /\
    assign_slice (cg_old_d s) dq1 = Ok (cg_old_d s').
Proof.
  intros Hm Hst. unfold step, mbind, get in Hst; simpl in Hst. rewrite Hm in Hst.
  destruct (line_search pot_of force_of min_brent n s) as [[[x u]|e0] s1] eqn:Hls;
    simpl in *; [|discriminate].
  destruct (update_after_line_search _ _ _ _ _ Hls) as (q & _ & Hup).
  rewrite Hup in Hst. injection Hst as <-.
  destruct (line_search_Ok_inv _ _ _ _ _ Hls)
    as (g & dq1 & dq1u & d' & f' & du0 & fx & l' & Hdir & Hd' & Hf' & _ & _ & _ & _ & ->).
  exists g, dq1, dq1u. simpl. repeat split; assumption.
Qed.

(** [dst[:] = src] with a source of the size of [dst] copies it. *)
Lemma assign_slice_same_size (dst : vec) (src : array) (v : vec) :
  assign_slice dst src = Ok v -> length (flatten src) = length dst -> v = flatten src.
Proof.
  unfold assign_slice, flatten.
  destruct src as [|row [|row2 src]]; try discriminate. simpl.
  rewrite app_nil_r. intros H Hl. rewrite Hl, Nat.eqb_refl in H.
  injection H as <-. reflexivity.
Qed.

(** The first component of a direction is the current force, and with
    stored vectors of the size of the configuration the vector [dq1] has
    that size too. *)
Lemma direction_Ok_sizes (n : Z) (s : GeopMover) (g d u : array) :
  direction force_of n s = Ok (g, d, u) ->
  g = force_of (beads_q s) (cell s) /\
  (length (flatten g) = length (cg_old_f s) ->
   length (cg_old_d s) = length (cg_old_f s) ->
   (exists row, g = [row]) ->
   length (flatten d) = length (cg_old_d s)).
Proof.
  unfold direction.
  destruct (String.eqb (mode s) "sd" || (n =? 0)%Z).
  - intros H; injection H as <- <- <-. split; [reflexivity|]. intros Hf Hd _. lia.
  - unfold rbind.
    destruct (bcast Rminus _ _) as [df|e]; [|discriminate].
    destruct (np_dot df _) as [num|e]; [|discriminate].
    destruct (bcast_rows Rplus _ _) as [dq1|e] eqn:Hb; [|discriminate].
    intros H; injection H as <- <- <-. split; [reflexivity|].
    intros Hf Hd [row Hrow]. rewrite Hrow in *.
    unfold flatten in Hf; simpl in Hf. rewrite app_nil_r in Hf.
    unfold bcast_rows in Hb; simpl in Hb.
    rewrite bcast_same_length in Hb by (rewrite length_map; lia).
    simpl in Hb. injection Hb as <-.
    unfold flatten; simpl. rewrite app_nil_r.
    rewrite map2_length by (rewrite length_map; lia). lia.
Qed.

(** C2. On a conjugate-gradient step after the first (mode other than
    ["sd"], step other than 0), with stored vectors of the size of the
    configuration and a stored force that is not zero, the new direction
    is [gradf1 + max(0, beta) * cg_old_d] with the Polak-Ribiere
    [beta = dot(gradf1 - cg_old_f, gradf1) / dot(cg_old_f, cg_old_f)],
    and the direction used is that vector divided by its norm (of norm
    one when it is not zero). After a completed step [cg_old_f] holds the
    force of that step and [cg_old_d] its direction [dq1], not
    normalised. *)
Theorem C2_conjugate_gradient_direction (n : Z) (s : GeopMover) :
  String.eqb (mode s) "sd" = false -> n <> 0%Z ->
  length (flatten (force_of (beads_q s) (cell s))) = length (cg_old_f s) ->
  Forall (fun row => length row = length (cg_old_d s)) (force_of (beads_q s) (cell s)) ->
  dot (cg_old_f s) (cg_old_f s) <> 0 ->
  let gradf1 := force_of (beads_q s) (cell s) in
  let beta := dot (map2 Rminus (flatten gradf1) (cg_old_f s)) (flatten gradf1)
              / dot (cg_old_f s) (cg_old_f s) in
  let dq1 := List.map (fun row => map2 Rplus row
                                    (List.map (Rmult (Rmax 0 beta)) (cg_old_d s)))
               gradf1 in
  let dq1_unit := div_scalar dq1 (norm dq1) in
  direction force_of n s = Ok (gradf1, dq1, dq1_unit) /\
  (dot (flatten dq1) (flatten dq1) <> 0 ->
   dot (flatten dq1_unit) (flatten dq1_unit) = 1) /\
  (forall n0 s0,
     String.eqb (mode s0) "bfgs" = false ->
     length (flatten (force_of (beads_q s0) (cell s0))) = length (cg_old_f s0) ->
     length (cg_old_d s0) = length (cg_old_f s0) ->
     step pot_of force_of min_brent BFGS n0 s0 = (Ok tt, s) ->
     exists d0 u0,
       direction force_of n0 s0 = Ok (force_of (beads_q s0) (cell s0), d0, u0) /\
       cg_old_f s = flatten (force_of (beads_q s0) (cell s0)) /\
       cg_old_d s = flatten d0).
Proof.
  intros Hm Hn Hf Hd Hnz gradf1 beta dq1 dq1_unit. split; [|split].
  - apply direction_cg; assumption.
  - apply unit_norm.
  - intros n0 s0 Hm0 Hf0 Hd0 Hst.
    destruct (step_stores_force_and_direction n0 s0 s Hm0 Hst)
      as (g0 & d0 & u0 & Hdir & Haf & Had).
    destruct (direction_Ok_sizes _ _ _ _ _ Hdir) as [Hg Hsz]. subst g0.
    exists d0, u0. split; [exact Hdir|].
    split; [exact (assign_slice_same_size _ _ _ Haf Hf0)|].
    apply (assign_slice_same_size _ _ _ Had). apply Hsz; [exact Hf0|exact Hd0|].
    unfold assign_slice in Haf.
    destruct (force_of (beads_q s0) (cell s0)) as [|row [|row2 rest]];
      try discriminate. exists row. reflexivity.
Qed.

(** C5. In steepest-descent and conjugate-gradient mode, when the line
    search returns the displacement [x] the step completes and leaves
    [x * adaptive + (1 - adaptive) * step] as the initial step of the next
    search: the old value when [adaptive] is 0, and [x] when it is 1. *)
Theorem C5_adaptive_initial_step (n : Z) (s s1 : GeopMover) (x : R) (u : array) :
  String.eqb (mode s) "bfgs" = false ->
  line_search pot_of force_of min_brent n s = (Ok (x, u), s1) ->
  exists s',
    step pot_of force_of min_brent BFGS n s = (Ok tt, s') /\
    step_ (ls_options s')
    = adaptive (ls_options s) * x
      + (1 - adaptive (ls_options s)) * step_ (ls_options s) /\
    adaptive (ls_options s') = adaptive (ls_options s) /\
    (adaptive (ls_options s) = 0 -> step_ (ls_options s') = step_ (ls_options s)) /\
    (adaptive (ls_options s) = 1 -> step_ (ls_options s') = x).
Proof.
  intros Hm Hls. destruct (update_after_line_search _ _ _ _ _ Hls) as (q & _ & Hup).
  eexists. split.
  - unfold step, mbind, get; simpl. rewrite Hm, Hls; simpl. exact Hup.
  - simpl. split; [ring|]. split; [reflexivity|]. split; intros ->; ring.
Qed.

(** C9. A search over the line objective, or over the BFGS objective,
    changes nothing of the mover but the positions of the private beads of
    that objective; the live positions are as they were after any number of
    evaluations. A step that raises leaves the live positions unchanged; a
    step that returns has changed them once, by its last assignment. *)
Theorem C9_live_positions_frame :
  (forall (T : Type) (p : Search R (R * R) T) (s : GeopMover),
     let s' := snd (on_lm (run (LineMover_call pot_of force_of) p) s) in
     s' = set_lm (LineMover.set_dbeads_q (LineMover.dbeads_q (lm s')) (lm s)) s /\
     beads_q s' = beads_q s)
  /\
  (forall (T : Type) (p : Search array (R * array) T) (s : GeopMover),
     let s' := snd (on_bfgsm (run (BFGSMover_call pot_of force_of) p) s) in
     s' = set_bfgsm (BFGSMover.set_dbeads_q (BFGSMover.dbeads_q (bfgsm s')) (bfgsm s)) s /\
     beads_q s' = beads_q s)
  /\
  (forall n s e s',
     step pot_of force_of min_brent BFGS n s = (Raise e, s') ->
     beads_q s' = beads_q s)
  /\
  (forall n s s',
     step pot_of force_of min_brent BFGS n s = (Ok tt, s') ->
     String.eqb (mode s) "bfgs" = false ->
     exists x u s1,
       line_search pot_of force_of min_brent n s = (Ok (x, u), s1) /\
       beads_q s1 = beads_q s /\
       add (beads_q s) (mul_scalar u x) = Ok (beads_q s'))
  /\
  (forall n s s',
     step pot_of force_of min_brent BFGS n s = (Ok tt, s') ->
     String.eqb (mode s) "bfgs" = true ->
     let s0 := snd (bfgs_init force_of n s) in
     beads_q s0 = beads_q s /\
     exists q fx d h b,
       run (BFGSMover_call pot_of force_of)
           (BFGS (beads_q s0) (BFGSMover.d (bfgsm s0))
              (pot_of (beads_q s0) (cell s0), neg (force_of (beads_q s0) (cell s0)))
              (invhessian s0) (max_step s0) (tolerance (ls_options s0))
              (grad_tol s0) (iter (ls_options s0)))
           (bfgsm s0) = (Ok (q, fx, d, h), b) /\
       beads_q s' = q).
Proof.
  split; [|split; [|split; [|split]]].
  - intros T p s s'. subst s'. unfold on_lm.
    pose proof (run_LineMover_frame T p (lm s)) as F.
    destruct (run (LineMover_call pot_of force_of) p (lm s)) as [r l']; simpl in *.
    split; [rewrite F at 1; reflexivity|reflexivity].
  - intros T p s s'. subst s'. unfold on_bfgsm.
    pose proof (run_BFGSMover_frame T p (bfgsm s)) as F.
    destruct (run (BFGSMover_call pot_of force_of) p (bfgsm s)) as [r b']; simpl in *.
    split; [rewrite F at 1; reflexivity|reflexivity].
  - intros n s e s'. unfold step, mbind, get; simpl.
    destruct (String.eqb (mode s) "bfgs").
    + unfold bfgs_step, bfgs_init, mbind, get, modify, ret, on_bfgsm; simpl.
      destruct (n =? 0)%Z; simpl;
        match goal with |- context [run ?f ?p ?b] =>
          destruct (run f p b) as [[[[[q fx] d] h]|e0] b'] end; simpl;
        intros H; try discriminate; injection H as _ <-; reflexivity.
    + destruct (line_search_keeps n) as (Kq & _). specialize (Kq s).
      destruct (line_search pot_of force_of min_brent n s) as [[[x u]|e0] s1]; simpl in *.
      * unfold update, mbind, modify, get, lift; simpl.
        destruct (add (beads_q s1) (mul_scalar u x)); simpl; intros H;
          [discriminate|injection H as _ <-; exact Kq].
      * intros H; injection H as _ <-; exact Kq.
  - intros n s s' Hst Hm. unfold step, mbind, get in Hst; simpl in Hst. rewrite Hm in Hst.
    destruct (line_search_keeps n) as (Kq & _). specialize (Kq s).
    destruct (line_search pot_of force_of min_brent n s) as [[[x u]|e0] s1] eqn:Hls;
      simpl in *; [|discriminate].
    exists x, u, s1. split; [reflexivity|]. split; [exact Kq|].
    destruct (update_after_line_search _ _ _ _ _ Hls) as (q & Hq & Hup).
    rewrite Hup in Hst. injection Hst as <-. exact Hq.
  - intros n s s' Hst Hm s0. subst s0.
    unfold step, mbind, get in Hst; simpl in Hst. rewrite Hm in Hst.
    unfold bfgs_step, mbind, get, modify, ret, on_bfgsm in Hst.
    unfold bfgs_init, mbind, get, modify, ret in *.
    destruct (n =? 0)%Z; simpl in *;
      match type of Hst with context [run ?f ?p ?b] =>
        destruct (run f p b) as [[[[[q fx] d] h]|e0] b'] eqn:Hrun end;
      simpl in Hst; try discriminate; injection Hst as <-;
      (split; [reflexivity|]); exists q, fx, d, h, b'; (split; reflexivity).
Qed.

End GeopProperties.

(** ** The statements at concrete inputs *)

Section Witnesses.

Import Np Geop Examples.

(** Evaluation of the model, real arithmetic left symbolic. *)
Ltac run_model :=
  cbv -[Rplus Rmult Rminus Rdiv Ropp Rinv sqrt IZR dot norm Rlt_dec Req_dec_T Rmax
        Rle Rlt Rge Rgt].

Lemma C8_witness :
  (exists iv,
     InputValue.InputValue_init UnitMap_ex None (Some "time"%string) None None
       (Some dtype_same) None = Ok iv /\
     InputValue.fetch UnitMap_ex iv = Raise (ValueError "Uninitialized Input value") /\
     exists w,
       InputValue.fetch UnitMap_ex (snd (InputValue.store UnitMap_ex (VFloat 2) iv))
       = Ok w) /\
  (exists iv,
     InputValue.InputValue_init UnitMap_ex None None None (Some (VInt 65535))
       (Some dtype_same) None = Ok iv /\
     InputValue._optional (InputValue.base iv) = true /\
     InputValue.fetch UnitMap_ex iv = Ok (VInt 65535)).
Proof.
  split.
  - eexists. split; [reflexivity|].
    match goal with
    | |- InputValue.fetch _ ?iv = _ /\ _ =>
        destruct (C8_required_raises_default_fetched UnitMap_ex None
                    (Some "time"%string) None None (Some dtype_same) None iv eq_refl)
          as [R _]
    end.
    destruct (R eq_refl) as (_ & _ & _ & _ & _ & _ & K).
    destruct (K _ 1 eq_refl eq_refl) as (_ & Hf & Hst).
    split; [exact Hf|].
    assert (Hs : exists iv',
              InputValue.store UnitMap_ex (VFloat 2)
                {| InputValue.base :=
                     InputValue.Input_init None (Some "time"%string) None None;
                   InputValue.type_ := dtype_same;
                   InputValue.value_ := None;
                   InputValue._valid := None |} = (Ok tt, iv')).
    { unfold InputValue.store, mbind, modify, get, lift, ret; simpl.
      unfold py_div; simpl.
      destruct (Req_dec_T 1 0) as [E|N]; [lra|]. eexists. reflexivity. }
    destruct Hs as (iv' & Hs).
    destruct (Hst _ _ Hs) as (_ & Hopt). destruct (Hopt eq_refl) as (_ & w & Hw).
    exists w. simpl in Hs. simpl. rewrite Hs. exact Hw.
  - exists (field_holding (VInt 65535)).
    assert (H : InputValue.InputValue_init UnitMap_ex None None None (Some (VInt 65535))
                  (Some dtype_same) None = Ok (field_holding (VInt 65535)))
      by reflexivity.
    split; [exact H|].
    destruct (C8_required_raises_default_fetched UnitMap_ex _ _ _ _ _ _ _ H) as [_ D].
    destruct (D (VInt 65535) eq_refl) as (Ho & _ & ty & c & Hty & Hc & Hu & _ & Hck).
    split; [exact Ho|]. injection Hty as <-. injection Hc as <-.
    destruct (Hu eq_refl) as [_ Hf]. rewrite Hf.
    replace (InputValue.check UnitMap_ex (field_holding (VInt 65535))) with (Ok tt);
      [reflexivity|].
    symmetry. apply Hck. split.
    + eexists _, 1. split; reflexivity.
    + intros valid E. discriminate E.
Defined.

(** A field declared with a default and with units that its dimension
    does not have is accepted by the constructor and is optional, and its
    [fetch] raises instead of returning the default. *)
Lemma C8_counterexample :
  exists iv,
    InputValue.InputValue_init UnitMap_ex None None (Some "angstrom"%string)
      (Some (VFloat 1)) (Some dtype_same) None = Ok iv /\
    InputValue._optional (InputValue.base iv) = true /\
    InputValue._explicit (InputValue.base iv) = false /\
    InputValue.value_ iv = Some (VFloat 1) /\
    InputValue.fetch UnitMap_ex iv
    = Raise (TypeError "Unit type is not compatible with dimension") /\
    InputValue.fetch UnitMap_ex iv <> Ok (VFloat 1).
Proof.
  eexists. split; [reflexivity|]. split; [reflexivity|]. split; [reflexivity|].
  split; [reflexivity|]. split; [reflexivity|discriminate].
Qed.

Lemma C10_witness :
  exists iv',
    InputValue.store UnitMap_ex (VFloat 2) time_field = (Ok tt, iv') /\
    InputValue.value_ iv' = Some (VFloat (2 / (41341373 / 1000000))) /\
    InputValue.fetch UnitMap_ex iv' = Ok (VFloat 2).
Proof.
  destruct (C10_store_fetch_roundtrip UnitMap_ex time_field (VFloat 2) (VFloat 2) eq_refl)
    as [_ D].
  destruct (D eq_refl (41341373 / 1000000) 2 eq_refl ltac:(lra) eq_refl)
    as (iv' & Hs & Hv & _ & _ & Hf).
  exists iv'. split; [exact Hs|]. split; [exact Hv|]. apply Hf.
  unfold InputValue.store, mbind, modify, get, lift, ret in Hs; simpl in Hs.
  unfold py_div in Hs; simpl in Hs.
  destruct (Req_dec_T (41341373 / 1000000) 0) as [E|N]; [lra|].
  injection Hs as <-. reflexivity.
Defined.

(** [mode_ex] is the [mode] attribute as [InputFFSocket] declares it. *)
Lemma mode_ex_declared : ForceFields.mode_field UnitMap_ex dtype_same = Ok mode_ex.
Proof. reflexivity. Qed.

(** A value outside the options of a field is stored, and then refused by
    [fetch]. *)
Lemma C10_counterexample :
  exists iv',
    InputValue.store UnitMap_ex (VStr "tcp") mode_ex = (Ok tt, iv') /\
    InputValue.type_ mode_ex (VStr "tcp") = Ok (VStr "tcp") /\
    InputValue.value_ iv' = Some (VStr "tcp") /\
    InputValue.fetch UnitMap_ex iv' = Raise (ValueError "is not a valid option") /\
    InputValue.fetch UnitMap_ex iv' <> Ok (VStr "tcp").
Proof.
  eexists. split; [reflexivity|]. split; [reflexivity|]. split; [reflexivity|].
  split; [reflexivity|discriminate].
Qed.


(** The bound example mover. *)
Lemma mover_ex_bound (m : string) (fix_ : list Z) :
  mover_ex m fix_ [] []
  = {| fixatoms := fix_; mode := m; ls_options := ls_options_ex;
       grad_tol := 1 / 1000000; max_step := 100;
       cg_old_f := [0; 0; 0; 0; 0; 0]; cg_old_d := [0; 0; 0; 0; 0; 0];
       invhessian := [];
       lm := {| LineMover.x0 := None; LineMover.d := None;
                LineMover.dbeads_q := Some [[1; 0; 0; 0; 2; 0]];
                LineMover.dcell := Some cell_ex |};
       bfgsm := {| BFGSMover.x0 := None; BFGSMover.d := None;
                   BFGSMover.dbeads_q := Some [[1; 0; 0; 0; 2; 0]];
                   BFGSMover.dcell := Some cell_ex |};
       beads_q := [[1; 0; 0; 0; 2; 0]]; cell := cell_ex |}.
Proof. reflexivity. Qed.

Lemma force_ex_nonzero :
  dot (flatten (force_ex [[1; 0; 0; 0; 2; 0]] cell_ex))
      (flatten (force_ex [[1; 0; 0; 0; 2; 0]] cell_ex)) <> 0.
Proof. unfold dot; simpl. lra. Qed.

Lemma C4_witness :
  fst (bind [[1; 0; 0; 0; 2; 0]] cell_ex
         (GeopMover_init [] "sd" (1 / 1000000) 100 [] [] [] ls_options_ex)) = Ok tt /\
  cg_old_f (mover_ex "sd" [] [] []) = [0; 0; 0; 0; 0; 0] /\
  raises (fst (bind [[1; 0; 0; 0; 2; 0]] cell_ex
                 (GeopMover_init [] "sd" (1 / 1000000) 100 [1; 2] [] [] ls_options_ex))).
Proof.
  destruct (C4_bind_size_mismatch [[1; 0; 0; 0; 2; 0]] cell_ex
              (GeopMover_init [] "sd" (1 / 1000000) 100 [] [] [] ls_options_ex))
    as (_ & _ & _ & H).
  destruct H as (H1 & H2 & _); [intros [A _]; apply A; reflexivity
                               |intros [A _]; apply A; reflexivity|].
  split; [exact H1|]. split; [exact H2|].
  destruct (C4_bind_size_mismatch [[1; 0; 0; 0; 2; 0]] cell_ex
              (GeopMover_init [] "sd" (1 / 1000000) 100 [1; 2] [] [] ls_options_ex))
    as (H & _).
  apply H. left. split; simpl; discriminate.
Defined.

Lemma line_search_sd_ex :
  exists u s',
    line_search pot_ex force_ex min_brent_ex 0 (mover_ex "sd" [] [] [])
    = (Ok (1 / 1000, u), s').
Proof. do 2 eexists. run_model. reflexivity. Qed.

Lemma line_search_cg_ex :
  exists u s',
    line_search pot_ex force_ex min_brent_ex 0 (mover_ex "cg" [] [] [])
    = (Ok (1 / 1000, u), s').
Proof. do 2 eexists. run_model. reflexivity. Qed.

Lemma line_search_fixed_ex :
  exists u s',
    line_search pot_ex force_ex min_brent_ex 0 (mover_ex "sd" [0%Z] [] [])
    = (Ok (1 / 1000, u), s') /\
    u = [[0; 0; 0;
          - 0 / norm [[- (1); - 0; - 0; - 0; - (2); - 0]];
          - (2) / norm [[- (1); - 0; - 0; - 0; - (2); - 0]];
          - 0 / norm [[- (1); - 0; - 0; - 0; - (2); - 0]]]].
Proof. do 2 eexists. run_model. split; reflexivity. Qed.

Lemma norm_force_ex_pos : 0 < norm [[- (1); - 0; - 0; - 0; - (2); - 0]].
Proof. unfold norm. apply sqrt_lt_R0. unfold dot; simpl. lra. Qed.

Lemma C1_witness :
  let f := force_ex [[1; 0; 0; 0; 2; 0]] cell_ex in
  BFGSMover.d (bfgsm (snd (step pot_ex force_ex min_brent_ex BFGS_echo 0
                             (mover_ex "bfgs" [] [] []))))
  = Some (div_scalar f (norm f)) /\
  LineMover.d (lm (snd (line_search pot_ex force_ex min_brent_ex 0
                          (mover_ex "cg" [] [] []))))
  = Some (div_scalar f (norm f)).
Proof.
  intros f. split.
  - destruct (C1_first_step_direction pot_ex force_ex min_brent_ex BFGS_echo
                (mover_ex "bfgs" [] [] []) force_ex_nonzero) as (_ & _ & Hb & _).
    rewrite (Hb eq_refl). reflexivity.
  - destruct (C1_first_step_direction pot_ex force_ex min_brent_ex BFGS_ex
                (mover_ex "cg" [] [] []) force_ex_nonzero) as (_ & _ & _ & Hl).
    destruct line_search_cg_ex as (u & s' & Hls).
    rewrite Hls; simpl.
    destruct (Hl eq_refl _ u s' Hls) as (_ & _ & H).
    destruct (H eq_refl) as [_ Hd]. exact Hd.
Defined.

(** With a fixed atom the line search of a first step does not run along
    the normalised force. *)
Lemma C1_counterexample :
  let s := mover_ex "sd" [0%Z] [] [] in
  let f := force_ex (beads_q s) (cell s) in
  dot (flatten f) (flatten f) <> 0 /\
  exists x u s',
    line_search pot_ex force_ex min_brent_ex 0 s = (Ok (x, u), s') /\
    LineMover.d (lm s') <> Some (div_scalar f (norm f)).
Proof.
  intros s f. split; [exact force_ex_nonzero|].
  destruct line_search_fixed_ex as (u & s' & Hls & Hu).
  exists (1 / 1000), u, s'. split; [exact Hls|].
  destruct (line_search_direction pot_ex force_ex min_brent_ex _ _ _ _ _ Hls) as [Hd _].
  rewrite Hd, Hu. intros E. injection E as E _.
  pose proof norm_force_ex_pos as Hp.
  change (norm f) with (norm [[- (1); - 0; - 0; - 0; - (2); - 0]]) in E.
  clear - E Hp.
  assert (Hi : 0 < / norm [[- (1); - 0; - 0; - 0; - (2); - 0]])
    by (apply Rinv_0_lt_compat, Hp).
  unfold Rdiv in E. rewrite Rmult_0_l in E. lra.
Qed.

(** A completed first conjugate-gradient step and what it has stored. *)
Lemma step_cg_ex :
  exists s,
    step pot_ex force_ex min_brent_ex BFGS_ex 0 (mover_ex "cg" [] [] []) = (Ok tt, s) /\
    mode s = "cg"%string /\
    cg_old_f s = [- (1); - 0; - 0; - 0; - (2); - 0] /\
    cg_old_d s = [- (1); - 0; - 0; - 0; - (2); - 0] /\
    length (flatten (force_ex (beads_q s) (cell s))) = 6%nat /\
    Forall (fun row => length row = 6%nat) (force_ex (beads_q s) (cell s)).
Proof.
  eexists. run_model. split; [reflexivity|]. repeat split. repeat constructor.
Qed.

(** A stored force orthogonal to the current one: [beta] is 5. *)
Lemma beta_orthogonal_ex :
  let s := mover_ex "cg" [] [0; - (1); 0; 0; 0; 0] [0; - (1); 0; 0; 0; 0] in
  let gradf1 := force_ex (beads_q s) (cell s) in
  dot (cg_old_f s) (flatten gradf1) = 0 /\
  dot (cg_old_f s) (cg_old_f s) = 1 /\
  dot (flatten gradf1) (flatten gradf1) = 5 /\
  dot (map2 Rminus (flatten gradf1) (cg_old_f s)) (flatten gradf1)
    / dot (cg_old_f s) (cg_old_f s) = 5.
Proof.
  intros s gradf1. run_model. unfold dot; simpl.
  split; [ring|]. split; [ring|]. split; [ring|].
  match goal with
  | |- ?a / ?b = 5 => replace a with 5 by ring; replace b with 1 by ring
  end.
  lra.
Qed.

Lemma C2_witness :
  (let s := mover_ex "cg" [] [0; - (1); 0; 0; 0; 0] [0; - (1); 0; 0; 0; 0] in
   exists dq1,
     direction force_ex 1 s
     = Ok (force_ex (beads_q s) (cell s), dq1, div_scalar dq1 (norm dq1)) /\
     nth 1 (flatten dq1) 0 = - (5)) /\
  (exists s dq1,
     step pot_ex force_ex min_brent_ex BFGS_ex 0 (mover_ex "cg" [] [] []) = (Ok tt, s) /\
     cg_old_f s = flatten (force_ex [[1; 0; 0; 0; 2; 0]] cell_ex) /\
     direction force_ex 1 s
     = Ok (force_ex (beads_q s) (cell s), dq1, div_scalar dq1 (norm dq1))).
Proof.
  split.
  - intros s.
    destruct beta_orthogonal_ex as (_ & Hn & _ & Hb). fold s in Hn, Hb.
    destruct (C2_conjugate_gradient_direction pot_ex force_ex min_brent_ex BFGS_ex 1 s
                eq_refl ltac:(discriminate) eq_refl ltac:(repeat constructor)
                ltac:(rewrite Hn; lra)) as [H _].
    eexists. split; [exact H|].
    rewrite Hb. rewrite Rmax_right by lra. simpl. ring.
  - destruct step_cg_ex as (s & Hst & Hm & Hf & Hd & Hlen & Hrows).
    assert (Hnz : dot (cg_old_f s) (cg_old_f s) <> 0)
      by (rewrite Hf; unfold dot; simpl; lra).
    destruct (C2_conjugate_gradient_direction pot_ex force_ex min_brent_ex BFGS_ex 1 s
                ltac:(rewrite Hm; reflexivity) ltac:(discriminate)
                ltac:(rewrite Hf; exact Hlen)
                ltac:(rewrite Hd; exact Hrows) Hnz) as (H & _ & Hprev).
    destruct (Hprev 0%Z (mover_ex "cg" [] [] []) eq_refl eq_refl eq_refl Hst)
      as (d0 & u0 & _ & Hpf & _).
    eexists s, _. split; [exact Hst|]. split; [exact Hpf|exact H].
Defined.

Lemma C6_witness :
  let s := mover_ex "cg" [] [-(2); 0; 0; 0; -(4); 0] [-(2); 0; 0; 0; -(4); 0] in
  let f := force_ex (beads_q s) (cell s) in
  direction force_ex 1 s = Ok (f, f, div_scalar f (norm f)).
Proof.
  intros s f.
  assert (Hnz : dot (cg_old_f s) (cg_old_f s) <> 0)
    by (run_model; unfold dot; simpl; lra).
  destruct (C6_nonpositive_beta_is_steepest_descent force_ex 1 s eq_refl
              ltac:(discriminate) eq_refl ltac:(repeat constructor) Hnz)
    as (_ & H & _).
  refine (proj1 (H _)).
  run_model. unfold dot; simpl.
  match goal with
  | |- ?a / ?b <= 0 => replace a with (- (5)) by ring; replace b with 20 by ring
  end.
  lra.
Defined.

(** With a stored force orthogonal to the current one [beta] is positive
    and the direction is not the steepest-descent one. *)
Lemma C6_counterexample :
  let s := mover_ex "cg" [] [0; - (1); 0; 0; 0; 0] [0; - (1); 0; 0; 0; 0] in
  let f := force_ex (beads_q s) (cell s) in
  dot (cg_old_f s) (flatten f) = 0 /\
  dot (map2 Rminus (flatten f) (cg_old_f s)) (flatten f)
    / dot (cg_old_f s) (cg_old_f s) = 5 /\
  direction force_ex 1 s <> Ok (f, f, div_scalar f (norm f)).
Proof.
  intros s f.
  destruct beta_orthogonal_ex as (Ho & Hn & _ & Hb). fold s in Ho, Hn, Hb. fold f in Ho, Hb.
  split; [exact Ho|]. split; [exact Hb|].
  rewrite (direction_cg force_ex 1 s eq_refl ltac:(discriminate) eq_refl
             ltac:(repeat constructor)).
  fold f. rewrite Hb. rewrite Rmax_right by lra.
  intros E. injection E. intros. lra.
Qed.


Lemma C5_witness :
  exists s',
    step pot_ex force_ex min_brent_ex BFGS_ex 0 (mover_ex "sd" [] [] []) = (Ok tt, s') /\
    step_ (ls_options s') = 1 / 1000.
Proof.
  destruct line_search_sd_ex as (u & s1 & Hls).
  destruct (C5_adaptive_initial_step pot_ex force_ex min_brent_ex BFGS_ex 0
              (mover_ex "sd" [] [] []) s1 (1 / 1000) u eq_refl Hls)
    as (s' & Hst & _ & _ & _ & H1).
  exists s'. split; [exact Hst|]. apply H1. reflexivity.
Defined.

Lemma step_sd_ex :
  exists s',
    step pot_ex force_ex min_brent_ex BFGS_ex 0 (mover_ex "sd" [] [] []) = (Ok tt, s').
Proof. eexists. run_model. reflexivity. Qed.

Lemma C9_witness :
  (exists s',
     step pot_ex force_ex min_brent_ex BFGS_ex 0 (mover_ex "sd" [] [] []) = (Ok tt, s') /\
     exists x u,
       add (beads_q (mover_ex "sd" [] [] [])) (mul_scalar u x) = Ok (beads_q s')) /\
  beads_q (snd (step pot_ex force_ex min_brent_ex BFGS_ex 0 (mover_ex "sd" [5%Z] [] [])))
  = [[1; 0; 0; 0; 2; 0]].
Proof.
  destruct (C9_live_positions_frame pot_ex force_ex min_brent_ex BFGS_ex)
    as (_ & _ & Hraise & Hok & _).
  split.
  - destruct step_sd_ex as (s' & Hst).
    exists s'. split; [exact Hst|].
    destruct (Hok 0%Z (mover_ex "sd" [] [] []) s' Hst eq_refl)
      as (x & u' & s1' & _ & _ & Hadd).
    exists x, u'. exact Hadd.
  - assert (Hst : exists s',
              step pot_ex force_ex min_brent_ex BFGS_ex 0 (mover_ex "sd" [5%Z] [] [])
              = (Raise IndexError, s')).
    { eexists. run_model. reflexivity. }
    destruct Hst as (s' & Hst). rewrite Hst; simpl.
    rewrite (Hraise 0%Z _ IndexError s' Hst). reflexivity.
Defined.

End Witnesses.

(** * Further properties *)

(** ** Geometry optimiser: steps *)

Section GeopSteps.

Import Np Geop GeopMore.

Variable pot_of : array -> array -> R.
Variable force_of : array -> array -> array.
Variable min_brent : R * R -> R -> R -> R -> R -> Search R (R * R) (R * R).
Variable BFGS : array -> option array -> R * array -> array -> R -> R -> R -> R ->
                Search array (R * array) (array * R * array * array).

(** A completed steepest-descent or conjugate-gradient step, taken apart. *)
Lemma step_Ok_inv (n : Z) (s s' : GeopMover) :
  String.eqb (mode s) "bfgs" = false ->
  step pot_of force_of min_brent BFGS n s = (Ok tt, s') ->
  exists x u s1 q,
    line_search pot_of force_of min_brent n s = (Ok (x, u), s1) /\
    add (beads_q s) (mul_scalar u x) = Ok q /\
    s' = set_beads_q q
           (set_ls_options
              (set_step (x * adaptive (ls_options s)
                         + (1 - adaptive (ls_options s)) * step_ (ls_options s))
                 (ls_options s)) s1).
Proof.
  intros Hm Hst. unfold step, mbind, get in Hst; simpl in Hst. rewrite Hm in Hst.
  destruct (line_search pot_of force_of min_brent n s) as [[[x u]|e0] s1] eqn:Hls;
    simpl in *; [|discriminate].
  destruct (update_after_line_search pot_of force_of min_brent _ _ _ _ _ Hls)
    as (q & Hq & Hup).
  rewrite Hup in Hst. injection Hst as <-.
  exists x, u, s1, q. repeat split; assumption.
Qed.

Lemma add_rows (a b c : array) :
  add a b = Ok c ->
  forall i ra, nth_error a i = Some ra ->
    exists rb, nth_error b i = Some rb /\ length rb = length ra /\
               nth_error c i = Some (map2 Rplus ra rb).
Proof.
  unfold add. destruct (shape_eqb a b) eqn:Hsh; [|discriminate].
  intros H; injection H as <-. apply shape_eqb_true in Hsh.
  unfold shape in Hsh.
  revert b Hsh. induction a as [|ra0 a IH]; intros b Hsh i ra Hi.
  - destruct i; discriminate.
  - destruct b as [|rb0 b]; [discriminate|]. simpl in Hsh. injection Hsh as Hl Hsh.
    destruct i as [|i]; simpl in *.
    + injection Hi as <-. exists rb0. repeat split; auto.
    + apply (IH b Hsh i ra Hi).
Qed.

Lemma nth_map2 (op : R -> R -> R) (a b : vec) (j : nat) (dflt : R) :
  (j < length a)%nat -> length a = length b ->
  nth j (map2 op a b) dflt = op (nth j a dflt) (nth j b dflt).
Proof.
  revert b j. induction a as [|x a IH]; intros [|y b] [|j] Hj Hl; simpl in *;
    try lia; try discriminate; [reflexivity|]. apply IH; lia.
Qed.

Lemma mapM_nth_error (A B : Type) (f : A -> result B) (l : list A) (l' : list B) :
  mapM f l = Ok l' ->
  forall i y, nth_error l' i = Some y -> exists x, nth_error l i = Some x /\ f x = Ok y.
Proof.
  intros H. apply mapM_Forall2 in H.
  induction H as [|x y0 l l' Hxy H IH]; intros i y Hi.
  - destruct i; discriminate.
  - destruct i as [|i]; simpl in Hi.
    + injection Hi as <-. exists x; split; [reflexivity|exact Hxy].
    + apply (IH i y Hi).
Qed.

(** X1. A completed steepest-descent or conjugate-gradient step leaves the
    three coordinates of every fixed atom, on every bead, exactly where
    they were. *)
Theorem fixed_atoms_do_not_move (n : Z) (s s' : GeopMover) :
  String.eqb (mode s) "bfgs" = false ->
  fixatoms s <> [] ->
  step pot_of force_of min_brent BFGS n s = (Ok tt, s') ->
  forall a k i row,
    In a (fixatoms s) -> (0 <= k <= 2)%Z -> nth_error (beads_q s) i = Some row ->
    exists j row',
      np_index (length row) (a * 3 + k) = Ok j /\
      nth_error (beads_q s') i = Some row' /\
      length row' = length row /\
      nth j row' 0 = nth j row 0.
Proof.
  intros Hm Hfix Hst a k i row Ha Hk Hrow.
  destruct (step_Ok_inv n s s' Hm Hst) as (x & u & s1 & q & Hls & Hadd & ->).
  simpl.
  destruct (line_search_Ok_inv pot_of force_of min_brent _ _ _ _ _ Hls)
    as (g & dq1 & dq1u & d' & f' & du0 & fx & l' & _ & _ & _ & Hu & _).
  destruct (add_rows _ _ _ Hadd i row Hrow) as (rb & Hrb & Hlen & Hq).
  unfold mul_scalar in Hrb. rewrite nth_error_map in Hrb.
  revert Hrb.
  match goal with |- option_map _ ?t = _ -> _ => destruct t as [ru|] eqn:Hru end;
    simpl; intros Hrb; [|discriminate].
  injection Hrb as <-. rewrite length_map in Hlen.
  unfold apply_fixatoms in Hu.
  destruct (fixatoms s) as [|a0 fx0] eqn:Hfx; [contradiction|]. simpl in Hu.
  destruct (mapM_nth_error _ _ _ _ _ Hu i ru Hru) as (r0 & _ & Hr0).
  destruct (fix_row_spec _ _ _ Hr0) as (L & Z0).
  destruct (Z0 a k Ha Hk) as (j & Hj & Hz).
  assert (Hjlt : (j < length row)%nat).
  { rewrite <- Hlen, L. apply (np_index_lt _ _ _ Hj). }
  exists j, (map2 Rplus row (List.map (fun v => v * x) ru)).
  split; [rewrite <- Hlen, L; exact Hj|]. split; [exact Hq|].
  split; [apply map2_length; rewrite ?length_map; auto|].
  rewrite nth_map2 by (rewrite ?length_map; auto).
  rewrite (nth_indep (List.map (fun v => v * x) ru) 0 (1 * x))
    by (rewrite length_map; lia).
  rewrite (map_nth (fun v => v * x) ru 1 j). rewrite Hz. ring.
Qed.










(** ** Geometry optimiser: objectives *)

Lemma LineMover_call_bound (x : R) (l : LineMover.t) :
  LineMover.dbeads_q (snd (LineMover_call pot_of force_of x l)) = None <->
  LineMover.dbeads_q l = None.
Proof.
  unfold LineMover_call, mbind, get, lift, modify, ret, raise; simpl.
  destruct (LineMover.x0 l) as [x0|]; [|tauto].
  destruct (LineMover.d l) as [d|]; [|tauto].
  destruct (add x0 (mul_scalar d x)) as [q|e]; simpl; [|tauto].
  destruct (LineMover.dbeads_q l) as [b|] eqn:Hb; [|try rewrite Hb; tauto].
  destruct (LineMover.dcell l) as [c|]; simpl; [|try rewrite Hb; tauto].
  destruct (np_dot _ _); simpl; split; discriminate.
Qed.

Lemma BFGSMover_call_bound (x : array) (b : BFGSMover.t) :
  BFGSMover.dbeads_q (snd (BFGSMover_call pot_of force_of x b)) = None <->
  BFGSMover.dbeads_q b = None.
Proof.
  unfold BFGSMover_call, mbind, get, lift, modify, ret, raise; simpl.
  destruct (BFGSMover.dbeads_q b) as [q|] eqn:Hb; [|try rewrite Hb; tauto].
  destruct (BFGSMover.dcell b) as [c|]; simpl; [split; discriminate|try rewrite Hb; tauto].
Qed.

Lemma run_bound (S Q A T : Type) (fdf : Q -> M S A) (proj : S -> Prop)
    (p : Search Q A T) :
  (forall q s, proj (snd (fdf q s)) <-> proj s) ->
  forall s, proj (snd (run fdf p s)) <-> proj s.
Proof.
  intros Hf. induction p as [t|e|q k IH]; intros s; simpl; try tauto.
  specialize (Hf q s). destruct (fdf q s) as [[a|e] s1]; simpl in *.
  - rewrite IH. exact Hf.
  - exact Hf.
Qed.

Lemma LineMover_call_ext (x : R) (l l' : LineMover.t) :
  LineMover.x0 l' = LineMover.x0 l -> LineMover.d l' = LineMover.d l ->
  LineMover.dcell l' = LineMover.dcell l ->
  (LineMover.dbeads_q l' = None <-> LineMover.dbeads_q l = None) ->
  fst (LineMover_call pot_of force_of x l') = fst (LineMover_call pot_of force_of x l) /\
  (forall r, fst (LineMover_call pot_of force_of x l) = Ok r ->
     snd (LineMover_call pot_of force_of x l') = snd (LineMover_call pot_of force_of x l)).
Proof.
  destruct l as [x0 d bq c], l' as [x0' d' bq' c']; simpl.
  intros -> -> -> Hb.
  unfold LineMover_call, mbind, get, lift, modify, ret, raise; simpl.
  destruct x0 as [x0|]; [|split; [reflexivity|discriminate]].
  destruct d as [d|]; [|split; [reflexivity|discriminate]].
  destruct (add x0 (mul_scalar d x)) as [q|e]; simpl; [|split; [reflexivity|discriminate]].
  destruct bq as [bq|], bq' as [bq'|];
    try (exfalso; destruct Hb as [A B];
         first [discriminate (A eq_refl) | discriminate (B eq_refl)]).
  - destruct c as [c|]; simpl; [|split; [reflexivity|discriminate]].
    destruct (np_dot _ _); simpl; split; try reflexivity; discriminate.
  - split; [reflexivity|discriminate].
Qed.

Lemma BFGSMover_call_ext (x : array) (b b' : BFGSMover.t) :
  BFGSMover.dcell b' = BFGSMover.dcell b ->
  (BFGSMover.dbeads_q b' = None <-> BFGSMover.dbeads_q b = None) ->
  fst (BFGSMover_call pot_of force_of x b') = fst (BFGSMover_call pot_of force_of x b).
Proof.
  destruct b as [x0 d bq c], b' as [x0' d' bq' c']; simpl. intros -> Hb.
  unfold BFGSMover_call, mbind, get, lift, modify, ret, raise; simpl.
  destruct bq as [bq|], bq' as [bq'|];
    try (exfalso; destruct Hb as [A B];
         first [discriminate (A eq_refl) | discriminate (B eq_refl)]).
  - destruct c; reflexivity.
  - reflexivity.
Qed.

(** X4. What an objective returns at a point does not depend on the
    evaluations made before: after any search, the line objective and the
    BFGS objective give at [x] what they would have given at the start, and
    a line evaluation that returns leaves the same private positions. *)
Theorem objective_is_history_free :
  (forall (T : Type) (p : Search R (R * R) T) (l : LineMover.t) (x : R),
     let l' := snd (run (LineMover_call pot_of force_of) p l) in
     fst (LineMover_call pot_of force_of x l') = fst (LineMover_call pot_of force_of x l) /\
     (forall r, fst (LineMover_call pot_of force_of x l) = Ok r ->
        snd (LineMover_call pot_of force_of x l')
        = snd (LineMover_call pot_of force_of x l)))
  /\
  (forall (T : Type) (p : Search array (R * array) T) (b : BFGSMover.t) (x : array),
     let b' := snd (run (BFGSMover_call pot_of force_of) p b) in
     fst (BFGSMover_call pot_of force_of x b') = fst (BFGSMover_call pot_of force_of x b)).
Proof.
  split.
  - intros T p l x l'. subst l'. apply LineMover_call_ext.
    + apply (keeps_run LineMover.x0); intros q;
        apply (LineMover_call_frame pot_of force_of q l).
    + apply (keeps_run LineMover.d); intros q;
        apply (LineMover_call_frame pot_of force_of q l).
    + apply (keeps_run LineMover.dcell); intros q;
        apply (LineMover_call_frame pot_of force_of q l).
    + apply (run_bound _ _ _ _ (LineMover_call pot_of force_of)
               (fun l => LineMover.dbeads_q l = None) p).
      intros q s. apply LineMover_call_bound.
  - intros T p b x b'. subst b'. apply BFGSMover_call_ext.
    + apply (keeps_run BFGSMover.dcell); intros q;
        apply (BFGSMover_call_frame pot_of force_of q).
    + apply (run_bound _ _ _ _ (BFGSMover_call pot_of force_of)
               (fun b => BFGSMover.dbeads_q b = None) p).
      intros q s. apply BFGSMover_call_bound.
Qed.




(** ** Geometry optimiser: binding *)

(** [bind] on a mover whose stored vectors have the size of the beads. *)
Lemma bind_sized (beads cell_ : array) (s : GeopMover) :
  length (cg_old_f s) = size beads -> length (cg_old_d s) = size beads ->
  bind beads cell_ s
  = (Ok tt,
     set_bfgsm (BFGSMover.set_dcell (Some cell_)
                  (BFGSMover.set_dbeads_q (Some beads) (bfgsm s)))
       (set_lm (LineMover.set_dcell (Some cell_)
                  (LineMover.set_dbeads_q (Some beads) (lm s)))
          (set_cell cell_ (set_beads_q beads s)))).
Proof.
  intros Hf Hd.
  unfold bind, mbind, modify, get, raise, ret, on_lm, on_bfgsm,
    LineMover_bind, BFGSMover_bind; simpl.
  rewrite Hf, Nat.eqb_refl; simpl. rewrite Hd, Nat.eqb_refl; simpl. reflexivity.
Qed.

Lemma bind_Ok_sizes (beads cell_ : array) (s s1 : GeopMover) :
  bind beads cell_ s = (Ok tt, s1) ->
  length (cg_old_f s1) = size beads /\ length (cg_old_d s1) = size beads.
Proof.
  unfold bind, mbind, modify, get, raise, ret, on_lm, on_bfgsm,
    LineMover_bind, BFGSMover_bind; simpl.
  destruct (Nat.eqb (length (cg_old_f s)) (size beads)) eqn:Ef; simpl.
  - apply Nat.eqb_eq in Ef.
    destruct (Nat.eqb (length (cg_old_d s)) (size beads)) eqn:Ed; simpl.
    + apply Nat.eqb_eq in Ed. intros H; injection H as <-. simpl. auto.
    + destruct (Nat.eqb (length (cg_old_d s)) 0); simpl; [|discriminate].
      intros H; injection H as <-. simpl. split; [exact Ef|apply repeat_length].
  - destruct (Nat.eqb (length (cg_old_f s)) 0); simpl; [|discriminate].
    destruct (Nat.eqb (length (cg_old_d s)) (size beads)) eqn:Ed; simpl.
    + apply Nat.eqb_eq in Ed. intros H; injection H as <-. simpl.
      split; [apply repeat_length|exact Ed].
    + destruct (Nat.eqb (length (cg_old_d s)) 0); simpl; [|discriminate].
      intros H; injection H as <-. simpl. split; apply repeat_length.
Qed.

(** X6. A mover that has been bound can be bound again to any
    configuration of the same size: the stored force and direction are
    kept and both objectives get fresh copies. Binding it to a
    configuration of another size raises, unless the first one was
    empty. *)
Theorem rebind_needs_same_size (beads cell_ : array) (s s1 : GeopMover) :
  bind beads cell_ s = (Ok tt, s1) ->
  (forall beads' cell',
     size beads' = size beads ->
     exists s2,
       bind beads' cell' s1 = (Ok tt, s2) /\
       cg_old_f s2 = cg_old_f s1 /\ cg_old_d s2 = cg_old_d s1 /\
       beads_q s2 = beads' /\
       LineMover.dbeads_q (lm s2) = Some beads' /\
       BFGSMover.dbeads_q (bfgsm s2) = Some beads')
  /\
  (forall beads' cell',
     size beads' <> size beads -> size beads <> 0%nat ->
     fst (bind beads' cell' s1)
     = Raise (ValueError "Conjugate gradient force size does not match system size")).
Proof.
  intros Hb. destruct (bind_Ok_sizes _ _ _ _ Hb) as [Hf Hd]. split.
  - intros beads' cell' Hsz. eexists. split.
    + apply bind_sized; congruence.
    + simpl. repeat split.
  - intros beads' cell' Hne Hnz.
    unfold bind, mbind, modify, get, raise, ret; simpl.
    replace (Nat.eqb (length (cg_old_f s1)) (size beads')) with false
      by (symmetry; apply Nat.eqb_neq; congruence).
    replace (Nat.eqb (length (cg_old_f s1)) 0) with false
      by (symmetry; apply Nat.eqb_neq; congruence).
    reflexivity.
Qed.

(** ** Geometry optimiser: what a step leaves alone *)

Lemma update_keeps (x : R) (u : array) :
  keeps invhessian (update x u) /\ keeps bfgsm (update x u) /\
  keeps cell (update x u) /\ keeps fixatoms (update x u) /\
  keeps mode (update x u) /\ keeps grad_tol (update x u) /\
  keeps max_step (update x u) /\ keeps lm (update x u) /\
  keeps cg_old_f (update x u) /\ keeps cg_old_d (update x u) /\
  keeps (fun s => adaptive (ls_options s)) (update x u) /\
  keeps (fun s => tolerance (ls_options s)) (update x u) /\
  keeps (fun s => iter (ls_options s)) (update x u).
Proof.
  repeat split; unfold update; repeat keeps_step.
Qed.

Lemma line_search_keeps_more (n : Z) :
  keeps invhessian (line_search pot_of force_of min_brent n) /\
  keeps fixatoms (line_search pot_of force_of min_brent n) /\
  keeps mode (line_search pot_of force_of min_brent n) /\
  keeps grad_tol (line_search pot_of force_of min_brent n) /\
  keeps max_step (line_search pot_of force_of min_brent n).
Proof.
  repeat split; unfold line_search;
    repeat first [ keeps_step | apply keeps_on_lm; intros; reflexivity ].
Qed.

Lemma bfgs_step_keeps (n : Z) :
  keeps ls_options (bfgs_step pot_of force_of BFGS n) /\
  keeps cg_old_f (bfgs_step pot_of force_of BFGS n) /\
  keeps cg_old_d (bfgs_step pot_of force_of BFGS n) /\
  keeps lm (bfgs_step pot_of force_of BFGS n) /\
  keeps cell (bfgs_step pot_of force_of BFGS n) /\
  keeps fixatoms (bfgs_step pot_of force_of BFGS n) /\
  keeps mode (bfgs_step pot_of force_of BFGS n) /\
  keeps grad_tol (bfgs_step pot_of force_of BFGS n) /\
  keeps max_step (bfgs_step pot_of force_of BFGS n).
Proof.
  repeat split; unfold bfgs_step, bfgs_init;
    repeat first [ keeps_step | apply keeps_on_bfgsm; intros; reflexivity ].
Qed.

(** X7. Whether it returns or raises, a steepest-descent or
    conjugate-gradient step leaves the inverse Hessian and the BFGS
    objective untouched, and a BFGS step leaves the line-search options,
    the stored conjugate-gradient force and direction and the line
    objective untouched; neither changes the cell, the fixed atoms, the
    mode or the tolerances. *)
Theorem step_touches_only_its_mode (n : Z) (s : GeopMover) :
  let s' := snd (step pot_of force_of min_brent BFGS n s) in
  (String.eqb (mode s) "bfgs" = false ->
   invhessian s' = invhessian s /\ bfgsm s' = bfgsm s /\
   tolerance (ls_options s') = tolerance (ls_options s) /\
   iter (ls_options s') = iter (ls_options s) /\
   adaptive (ls_options s') = adaptive (ls_options s))
  /\
  (String.eqb (mode s) "bfgs" = true ->
   ls_options s' = ls_options s /\ cg_old_f s' = cg_old_f s /\
   cg_old_d s' = cg_old_d s /\ lm s' = lm s)
  /\
  cell s' = cell s /\ fixatoms s' = fixatoms s /\ mode s' = mode s /\
  grad_tol s' = grad_tol s /\ max_step s' = max_step s.
Proof.
  intros s'. subst s'.
  destruct (line_search_keeps pot_of force_of min_brent n) as (_ & Lc & Lo & Lb).
  destruct (line_search_keeps_more n) as (Lh & Lf & Lm & Lg & Lx).
  destruct (bfgs_step_keeps n) as (Bo & Bf & Bd & Bl & Bc & Bx & Bm & Bg & Bs).
  unfold step, mbind, get; simpl.
  destruct (String.eqb (mode s) "bfgs") eqn:Hm.
  - split; [discriminate|]. split.
    + intros _. repeat split; [apply Bo|apply Bf|apply Bd|apply Bl].
    + repeat split; [apply Bc|apply Bx|apply Bm|apply Bg|apply Bs].
  - specialize (Lc s). specialize (Lo s). specialize (Lb s). specialize (Lh s).
    specialize (Lf s). specialize (Lm s). specialize (Lg s). specialize (Lx s).
    destruct (line_search pot_of force_of min_brent n s) as [[[x u]|e] s1];
      simpl in *.
    + destruct (update_keeps x u)
        as (Uh & Ub & Uc & Uf & Um & Ug & Ux & _ & _ & _ & Ua & Ut & Ui).
      split.
      * intros _. rewrite (Uh s1), (Ub s1), (Ut s1), (Ui s1), (Ua s1).
        rewrite Lh, Lb, Lo. repeat split.
      * split; [discriminate|].
        rewrite (Uc s1), (Uf s1), (Um s1), (Ug s1), (Ux s1).
        rewrite Lc, Lf, Lm, Lg, Lx. repeat split.
    + split; [intros _; rewrite Lh, Lb, Lo; repeat split|].
      split; [discriminate|]. rewrite Lc, Lf, Lm, Lg, Lx. repeat split.
Qed.

(** X8. In BFGS mode the fixed atoms play no part: with any other list of
    fixed atoms the step returns or raises the same and reaches the same
    state. *)
Theorem bfgs_step_ignores_fixatoms (n : Z) (s : GeopMover) (fix_ : list Z) :
  String.eqb (mode s) "bfgs" = true ->
  step pot_of force_of min_brent BFGS n (set_fixatoms fix_ s)
  = (fst (step pot_of force_of min_brent BFGS n s),
     set_fixatoms fix_ (snd (step pot_of force_of min_brent BFGS n s))).
Proof.
  intros Hm. unfold step, mbind, get; simpl. rewrite Hm.
  unfold bfgs_step, bfgs_init, mbind, get, modify, ret, on_bfgsm; simpl.
  destruct (n =? 0)%Z; simpl;
    match goal with |- context [run ?f ?p ?b] =>
      destruct (run f p b) as [[[[[q fx] d] h]|e0] b'] end; reflexivity.
Qed.

(** ** Geometry optimiser: persisted state and failures *)

Lemma assign_slice_length_ext (dst dst' : vec) (src : array) :
  length dst' = length dst -> assign_slice dst' src = assign_slice dst src.
Proof. intros H. unfold assign_slice. rewrite H. reflexivity. Qed.

Lemma direction_sd_ext (n : Z) (s s2 : GeopMover) :
  String.eqb (mode s) "sd" || (n =? 0)%Z = true ->
  mode s2 = mode s -> beads_q s2 = beads_q s -> cell s2 = cell s ->
  direction force_of n s2 = direction force_of n s.
Proof.
  intros Hc Hm Hq Hcell. unfold direction. rewrite Hm, Hc, Hq, Hcell. reflexivity.
Qed.

(** X9. The first step does not read the persisted optimiser state. In
    BFGS mode step 0 behaves the same whatever inverse Hessian and
    direction were stored. In steepest-descent mode, and on step 0 of
    conjugate gradient, the contents of the stored force and direction do
    not matter, only their sizes: the step returns or raises the same, and
    when it returns it reaches the same state. *)
Theorem first_step_discards_persisted_state (n : Z) (s : GeopMover) :
  (String.eqb (mode s) "bfgs" = true ->
   forall h dd,
     step pot_of force_of min_brent BFGS 0
       (set_invhessian h (set_bfgsm (BFGSMover.set_d dd (bfgsm s)) s))
     = step pot_of force_of min_brent BFGS 0 s)
  /\
  (String.eqb (mode s) "bfgs" = false ->
   String.eqb (mode s) "sd" || (n =? 0)%Z = true ->
   forall f' d',
     length f' = length (cg_old_f s) -> length d' = length (cg_old_d s) ->
     let s2 := set_cg_old_f f' (set_cg_old_d d' s) in
     fst (step pot_of force_of min_brent BFGS n s2)
     = fst (step pot_of force_of min_brent BFGS n s) /\
     (forall s', step pot_of force_of min_brent BFGS n s = (Ok tt, s') ->
                 step pot_of force_of min_brent BFGS n s2 = (Ok tt, s'))).
Proof.
  split.
  - intros Hm h dd. unfold step, mbind, get; simpl. rewrite Hm.
    unfold bfgs_step, bfgs_init, mbind, get, modify, ret, on_bfgsm; simpl.
    reflexivity.
  - intros Hm Hc f' d' Hf Hd s2.
    assert (Hdir : direction force_of n s2 = direction force_of n s)
      by (apply direction_sd_ext; auto).
    assert (Hls : fst (line_search pot_of force_of min_brent n s2)
                  = fst (line_search pot_of force_of min_brent n s) /\
                  (forall r s1, line_search pot_of force_of min_brent n s = (Ok r, s1) ->
                     line_search pot_of force_of min_brent n s2 = (Ok r, s1))).
    { unfold line_search, mbind, get, lift, modify, ret, on_lm, set_dir, raise; simpl.
      rewrite Hdir.
      destruct (direction force_of n s) as [[[g dq1] dq1u]|e]; simpl;
        [|split; [reflexivity|discriminate]].
      rewrite (assign_slice_length_ext (cg_old_d s) d' dq1 Hd).
      destruct (assign_slice (cg_old_d s) dq1) as [d1|e]; simpl;
        [|split; [reflexivity|discriminate]].
      rewrite (assign_slice_length_ext (cg_old_f s) f' g Hf).
      destruct (assign_slice (cg_old_f s) g) as [f1|e]; simpl;
        [|split; [reflexivity|discriminate]].
      destruct (apply_fixatoms (fixatoms s) dq1u) as [u|e]; simpl;
        [|split; [reflexivity|discriminate]].
      destruct (shape_eqb (beads_q s) (div_scalar u (norm u))); simpl;
        [|split; [reflexivity|discriminate]].
      destruct (np_dot _ (flatten u)) as [du0|e]; simpl;
        [|split; [reflexivity|discriminate]].
      match goal with |- context [run ?f ?p ?l] =>
        destruct (run f p l) as [[[x' fx]|e] l'] end; simpl;
        split; try reflexivity; try discriminate.
      intros r s1 H; exact H. }
    destruct Hls as [Hfst Hok].
    unfold step, mbind, get; simpl. fold s2.
    rewrite Hm.
    destruct (line_search pot_of force_of min_brent n s) as [[r|e] s1] eqn:E.
    + rewrite (Hok r s1 eq_refl). split; [reflexivity|]. intros s' H; exact H.
    + simpl in Hfst.
      destruct (line_search pot_of force_of min_brent n s2) as [[r2|e2] s12]; simpl in *;
        [discriminate|]. injection Hfst as ->. split; [reflexivity|discriminate].
Qed.

Lemma np_index_out_of_range (len : nat) (i : Z) :
  ~ (- Z.of_nat len <= i < Z.of_nat len)%Z -> np_index len i = Raise IndexError.
Proof.
  intros H. unfold np_index.
  destruct ((0 <=? i)%Z && (i <? Z.of_nat len)%Z) eqn:H1.
  - apply andb_true_iff in H1 as [A B]. apply Z.leb_le in A. apply Z.ltb_lt in B. lia.
  - destruct ((- Z.of_nat len <=? i)%Z && (i <? 0)%Z) eqn:H2; [|reflexivity].
    apply andb_true_iff in H2 as [A B]. apply Z.leb_le in A. apply Z.ltb_lt in B. lia.
Qed.

Lemma np_index_in_range (len : nat) (i : Z) (j : nat) :
  np_index len i = Ok j -> (- Z.of_nat len <= i < Z.of_nat len)%Z.
Proof.
  intros H. destruct (Z_le_dec (- Z.of_nat len) i) as [A|A];
    [destruct (Z_lt_dec i (Z.of_nat len)) as [B|B]; [lia|]|];
    rewrite np_index_out_of_range in H by lia; discriminate.
Qed.

Lemma assign_at_error (idx : list Z) (x : R) (row : vec) (e : exn) :
  assign_at idx x row = Raise e -> e = IndexError.
Proof.
  revert row. induction idx as [|i idx IH]; intros row; simpl; [discriminate|].
  unfold np_index.
  destruct ((0 <=? i)%Z && (i <? Z.of_nat (length row))%Z); simpl; [apply IH|].
  destruct ((- Z.of_nat (length row) <=? i)%Z && (i <? 0)%Z); simpl; [apply IH|].
  intros H; injection H as <-; reflexivity.
Qed.

Lemma fix_row_error (fix_ : list Z) (row : vec) (e : exn) :
  fix_row fix_ row = Raise e -> e = IndexError.
Proof.
  unfold fix_row.
  destruct (assign_at (List.map (fun a => a * 3)%Z fix_) 0 row) as [r1|e1] eqn:H1; simpl.
  - destruct (assign_at (List.map (fun a => a * 3 + 1)%Z fix_) 0 r1) as [r2|e2] eqn:H2;
      simpl.
    + apply assign_at_error.
    + intros H; injection H as <-. apply (assign_at_error _ _ _ _ H2).
  - intros H; injection H as <-. apply (assign_at_error _ _ _ _ H1).
Qed.

Lemma fix_row_out_of_range (fix_ : list Z) (row : vec) (a k : Z) :
  In a fix_ -> (0 <= k <= 2)%Z ->
  ~ (- Z.of_nat (length row) <= a * 3 + k < Z.of_nat (length row))%Z ->
  fix_row fix_ row = Raise IndexError.
Proof.
  intros Ha Hk Hout. destruct (fix_row fix_ row) as [row'|e] eqn:H.
  - destruct (fix_row_spec _ _ _ H) as (_ & Z0).
    destruct (Z0 a k Ha Hk) as (j & Hj & _).
    apply np_index_in_range in Hj. contradiction.
  - f_equal. apply (fix_row_error _ _ _ H).
Qed.

Lemma mapM_first_error (A B : Type) (f : A -> result B) (l : list A) (x : A) (E : exn) :
  (forall y e, f y = Raise e -> e = E) ->
  In x l -> f x = Raise E -> mapM f l = Raise E.
Proof.
  intros Hall. induction l as [|y l IH]; intros Hin Hx; [contradiction|]. simpl.
  destruct (f y) as [b|e] eqn:Hy; simpl.
  - destruct Hin as [->|Hin]; [rewrite Hx in Hy; discriminate|].
    rewrite (IH Hin Hx). reflexivity.
  - f_equal. apply (Hall y e Hy).
Qed.

(** X10. A fixed-atom index that falls outside a row of the direction
    makes a steepest-descent or conjugate-gradient step raise
    [IndexError]: the positions are untouched and the line search is not
    started, but the stored force and direction have already been
    overwritten. *)
Theorem fixed_atom_out_of_range_raises
    (n : Z) (s : GeopMover) (gradf1 dq1 dq1_unit : array) (d' f' : vec)
    (a k : Z) (row : vec) :
  String.eqb (mode s) "bfgs" = false ->
  direction force_of n s = Ok (gradf1, dq1, dq1_unit) ->
  assign_slice (cg_old_d s) dq1 = Ok d' ->
  assign_slice (cg_old_f s) gradf1 = Ok f' ->
  In a (fixatoms s) -> (0 <= k <= 2)%Z -> In row dq1_unit ->
  ~ (- Z.of_nat (length row) <= a * 3 + k < Z.of_nat (length row))%Z ->
  step pot_of force_of min_brent BFGS n s
  = (Raise IndexError, set_cg_old_f f' (set_cg_old_d d' s)).
Proof.
  intros Hm Hdir Hd Hf Ha Hk Hrow Hout.
  unfold step, mbind, get; simpl. rewrite Hm.
  unfold line_search, mbind, get, lift, modify, ret; simpl.
  rewrite Hdir; simpl. rewrite Hd; simpl. rewrite Hf; simpl.
  assert (Hu : apply_fixatoms (fixatoms s) dq1_unit = Raise IndexError).
  { unfold apply_fixatoms. destruct (fixatoms s) as [|a0 fx]; [contradiction|]. simpl.
    apply (mapM_first_error _ _ _ _ row).
    - intros y e. apply fix_row_error.
    - exact Hrow.
    - apply (fix_row_out_of_range _ _ a k); assumption. }
  rewrite Hu. reflexivity.
Qed.

End GeopSteps.

(** ** Socket input: the whole of [check] *)

Section SocketCheck.

Import InputValue ForceFields.

Variable UnitMap : string -> option (string -> option R).

Lemma py_lt_float_int_neg (x : R) (b : Z) :
  x < IZR b -> py_lt (VFloat x) (VInt b) = true.
Proof.
  intros H. unfold py_lt; simpl. destruct (Rlt_dec x (IZR b)); [reflexivity|lra].
Qed.

Lemma py_lt_float_neg (x y : R) : x < y -> py_lt (VFloat x) (VFloat y) = true.
Proof.
  intros H. unfold py_lt; simpl. destruct (Rlt_dec x y); [reflexivity|lra].
Qed.

(** [check] as a decision table, when the four fields hold numbers. *)
Lemma check_table (s : InputFFSocket) (p n : Z) (l t : R) (log : list string) :
  Input_check UnitMap (self_ s) = Ok tt ->
  fetch UnitMap (port s) = Ok (VInt p) ->
  fetch UnitMap (slots s) = Ok (VInt n) ->
  fetch UnitMap (latency s) = Ok (VFloat l) ->
  fetch UnitMap (timeout s) = Ok (VFloat t) ->
  check UnitMap s log
  = if ((p <? 1) || (65535 <? p))%Z then (Raise port_error, log)
    else
      let log' := if (p <? 1025)%Z then log ++ [low_port_warning] else log in
      if ((n <? 1) || (5 <? n))%Z then (Raise slots_error, log')
      else if Rlt_dec l 0 then (Raise latency_error, log')
      else if Rlt_dec t 0 then (Raise timeout_error, log')
      else (Ok tt, log').
Proof.
  intros Hs Hp Hn Hl Ht.
  unfold check, check_rest, mbind, lift, ret, raise, warning, modify.
  rewrite Hs; simpl. rewrite Hp; simpl. unfold py_gt. rewrite !py_lt_int.
  destruct (p <? 1)%Z; simpl; [reflexivity|].
  destruct (65535 <? p)%Z; simpl; [reflexivity|].
  destruct (p <? 1025)%Z; simpl; rewrite Hn; simpl; rewrite !py_lt_int;
    (destruct (n <? 1)%Z; simpl; [reflexivity|]);
    (destruct (5 <? n)%Z; simpl; [reflexivity|]);
    rewrite Hl; simpl;
    (destruct (Rlt_dec l 0) as [L|L];
     [rewrite (py_lt_float_int_neg l 0 L); reflexivity
     |rewrite (py_lt_float_int l 0) by lra]); simpl;
    rewrite Ht; simpl;
    (destruct (Rlt_dec t 0) as [T|T];
     [rewrite (py_lt_float_neg t 0 T); reflexivity
     |rewrite (py_lt_float t 0) by lra; reflexivity]).
Qed.

Ltac table_fin :=
  intros; try reflexivity; try congruence; try lia; try lra;
  try (exfalso; lia); try (exfalso; lra).

Ltac table_case :=
  split; [split; [intros Hok; repeat split; table_fin | table_fin]
         | repeat split; table_fin].

(** X11. With the four fields holding numbers, [check] returns exactly
    when the port is in 1-65535, the slots in 1-5 and latency and timeout
    are not negative; otherwise it raises for the first of port, slots,
    latency, timeout that is out of range. *)
Theorem socket_check_accepts_iff
    (s : InputFFSocket) (p n : Z) (l t : R) (log : list string) :
  Input_check UnitMap (self_ s) = Ok tt ->
  fetch UnitMap (port s) = Ok (VInt p) ->
  fetch UnitMap (slots s) = Ok (VInt n) ->
  fetch UnitMap (latency s) = Ok (VFloat l) ->
  fetch UnitMap (timeout s) = Ok (VFloat t) ->
  let out := fst (check UnitMap s log) in
  (out = Ok tt <->
   (1 <= p <= 65535)%Z /\ (1 <= n <= 5)%Z /\ 0 <= l /\ 0 <= t) /\
  (~ (1 <= p <= 65535)%Z -> out = Raise port_error) /\
  ((1 <= p <= 65535)%Z -> ~ (1 <= n <= 5)%Z -> out = Raise slots_error) /\
  ((1 <= p <= 65535)%Z -> (1 <= n <= 5)%Z -> l < 0 -> out = Raise latency_error) /\
  ((1 <= p <= 65535)%Z -> (1 <= n <= 5)%Z -> 0 <= l -> t < 0 ->
   out = Raise timeout_error).
Proof.
  intros Hs Hp Hn Hl Ht out. subst out.
  rewrite (check_table s p n l t log Hs Hp Hn Hl Ht).
  destruct (p <? 1)%Z eqn:P1; [apply Z.ltb_lt in P1|apply Z.ltb_ge in P1]; simpl;
    [table_case|].
  destruct (65535 <? p)%Z eqn:P2; [apply Z.ltb_lt in P2|apply Z.ltb_ge in P2]; simpl;
    [table_case|].
  destruct (n <? 1)%Z eqn:N1; [apply Z.ltb_lt in N1|apply Z.ltb_ge in N1]; simpl;
    [table_case|].
  destruct (5 <? n)%Z eqn:N2; [apply Z.ltb_lt in N2|apply Z.ltb_ge in N2]; simpl;
    [table_case|].
  destruct (Rlt_dec l 0) as [L|L]; simpl; [table_case|].
  destruct (Rlt_dec t 0) as [T|T]; simpl; table_case.
Qed.

(** X12. Whatever [check] then returns or raises, it logs the low-port
    warning once when the port is in 1-1024 and logs nothing otherwise. *)
Theorem socket_check_log
    (s : InputFFSocket) (p n : Z) (l t : R) (log : list string) :
  Input_check UnitMap (self_ s) = Ok tt ->
  fetch UnitMap (port s) = Ok (VInt p) ->
  fetch UnitMap (slots s) = Ok (VInt n) ->
  fetch UnitMap (latency s) = Ok (VFloat l) ->
  fetch UnitMap (timeout s) = Ok (VFloat t) ->
  ((1 <= p <= 1024)%Z -> snd (check UnitMap s log) = log ++ [low_port_warning]) /\
  (~ (1 <= p <= 1024)%Z -> snd (check UnitMap s log) = log).
Proof.
  intros Hs Hp Hn Hl Ht.
  rewrite (check_table s p n l t log Hs Hp Hn Hl Ht).
  destruct (p <? 1)%Z eqn:P1; [apply Z.ltb_lt in P1|apply Z.ltb_ge in P1]; simpl.
  { split; intros; [lia|reflexivity]. }
  destruct (65535 <? p)%Z eqn:P2; [apply Z.ltb_lt in P2|apply Z.ltb_ge in P2]; simpl.
  { split; intros; [lia|reflexivity]. }
  destruct (p <? 1025)%Z eqn:P3; [apply Z.ltb_lt in P3|apply Z.ltb_ge in P3];
    destruct ((n <? 1) || (5 <? n))%Z; simpl;
    try (split; intros; [reflexivity || lia|reflexivity || lia]);
    destruct (Rlt_dec l 0); simpl;
    try (split; intros; [reflexivity || lia|reflexivity || lia]);
    destruct (Rlt_dec t 0); simpl;
    split; intros; first [reflexivity | lia].
Qed.

End SocketCheck.

(** ** Input fields: storing *)

Section StoreProperties.

Import InputValue.

Variable UnitMap : string -> option (string -> option R).

Lemma store_state (v : value) (iv : InputValue) :
  let b := set_base (set_explicit true (base iv)) iv in
  store UnitMap v iv
  = match type_ iv v with
    | Raise e => (Raise e, b)
    | Ok c =>
        if String.eqb (_dimension (base iv)) "undefined" then (Ok tt, set_value c b)
        else
          match unit_factor UnitMap (_dimension (base iv)) (units (base iv)) with
          | Raise e => (Raise e, set_value c b)
          | Ok k =>
              match py_div c k with
              | Raise e => (Raise e, set_value c b)
              | Ok c' => (Ok tt, set_value c' (set_value c b))
              end
          end
    end.
Proof.
  unfold store, mbind, modify, get, lift, ret; simpl.
  destruct (type_ iv v) as [c|e]; simpl; [|reflexivity].
  destruct (String.eqb (_dimension (base iv)) "undefined"); simpl; [reflexivity|].
  destruct (unit_factor UnitMap _ _) as [k|e]; simpl; [|reflexivity].
  destruct (py_div c k); reflexivity.
Qed.

(** X13. The last [store] wins: when [store(v2)] succeeds on a field, it
    succeeds with the same resulting field after any earlier [store(v1)],
    whether that one succeeded or raised. *)
Theorem last_store_wins (iv iv2 : InputValue) (v1 v2 : value) :
  store UnitMap v2 iv = (Ok tt, iv2) ->
  store UnitMap v2 (snd (store UnitMap v1 iv)) = (Ok tt, iv2).
Proof.
  intros H2.
  assert (Hsame : forall w, type_ w = type_ iv -> base w = set_explicit true (base iv)
                            \/ base w = base iv ->
                            _valid w = _valid iv ->
                            store UnitMap v2 w = (Ok tt, iv2)).
  { intros w Ht Hb Hv. rewrite store_state in H2. rewrite store_state. rewrite Ht.
    assert (Hd : _dimension (base w) = _dimension (base iv))
      by (destruct Hb as [-> | ->]; reflexivity).
    assert (Hu : units (base w) = units (base iv))
      by (destruct Hb as [-> | ->]; reflexivity).
    rewrite Hd, Hu.
    assert (Hsv : forall c, set_value c (set_base (set_explicit true (base w)) w)
                            = set_value c (set_base (set_explicit true (base iv)) iv)).
    { intros c. unfold set_value, set_base; simpl. rewrite Ht, Hv.
      destruct Hb as [-> | ->]; reflexivity. }
    destruct (type_ iv v2) as [c|e]; [|discriminate].
    destruct (String.eqb (_dimension (base iv)) "undefined").
    - rewrite Hsv. exact H2.
    - destruct (unit_factor UnitMap _ _) as [k|e]; [|discriminate].
      destruct (py_div c k) as [c'|e]; [|discriminate].
      unfold set_value at 1. unfold set_value at 2 in H2. simpl.
      unfold set_value in H2 at 1; simpl in H2.
      rewrite <- H2. unfold set_value, set_base; simpl. rewrite Ht, Hv.
      destruct Hb as [-> | ->]; reflexivity. }
  rewrite (store_state v1 iv). simpl.
  destruct (type_ iv v1) as [c1|e1]; simpl; [|apply Hsame; auto].
  destruct (String.eqb (_dimension (base iv)) "undefined"); simpl; [apply Hsame; auto|].
  destruct (unit_factor UnitMap _ _) as [k|e]; simpl; [|apply Hsame; auto].
  destruct (py_div c1 k); simpl; apply Hsame; auto.
Qed.

(** X14. A [store] that raises has already marked the field as given: the
    field no longer counts as uninitialised, and when it was the
    conversion that failed the earlier value is still in place. *)
Theorem failed_store_still_marks_given (iv : InputValue) (v : value) (e : exn) :
  fst (store UnitMap v iv) = Raise e ->
  _explicit (base (snd (store UnitMap v iv))) = true /\
  Input_check UnitMap (base (snd (store UnitMap v iv)))
    <> Raise (ValueError "Uninitialized Input value") /\
  (type_ iv v = Raise e -> value_ (snd (store UnitMap v iv)) = value_ iv).
Proof.
  rewrite store_state. simpl. intros H.
  assert (Hchk : forall b : Input, _explicit b = true ->
            Input_check UnitMap b <> Raise (ValueError "Uninitialized Input value")).
  { intros b Hb. unfold Input_check. rewrite Hb. simpl.
    destruct (UnitMap (_dimension b)) as [m|]; [|discriminate].
    destruct (m (units b)); discriminate. }
  destruct (type_ iv v) as [c|e1]; simpl in *.
  - destruct (String.eqb (_dimension (base iv)) "undefined"); simpl in *; [discriminate|].
    destruct (unit_factor UnitMap _ _) as [k|e2]; simpl in *.
    + destruct (py_div c k); simpl in *; [discriminate|].
      split; [reflexivity|]. split; [now apply Hchk|discriminate].
    + split; [reflexivity|]. split; [now apply Hchk|discriminate].
  - split; [reflexivity|]. split; [now apply Hchk|reflexivity].
Qed.

End StoreProperties.

(** ** utils/inputvalue.py: parsing *)

Section ParseProperties.

Import InputValue InputParse.

Variable UnitMap : string -> option (string -> option R).
Variable read_type : callable -> xml_field -> result value.

Lemma InputValue_parse_state (xml : option xml_field) (text : string) (iv : InputValue) :
  let b := set_base (set_explicit true (base iv)) iv in
  InputValue_parse read_type xml text iv
  = match xml with
    | None =>
        match read_type (type_ iv) (XmlText text) with
        | Ok v => (Ok tt, set_value v b)
        | Raise e => (Raise e, b)
        end
    | Some (XmlText _) => (Raise (AttributeError "fields"), b)
    | Some (XmlChild x) =>
        match lookup "_text" (xml_fields x) with
        | None => (Raise (KeyError "_text"), b)
        | Some t =>
            match read_type (type_ iv) t with
            | Raise e => (Raise e, b)
            | Ok v =>
                match lookup "units" (xml_attribs x) with
                | Some u => (Ok tt, set_base (set_units u (set_explicit true (base iv)))
                                      (set_value v b))
                | None => (Ok tt, set_value v b)
                end
            end
        end
    end.
Proof.
  unfold InputValue_parse, mbind, modify, get, lift, ret, raise; simpl.
  destruct xml as [[t|x]|]; simpl.
  - reflexivity.
  - destruct (lookup "_text" (xml_fields x)) as [t|]; simpl; [|reflexivity].
    destruct (read_type (type_ iv) t) as [v|e]; simpl; [|reflexivity].
    destruct (lookup "units" (xml_attribs x)); reflexivity.
  - destruct (read_type (type_ iv) (XmlText text)); reflexivity.
Qed.

Lemma InputValue_parse_explicit (xml : option xml_field) (text : string) (iv : InputValue) :
  _explicit (base (snd (InputValue_parse read_type xml text iv))) = true.
Proof.
  rewrite InputValue_parse_state.
  destruct xml as [[t|x]|]; simpl.
  - reflexivity.
  - destruct (lookup "_text" (xml_fields x)) as [t|]; simpl; [|reflexivity].
    destruct (read_type (type_ iv) t) as [v|e]; simpl; [|reflexivity].
    destruct (lookup "units" (xml_attribs x)); reflexivity.
  - destruct (read_type (type_ iv) (XmlText text)); reflexivity.
Qed.

(** X15. Parsing does not convert units: a tag whose text reads as [v]
    leaves [v] itself in the field, in the units named by the tag (or the
    field's own when the tag names none), and [fetch] then multiplies by
    the factor of those units, where [store] would have divided first. *)
Theorem parsed_value_is_scaled_on_fetch
    (iv : InputValue) (x : xml_node) (t : xml_field) (v : value)
    (m : string -> option R) (k : R) :
  lookup "_text" (xml_fields x) = Some t ->
  read_type (type_ iv) t = Ok v ->
  _dimension (base iv) <> "undefined"%string ->
  UnitMap (_dimension (base iv)) = Some m ->
  m (match lookup "units" (xml_attribs x) with
     | Some u => u
     | None => units (base iv)
     end) = Some k ->
  _valid iv = None ->
  fst (InputValue_parse read_type (Some (XmlChild x)) "" iv) = Ok tt /\
  value_ (snd (InputValue_parse read_type (Some (XmlChild x)) "" iv)) = Some v /\
  fetch UnitMap (snd (InputValue_parse read_type (Some (XmlChild x)) "" iv)) = py_mul v k.
Proof.
  intros Ht Hv Hd Hm Hk Hvalid.
  rewrite InputValue_parse_state; simpl. rewrite Ht, Hv.
  apply String.eqb_neq in Hd.
  destruct (lookup "units" (xml_attribs x)) as [u|]; simpl;
    (split; [reflexivity|split; [reflexivity|]]);
    unfold fetch, check, Input_check, unit_factor, rbind; simpl;
    rewrite Hm, Hk, Hvalid, Hd; reflexivity.
Qed.

Lemma lookup_keys (A : Type) (key : string) (d : list (string * A)) :
  has_key key d = true <-> In key (map fst d).
Proof.
  unfold has_key. induction d as [|[k v] d IH]; simpl.
  - split; [discriminate|tauto].
  - destruct (String.eqb key k) eqn:E.
    + apply String.eqb_eq in E. split; auto.
    + apply String.eqb_neq in E. rewrite IH. split; [auto|].
      intros [H|H]; [congruence|exact H].
Qed.

Lemma mem_In (key : string) (table : list string) :
  mem key table = true <-> In key table.
Proof.
  unfold mem. rewrite existsb_exists. split.
  - intros (k & Hk & E). apply String.eqb_eq in E. now subst.
  - intros H. exists key. split; [exact H|apply String.eqb_refl].
Qed.

Lemma on_entry_keys (key : string) (m : M InputValue unit)
    (d : list (string * InputValue)) (r : result unit) (d' : list (string * InputValue)) :
  on_entry key m d = (r, d') -> r = Raise (KeyError key) \/ map fst d' = map fst d.
Proof.
  revert r d'. induction d as [|[k iv] d IH]; simpl; intros r d' H.
  - injection H as <- <-. now left.
  - destruct (String.eqb key k) eqn:E.
    + destruct (m iv). injection H as <- <-. now right.
    + destruct (on_entry key m d) as [r1 d1]. injection H as <- <-.
      destruct (IH _ _ eq_refl) as [->|Hk]; [now left|right]. simpl. now rewrite Hk.
Qed.

Lemma on_entry_keys_ok (key : string) (m : M InputValue unit)
    (d d' : list (string * InputValue)) :
  on_entry key m d = (Ok tt, d') -> map fst d' = map fst d.
Proof.
  intros H. destruct (on_entry_keys _ _ _ _ _ H) as [H1|H1]; [discriminate|exact H1].
Qed.

Lemma on_entry_lookup_same (key : string) (m : M InputValue unit)
    (d : list (string * InputValue)) :
  lookup key (snd (on_entry key m d))
  = option_map (fun iv => snd (m iv)) (lookup key d).
Proof.
  induction d as [|[k iv] d IH]; simpl; [reflexivity|].
  destruct (String.eqb key k) eqn:E.
  - simpl. destruct (m iv) eqn:Hm; simpl. now rewrite E.
  - destruct (on_entry key m d); simpl in *. now rewrite E.
Qed.

Lemma on_entry_found (key : string) (m : M InputValue unit)
    (d d' : list (string * InputValue)) :
  on_entry key m d = (Ok tt, d') -> has_key key d = true.
Proof.
  unfold has_key. revert d'. induction d as [|[k iv] d IH]; simpl; intros d' H.
  - discriminate.
  - destruct (String.eqb key k); [reflexivity|].
    destruct (on_entry key m d) as [r1 d1]. injection H as -> <-. eapply IH; reflexivity.
Qed.

Lemma on_entry_lookup_other (key key' : string) (m : M InputValue unit)
    (d : list (string * InputValue)) :
  key' <> key -> has_key key d = true ->
  lookup key' (snd (on_entry key m d)) = lookup key' d.
Proof.
  intros Hne. unfold has_key.
  induction d as [|[k iv] d IH]; simpl; [discriminate|].
  destruct (String.eqb key k) eqn:E.
  - apply String.eqb_eq in E; subst k. intros _.
    destruct (m iv); simpl. apply String.eqb_neq in Hne. now rewrite Hne.
  - intros H. specialize (IH H). destruct (on_entry key m d); simpl in *.
    now rewrite IH.
Qed.

(** An entry that has been parsed. *)
Lemma on_entry_parsed (key key' : string) (xml : option xml_field) (text : string)
    (d d' : list (string * InputValue)) :
  on_entry key (InputValue_parse read_type xml text) d = (Ok tt, d') ->
  (key' = key \/
   exists iv, lookup key' d = Some iv /\ _explicit (base iv) = true) ->
  exists iv, lookup key' d' = Some iv /\ _explicit (base iv) = true.
Proof.
  intros Hrun H.
  pose proof (on_entry_found _ _ _ _ Hrun) as Hk.
  replace d' with (snd (on_entry key (InputValue_parse read_type xml text) d))
    by (rewrite Hrun; reflexivity).
  destruct (string_dec key' key) as [->|Hne].
  - rewrite on_entry_lookup_same. unfold has_key in Hk.
    destruct (lookup key d) as [iv|]; [|discriminate]. simpl.
    eexists; split; [reflexivity|apply InputValue_parse_explicit].
  - destruct H as [H|H]; [contradiction|].
    rewrite on_entry_lookup_other; assumption.
Qed.

Lemma for_each_ok_acc (S A : Type) (Inv : S -> Prop) (Done : A -> S -> Prop)
    (l : list A) (body : A -> P S unit) :
  (forall x s s', Inv s -> body x s = (POk tt, s') -> Inv s') ->
  (forall x s s', Inv s -> body x s = (POk tt, s') -> Done x s') ->
  (forall x y s s', Inv s -> Done x s -> body y s = (POk tt, s') -> Done x s') ->
  forall s s', Inv s -> for_each l body s = (POk tt, s') ->
               Inv s' /\ forall x, In x l -> Done x s'.
Proof.
  intros Hinv Hdone Hkeep.
  assert (Hgen : forall (l : list A) s s', Inv s -> for_each l body s = (POk tt, s') ->
            Inv s' /\ (forall x, In x l -> Done x s') /\
            (forall x, Done x s -> Done x s')).
  { clear l. induction l as [|y l IH]; simpl; intros s s' Hs Hrun.
    - unfold pret in Hrun. injection Hrun as <-. repeat split; auto. intros x [].
    - unfold pbind in Hrun. destruct (body y s) as [[[]|e] s1] eqn:Hb; [|discriminate].
      destruct (IH s1 s' (Hinv _ _ _ Hs Hb) Hrun) as (Hi & Hd & Hk).
      split; [exact Hi|]. split.
      + intros x [<-|Hx]; [|exact (Hd x Hx)]. apply Hk. exact (Hdone _ _ _ Hs Hb).
      + intros x Hx. apply Hk. exact (Hkeep _ _ _ _ Hs Hx Hb). }
  intros s s' Hs Hrun. destruct (Hgen l s s' Hs Hrun) as (Hi & Hd & _). auto.
Qed.

(** The test for mandatory entries changes nothing. *)
Lemma mandatory_ok (what : string) (xml : option xml_node) (table : list string)
    (o o' : InputObject) :
  mandatory what xml table o = (POk tt, o') ->
  o' = o /\
  forall k, In k table ->
    exists iv, lookup k (obj_dict o) = Some iv /\
               (_explicit (base iv) = true \/ _optional (base iv) = true).
Proof.
  unfold mandatory. revert o'. induction table as [|a table IH]; simpl; intros o' H.
  - injection H as <-. split; [reflexivity|intros k []].
  - unfold pbind in H.
    destruct (lookup a (obj_dict o)) as [va|] eqn:La; [|discriminate].
    destruct (_explicit (base va) || _optional (base va)) eqn:Fl; simpl in H;
      [|destruct xml; discriminate].
    unfold pret in H. destruct (IH _ H) as [-> Hall]. split; [reflexivity|].
    intros k [<-|Hk]; [|exact (Hall k Hk)].
    exists va. split; [exact La|]. now apply orb_true_iff.
Qed.

Lemma mandatory_spec (what : string) (xml : option xml_node) (table : list string)
    (o : InputObject) :
  (forall k, In k table -> has_key k (obj_dict o) = true) ->
  mandatory what xml table o
  = (if forallb (fun k => match lookup k (obj_dict o) with
                          | Some va => _explicit (base va) || _optional (base va)
                          | None => false
                          end) table
     then POk tt
     else PRaise (Builtin match xml with
                          | Some _ => ValueError what
                          | None => AttributeError "name"
                          end), o).
Proof.
  unfold mandatory. induction table as [|a table IH]; simpl; intros Hd; [reflexivity|].
  unfold pbind. pose proof (Hd a (or_introl eq_refl)) as Ha. unfold has_key in Ha.
  destruct (lookup a (obj_dict o)) as [va|]; [|discriminate].
  destruct (_explicit (base va) || _optional (base va)); simpl.
  - unfold pret. apply IH. intros k Hk. apply Hd. now right.
  - destruct xml; reflexivity.
Qed.

(** X16. Without a node, [parse] reads nothing: it marks the object as given
    and goes straight to the test for mandatory entries; one that is
    neither given nor optional is reported as an [AttributeError], since the
    message of the intended [ValueError] reads the name of the node. *)
Theorem parse_without_node (text : string) (o : InputObject) :
  (forall k, In k (obj_attribs o ++ obj_fields o) -> has_key k (obj_dict o) = true) ->
  Input_parse read_type None text o
  = (if forallb (fun k => match lookup k (obj_dict o) with
                          | Some va => _explicit (base va) || _optional (base va)
                          | None => false
                          end) (obj_attribs o ++ obj_fields o)
     then POk tt
     else PRaise (Builtin (AttributeError "name")),
     set_obj_self (set_explicit true (obj_self o)) o).
Proof.
  intros Hd.
  unfold Input_parse, pbind, of_M, modify, pret. cbv beta iota.
  rewrite mandatory_spec
    by (intros k Hk; apply Hd; simpl; apply in_or_app; now left).
  rewrite forallb_app. simpl obj_attribs. simpl obj_fields. simpl obj_dict.
  destruct (forallb _ (obj_attribs o)); simpl; [|reflexivity].
  rewrite mandatory_spec
    by (intros k Hk; apply Hd; simpl; apply in_or_app; now right).
  simpl. destruct (forallb _ (obj_fields o)); reflexivity.
Qed.

(** One of the two loops of [parse] over the node. *)
Lemma parse_loop_ok (A : Type) (table : InputObject -> list string)
    (arg : A -> option xml_field * string) (msg : string)
    (l : list (string * A)) (o o' : InputObject) :
  (forall d s, table (set_obj_dict d s) = table s) ->
  for_each l (fun av => fun s =>
    if mem (fst av) (table s) then
      of_M (on_dict (fst av)
              (InputValue_parse read_type (fst (arg (snd av))) (snd (arg (snd av))))) s
    else if String.eqb (fst av) "_text" then pret tt s
    else praise (NameError msg) s) o = (POk tt, o') ->
  (map fst (obj_dict o') = map fst (obj_dict o) /\
   obj_attribs o' = obj_attribs o /\ obj_fields o' = obj_fields o /\
   obj_self o' = obj_self o /\ table o' = table o) /\
  (forall k, (exists iv, lookup k (obj_dict o) = Some iv /\ _explicit (base iv) = true) ->
             exists iv, lookup k (obj_dict o') = Some iv /\ _explicit (base iv) = true) /\
  forall a, In a (map fst l) ->
    a = "_text"%string \/
    (In a (table o) /\
     exists iv, lookup a (obj_dict o') = Some iv /\ _explicit (base iv) = true).
Proof.
  intros Htab Hrun.
  pose (Inv := fun s : InputObject =>
                 (map fst (obj_dict s) = map fst (obj_dict o) /\
                  obj_attribs s = obj_attribs o /\ obj_fields s = obj_fields o /\
                  obj_self s = obj_self o /\ table s = table o) /\
                 (forall k, (exists iv, lookup k (obj_dict o) = Some iv /\
                                        _explicit (base iv) = true) ->
                            exists iv, lookup k (obj_dict s) = Some iv /\
                                       _explicit (base iv) = true)).
  pose (Done := fun (av : string * A) (s : InputObject) =>
                  fst av = "_text"%string \/
                  (In (fst av) (table o) /\
                   exists iv, lookup (fst av) (obj_dict s) = Some iv /\
                              _explicit (base iv) = true)).
  assert (Hinv0 : Inv o) by (unfold Inv; repeat split; auto).
  match type of Hrun with
  | for_each ?l ?body _ = _ =>
      destruct (for_each_ok_acc _ _ Inv Done l body) with (4 := Hinv0) (5 := Hrun)
        as [Hi Hd]
  end.
  - intros av s s' ((Hk & Ha & Hf & Hs & Ht) & Hex) Hb.
    destruct (mem (fst av) (table s)) eqn:E.
    + unfold of_M, on_dict in Hb.
      destruct (on_entry _ _ _) as [[[]|e] d] eqn:Hon; [|discriminate].
      injection Hb as <-. unfold Inv. simpl. rewrite Htab.
      split.
      * rewrite (on_entry_keys_ok _ _ _ _ Hon). repeat split; assumption.
      * intros k Hkx. eapply on_entry_parsed; [exact Hon|]. right. auto.
    + destruct (String.eqb (fst av) "_text"); [|discriminate].
      injection Hb as <-. unfold Inv. repeat split; assumption.
  - intros av s s' ((Hk & Ha & Hf & Hs & Ht) & Hex) Hb.
    destruct (mem (fst av) (table s)) eqn:E.
    + right. split; [rewrite <- Ht; now apply mem_In|].
      unfold of_M, on_dict in Hb.
      destruct (on_entry _ _ _) as [[[]|e] d] eqn:Hon; [|discriminate].
      injection Hb as <-. simpl.
      eapply on_entry_parsed; [exact Hon|]. now left.
    + destruct (String.eqb (fst av) "_text") eqn:E2; [|discriminate].
      left. now apply String.eqb_eq.
  - intros av bv s s' _ Hdn Hb. destruct Hdn as [Hdn|[Hin Hdn]]; [now left|right].
    split; [exact Hin|].
    destruct (mem (fst bv) (table s)) eqn:E.
    + unfold of_M, on_dict in Hb.
      destruct (on_entry _ _ _) as [[[]|e] d] eqn:Hon; [|discriminate].
      injection Hb as <-. simpl.
      eapply on_entry_parsed; [exact Hon|]. now right.
    + destruct (String.eqb (fst bv) "_text"); [|discriminate].
      injection Hb as <-. exact Hdn.
  - destruct Hi as [Hi1 Hi2]. split; [exact Hi1|]. split; [exact Hi2|].
    intros a Ha. apply in_map_iff in Ha.
    destruct Ha as (av & <- & Hav). exact (Hd av Hav).
Qed.

(** What a [parse] that returns has done. *)
Lemma parse_success_inv (x : xml_node) (text : string) (o o' : InputObject) :
  Input_parse read_type (Some x) text o = (POk tt, o') ->
  _explicit (obj_self o') = true /\
  obj_attribs o' = obj_attribs o /\
  obj_fields o' = obj_fields o /\
  map fst (obj_dict o') = map fst (obj_dict o) /\
  (forall a, In a (map fst (xml_attribs x)) -> a <> "_text"%string ->
     In a (obj_attribs o) /\
     exists iv, lookup a (obj_dict o') = Some iv /\ _explicit (base iv) = true) /\
  (forall f, In f (map fst (xml_fields x)) -> f <> "_text"%string ->
     In f (obj_fields o) /\
     exists iv, lookup f (obj_dict o') = Some iv /\ _explicit (base iv) = true) /\
  (forall k, In k (obj_attribs o ++ obj_fields o) ->
     exists iv, lookup k (obj_dict o') = Some iv /\
                (_explicit (base iv) = true \/ _optional (base iv) = true)).
Proof.
  unfold Input_parse, pbind, of_M, modify. simpl. intros Hrun.
  destruct (parse_attribs read_type x _) as [[[]|e] o1] eqn:Ha; [|discriminate].
  destruct (parse_fields read_type x o1) as [[[]|e] o2] eqn:Hf; [|discriminate].
  destruct (mandatory _ (Some x) (obj_attribs o2) o2) as [[[]|e] o3] eqn:Ma;
    [|discriminate].
  apply mandatory_ok in Ma. destruct Ma as [-> Ma].
  apply mandatory_ok in Hrun. destruct Hrun as [<- Mf].
  unfold parse_attribs in Ha.
  apply (parse_loop_ok string obj_attribs (fun v => (None, v))) in Ha; [|reflexivity].
  destruct Ha as ((Ha1 & Ha2 & Ha3 & Ha4 & _) & _ & Ha6).
  unfold parse_fields in Hf.
  apply (parse_loop_ok xml_field obj_fields (fun v => (Some v, ""%string))) in Hf;
    [|reflexivity].
  destruct Hf as ((Hf1 & Hf2 & Hf3 & Hf4 & _) & Hf5 & Hf6).
  simpl in *.
  split; [rewrite Hf4, Ha4; reflexivity|].
  split; [congruence|]. split; [congruence|]. split; [congruence|].
  split.
  { intros a Hin Hne. destruct (Ha6 a Hin) as [?|[Hin' Hex]]; [contradiction|].
    split; [exact Hin'|]. apply Hf5. exact Hex. }
  split.
  { intros f Hin Hne. destruct (Hf6 f Hin) as [?|[Hin' Hex]]; [contradiction|].
    split; [congruence|exact Hex]. }
  intros k Hin. apply in_app_or in Hin.
  destruct Hin as [Hin|Hin]; [apply Ma|apply Mf]; congruence.
Qed.

Lemma for_each_app (S A : Type) (l1 l2 : list A) (body : A -> P S unit) (s : S) :
  for_each (l1 ++ l2) body s
  = match for_each l1 body s with
    | (POk _, s1) => for_each l2 body s1
    | (PRaise e, s1) => (PRaise e, s1)
    end.
Proof.
  revert s. induction l1 as [|x l1 IH]; intros s; simpl; [reflexivity|].
  unfold pbind. destruct (body x s) as [[[]|e] s1]; [apply IH|reflexivity].
Qed.

(** A name that is neither declared nor ["_text"] stops the loop with
    [NameError] when the entries before it have been parsed. *)
Lemma parse_loop_unknown (A : Type) (table : InputObject -> list string)
    (arg : A -> option xml_field * string) (msg : string)
    (pre post : list (string * A)) (a : string) (v : A) (o : InputObject) :
  (forall d s, table (set_obj_dict d s) = table s) ->
  let body := fun (av : string * A) (s : InputObject) =>
    if mem (fst av) (table s) then
      of_M (on_dict (fst av)
              (InputValue_parse read_type (fst (arg (snd av))) (snd (arg (snd av))))) s
    else if String.eqb (fst av) "_text" then pret tt s
    else praise (NameError msg) s in
  mem a (table o) = false -> a <> "_text"%string ->
  fst (for_each pre body o) = POk tt ->
  fst (for_each (pre ++ (a, v) :: post) body o) = PRaise (NameError msg).
Proof.
  intros Htab body Hmem Hne Hpre.
  rewrite for_each_app.
  destruct (for_each pre body o) as [[[]|e] o1] eqn:Hrun; [|discriminate].
  apply (parse_loop_ok A table arg msg) in Hrun; [|exact Htab].
  destruct Hrun as ((_ & _ & _ & _ & Ht) & _).
  simpl. unfold pbind, body at 1. simpl. rewrite Ht, Hmem.
  apply String.eqb_neq in Hne. rewrite Hne. reflexivity.
Qed.

(** X17. What a successful [parse] of a node guarantees: the object is
    marked as given and keeps its declared names; every attribute and
    every field of the node, the text apart, is a declared one and is now
    marked as given; and every declared attribute and field is given or
    optional. An attribute or a tag that is neither declared nor the text
    raises [NameError], once the attributes and tags before it have been
    parsed. *)
Theorem parse_success_guarantees (name : string) (attrs : list (string * string))
    (flds : list (string * xml_field)) (text : string) (o : InputObject) :
  let x := XmlNode name attrs flds in
  let o0 := set_obj_self (set_explicit true (obj_self o)) o in
  (forall o',
     Input_parse read_type (Some x) text o = (POk tt, o') ->
     _explicit (obj_self o') = true /\
     obj_attribs o' = obj_attribs o /\
     obj_fields o' = obj_fields o /\
     map fst (obj_dict o') = map fst (obj_dict o) /\
     (forall a, In a (map fst attrs) -> a <> "_text"%string ->
        In a (obj_attribs o) /\
        exists iv, lookup a (obj_dict o') = Some iv /\ _explicit (base iv) = true) /\
     (forall f, In f (map fst flds) -> f <> "_text"%string ->
        In f (obj_fields o) /\
        exists iv, lookup f (obj_dict o') = Some iv /\ _explicit (base iv) = true) /\
     (forall k, In k (obj_attribs o ++ obj_fields o) ->
        exists iv, lookup k (obj_dict o') = Some iv /\
                   (_explicit (base iv) = true \/ _optional (base iv) = true)))
  /\
  (forall pre a v post,
     attrs = pre ++ (a, v) :: post ->
     mem a (obj_attribs o) = false -> a <> "_text"%string ->
     fst (parse_attribs read_type (XmlNode name pre flds) o0) = POk tt ->
     fst (Input_parse read_type (Some x) text o)
     = PRaise (NameError "Attribute name is not a recognized property"))
  /\
  (forall pre f v post o1,
     flds = pre ++ (f, v) :: post ->
     mem f (obj_fields o) = false -> f <> "_text"%string ->
     parse_attribs read_type x o0 = (POk tt, o1) ->
     fst (parse_fields read_type (XmlNode name attrs pre) o1) = POk tt ->
     fst (Input_parse read_type (Some x) text o)
     = PRaise (NameError "Tag name is not a recognized property")).
Proof.
  intros x o0. split; [|split].
  - intros o' Hrun. exact (parse_success_inv x text o o' Hrun).
  - intros pre a v post -> Hmem Hne Hpre.
    unfold Input_parse, pbind, of_M, modify. simpl. fold o0.
    pose proof (parse_loop_unknown string obj_attribs (fun v => (None, v))
                  "Attribute name is not a recognized property"
                  pre post a v o0 (fun _ _ => eq_refl) Hmem Hne Hpre) as Hbad.
    unfold parse_attribs at 1. simpl xml_attribs.
    destruct (for_each (pre ++ (a, v) :: post) _ o0) as [r o1].
    simpl in Hbad. subst r. reflexivity.
  - intros pre f v post o1 -> Hmem Hne Hattr Hpre.
    unfold Input_parse, pbind, of_M, modify. simpl. fold o0. fold x. rewrite Hattr.
    assert (Hf1 : obj_fields o1 = obj_fields o).
    { unfold parse_attribs in Hattr.
      apply (parse_loop_ok string obj_attribs (fun v => (None, v))) in Hattr;
        [|reflexivity].
      destruct Hattr as ((_ & _ & Hf & _) & _). exact Hf. }
    pose proof (parse_loop_unknown xml_field obj_fields (fun v => (Some v, ""%string))
                  "Tag name is not a recognized property"
                  pre post f v o1 (fun _ _ => eq_refl)) as Hbad.
    simpl in Hbad. rewrite Hf1 in Hbad. specialize (Hbad Hmem Hne Hpre).
    unfold parse_fields at 1. simpl xml_fields.
    destruct (for_each (pre ++ (f, v) :: post) _ o1) as [r o2].
    simpl in Hbad. subst r. reflexivity.
Qed.

End ParseProperties.

(** ** inputs/ensembles.py *)

Section EnsembleCheck.

Import InputValue Ensembles.

Variable UnitMap : string -> option (string -> option R).

Lemma fetch_str_in_options (iv : InputValue) (l : list value) (t : string) :
  _valid iv = Some l -> fetch UnitMap iv = Ok (VStr t) -> py_in (VStr t) l = true.
Proof.
  intros Hv Hf. unfold fetch, InputValue.check, rbind in Hf. rewrite Hv in Hf.
  destruct (Input_check UnitMap (base iv)) as [[]|e]; [|discriminate].
  destruct (value_ iv) as [v|]; [|discriminate].
  destruct (py_in v l) eqn:Hin; [|discriminate].
  destruct (String.eqb (_dimension (base iv)) "undefined").
  - injection Hf as ->. exact Hin.
  - destruct (unit_factor UnitMap _ _) as [k|e]; [|discriminate].
    unfold py_mul in Hf. destruct (num_of v); discriminate.
Qed.

Lemma type_options_inv (t : string) :
  py_in (VStr t) type_options = true ->
  t = "nve"%string \/ t = "nvt"%string \/ t = "npt"%string \/ t = "nst"%string.
Proof.
  unfold py_in, type_options, py_eq; simpl. rewrite !orb_true_iff.
  rewrite !String.eqb_eq. intuition discriminate.
Qed.

Lemma require_Ok (flag : bool) (msg : string) :
  require flag msg = Ok tt <-> flag = true.
Proof. unfold require. destruct flag; simpl; split; intros H; congruence. Qed.

(** X18. With the declared options of [type], [check] accepts an ensemble
    input exactly when its own check passes, the type can be fetched, and:
    for nve nothing more; for nvt the thermostat was given; for npt the
    thermostat, the barostat and the barostat's thermostat were given; for
    nst, in addition, the barostat kind can be fetched and is not rigid. *)
Theorem ensemble_check_accepts_iff (e : RestartEnsemble) :
  _valid (type_ e) = Some type_options ->
  (check UnitMap e = Ok tt <->
   Input_check UnitMap (ens_self e) = Ok tt /\
   exists t, fetch UnitMap (type_ e) = Ok (VStr t) /\
     (t = "nve"%string \/
      _explicit (thermostat e) = true /\
      (t = "nvt"%string \/
       _explicit (baro_self (barostat e)) = true /\
       _explicit (baro_thermostat (barostat e)) = true /\
       (t = "npt"%string \/
        t = "nst"%string /\
        exists k, fetch UnitMap (kind (barostat e)) = Ok k /\
                  py_eq k (VStr "rigid") = false)))).
Proof.
  intros Hv. unfold check, type_is, require, rbind.
  destruct (Input_check UnitMap (ens_self e)) as [[]|e0];
    [|split; [discriminate|intros [H _]; discriminate]].
  destruct (fetch UnitMap (type_ e)) as [v|e1] eqn:Hf;
    [|split; [discriminate|intros [_ (t & H & _)]; discriminate]].
  destruct v as [z|r|t|b];
    try (simpl; split; [discriminate|intros [_ (t & H & _)]; discriminate]).
  pose proof (type_options_inv t (fetch_str_in_options _ _ _ Hv Hf)) as Ht.
  destruct (_explicit (thermostat e)), (_explicit (baro_self (barostat e))),
    (_explicit (baro_thermostat (barostat e)));
    destruct Ht as [ -> | [ -> | [ -> | -> ] ] ]; simpl;
    try (destruct (fetch UnitMap (kind (barostat e))) as [k|e2]; simpl;
         [destruct (py_eq k (VStr "rigid")) eqn:Hk|]);
    (split;
     [ first [ discriminate | intros _; split; [reflexivity|];
       eexists; split; [reflexivity|];
       first [ left; reflexivity
             | right; split; [reflexivity|]; left; reflexivity
             | right; split; [reflexivity|]; right; split; [reflexivity|];
               split; [reflexivity|]; left; reflexivity
             | right; split; [reflexivity|]; right; split; [reflexivity|];
               split; [reflexivity|]; right; split; [reflexivity|];
               eexists; split; [reflexivity|assumption] ] ]
     | intros [_ (t' & Ht' & Hc)]; injection Ht' as <-;
       try reflexivity; exfalso;
       repeat match goal with
              | H : _ \/ _ |- _ => destruct H
              | H : _ /\ _ |- _ => destruct H
              | H : exists _, _ |- _ => destruct H
              end; congruence ]).
Qed.

End EnsembleCheck.

(** ** The further statements at concrete inputs *)

Section MoreWitnesses.

Import Np Geop GeopMore Examples MoreExamples.

Ltac eval_model :=
  cbv -[Rplus Rmult Rminus Rdiv Ropp Rinv sqrt IZR dot norm Rlt_dec Req_dec_T Rmax
        Rle Rlt Rge Rgt].

Lemma step_fixed_ex :
  exists s',
    step pot_ex force_ex min_brent_ex BFGS_ex 0 (mover_ex "sd" [0%Z] [] []) = (Ok tt, s').
Proof. eexists. eval_model. reflexivity. Qed.

Lemma fixed_atoms_do_not_move_witness :
  exists s' row',
    step pot_ex force_ex min_brent_ex BFGS_ex 0 (mover_ex "sd" [0%Z] [] []) = (Ok tt, s') /\
    nth_error (beads_q s') 0 = Some row' /\
    nth 0 row' 0 = 1.
Proof.
  destruct step_fixed_ex as (s' & Hst).
  destruct (fixed_atoms_do_not_move pot_ex force_ex min_brent_ex BFGS_ex 0
              (mover_ex "sd" [0%Z] [] []) s' eq_refl ltac:(discriminate) Hst
              0%Z 0%Z 0%nat [1; 0; 0; 0; 2; 0]
              (or_introl eq_refl) ltac:(lia) eq_refl)
    as (j & row' & Hj & Hrow & _ & Hval).
  exists s', row'. split; [exact Hst|]. split; [exact Hrow|].
  injection Hj as <-. exact Hval.
Defined.

Lemma direction_ex (fix_ : list Z) :
  let f := force_ex [[1; 0; 0; 0; 2; 0]] cell_ex in
  direction force_ex 0 (mover_ex "sd" fix_ [] []) = Ok (f, f, div_scalar f (norm f)).
Proof. reflexivity. Qed.




Lemma bind_ex :
  bind [[1; 0; 0; 0; 2; 0]] cell_ex
    (GeopMover_init [] "sd" (1 / 1000000) 100 [] [] [] ls_options_ex)
  = (Ok tt, mover_ex "sd" [] [] []).
Proof. reflexivity. Qed.

Lemma rebind_needs_same_size_witness :
  (exists s2,
     bind [[0; 0; 0; 0; 0; 0]] cell_ex (mover_ex "sd" [] [] []) = (Ok tt, s2) /\
     beads_q s2 = [[0; 0; 0; 0; 0; 0]]) /\
  fst (bind [[1; 2; 3]] cell_ex (mover_ex "sd" [] [] []))
  = Raise (ValueError "Conjugate gradient force size does not match system size").
Proof.
  destruct (rebind_needs_same_size _ _ _ _ bind_ex) as [Hsame Hdiff].
  split.
  - destruct (Hsame [[0; 0; 0; 0; 0; 0]] cell_ex eq_refl)
      as (s2 & Hb & _ & _ & Hq & _).
    exists s2. split; [exact Hb|exact Hq].
  - apply Hdiff; simpl; discriminate.
Defined.

Lemma bfgs_step_ignores_fixatoms_witness :
  step pot_ex force_ex min_brent_ex BFGS_ex 0
    (set_fixatoms [7%Z] (mover_ex "bfgs" [] [] []))
  = (fst (step pot_ex force_ex min_brent_ex BFGS_ex 0 (mover_ex "bfgs" [] [] [])),
     set_fixatoms [7%Z]
       (snd (step pot_ex force_ex min_brent_ex BFGS_ex 0 (mover_ex "bfgs" [] [] [])))).
Proof.
  exact (bfgs_step_ignores_fixatoms pot_ex force_ex min_brent_ex BFGS_ex 0
           (mover_ex "bfgs" [] [] []) [7%Z] eq_refl).
Defined.

Lemma assign_slice_ex :
  exists d',
    assign_slice [0; 0; 0; 0; 0; 0] (force_ex [[1; 0; 0; 0; 2; 0]] cell_ex) = Ok d'.
Proof. eexists. reflexivity. Qed.

Lemma fixed_atom_out_of_range_raises_witness :
  exists s',
    step pot_ex force_ex min_brent_ex BFGS_ex 0 (mover_ex "sd" [5%Z] [] [])
    = (Raise IndexError, s') /\
    beads_q s' = [[1; 0; 0; 0; 2; 0]].
Proof.
  destruct assign_slice_ex as (d' & Hd).
  eexists. split.
  - apply (fixed_atom_out_of_range_raises pot_ex force_ex min_brent_ex BFGS_ex 0
             (mover_ex "sd" [5%Z] [] []) _ _ _ d' d' 5%Z 0%Z _
             eq_refl (direction_ex [5%Z]) Hd Hd (or_introl eq_refl) ltac:(lia)
             (or_introl eq_refl)).
    simpl. lia.
  - reflexivity.
Defined.

Lemma socket_check_accepts_iff_witness :
  fst (ForceFields.check UnitMap_ex (socket_ex 80) []) = Ok tt.
Proof.
  destruct (socket_check_accepts_iff UnitMap_ex (socket_ex 80) 80 4 (1 / 100) 0 []
              eq_refl eq_refl eq_refl eq_refl eq_refl) as [H _].
  apply H. repeat split; try lia; lra.
Defined.

Lemma socket_check_log_witness :
  snd (ForceFields.check UnitMap_ex (socket_ex 80) []) = [ForceFields.low_port_warning] /\
  snd (ForceFields.check UnitMap_ex (socket_ex 8000) []) = [].
Proof.
  split.
  - destruct (socket_check_log UnitMap_ex (socket_ex 80) 80 4 (1 / 100) 0 []
                eq_refl eq_refl eq_refl eq_refl eq_refl) as [H _].
    apply H. lia.
  - destruct (socket_check_log UnitMap_ex (socket_ex 8000) 8000 4 (1 / 100) 0 []
                eq_refl eq_refl eq_refl eq_refl eq_refl) as [_ H].
    apply H. lia.
Defined.

Lemma store_time_ex :
  exists iv2, InputValue.store UnitMap_ex (VFloat 2) time_field = (Ok tt, iv2).
Proof.
  unfold InputValue.store, mbind, modify, get, lift, ret; simpl.
  unfold py_div; simpl.
  destruct (Req_dec_T (41341373 / 1000000) 0) as [E|N]; [lra|].
  eexists. reflexivity.
Qed.

Lemma last_store_wins_witness :
  exists iv2,
    InputValue.store UnitMap_ex (VFloat 2) time_field = (Ok tt, iv2) /\
    fst (InputValue.store UnitMap_ex (VStr "soon") time_field)
    = Raise (TypeError "unsupported operand type(s) for /") /\
    InputValue.store UnitMap_ex (VFloat 2)
      (snd (InputValue.store UnitMap_ex (VStr "soon") time_field)) = (Ok tt, iv2).
Proof.
  destruct store_time_ex as (iv2 & H2).
  exists iv2. split; [exact H2|]. split; [reflexivity|].
  exact (last_store_wins UnitMap_ex time_field iv2 (VStr "soon") (VFloat 2) H2).
Defined.

Lemma failed_store_still_marks_given_witness :
  InputValue._explicit (InputValue.base int_field) = false /\
  InputValue._explicit
    (InputValue.base (snd (InputValue.store UnitMap_ex (VStr "many") int_field))) = true /\
  InputValue.value_ (snd (InputValue.store UnitMap_ex (VStr "many") int_field))
  = Some (VInt 5).
Proof.
  destruct (failed_store_still_marks_given UnitMap_ex int_field (VStr "many")
              (ValueError "invalid literal for int() with base 10") eq_refl)
    as (He & _ & Hv).
  split; [reflexivity|]. split; [exact He|]. exact (Hv eq_refl).
Defined.

Lemma parsed_value_is_scaled_on_fetch_witness :
  InputValue.fetch UnitMap_ex
    (snd (InputParse.InputValue_parse read_type_ex
            (Some (InputParse.XmlChild timestep_node)) "" timestep_ex))
  = Ok (VFloat (2 * (41341373 / 1000000))).
Proof.
  destruct (parsed_value_is_scaled_on_fetch UnitMap_ex read_type_ex timestep_ex
              timestep_node (InputParse.XmlText "2") (VFloat 2)
              (fun u => if String.eqb u "" then Some 1
                        else if String.eqb u "atomic_unit" then Some 1
                        else if String.eqb u "femtosecond" then Some (41341373 / 1000000)
                        else None)
              (41341373 / 1000000)
              eq_refl eq_refl ltac:(discriminate) eq_refl eq_refl eq_refl)
    as (_ & _ & H).
  exact H.
Defined.

Lemma parse_without_node_witness :
  InputParse.Input_parse read_type_ex None "" object_ex
  = (InputParse.PRaise (InputParse.Builtin (AttributeError "name")),
     InputParse.set_obj_self
       (InputValue.set_explicit true (InputParse.obj_self object_ex)) object_ex).
Proof.
  rewrite (parse_without_node read_type_ex "" object_ex).
  - reflexivity.
  - intros k Hk. simpl in Hk. destruct Hk as [<-|[<-|[]]]; reflexivity.
Defined.

Lemma parse_run_node_ex :
  exists o',
    InputParse.Input_parse read_type_ex (Some run_node) "" object_ex
    = (InputParse.POk tt, o').
Proof. eexists. eval_model. reflexivity. Qed.

Lemma parse_success_guarantees_witness :
  (exists o' iv,
     InputParse.Input_parse read_type_ex (Some run_node) "" object_ex
     = (InputParse.POk tt, o') /\
     InputParse.lookup "timestep" (InputParse.obj_dict o') = Some iv /\
     InputValue._explicit (InputValue.base iv) = true) /\
  fst (InputParse.Input_parse read_type_ex
         (Some (InputParse.XmlNode "run"
                  [("mode", "unix"); ("colour", "red")]%string [])) "" object_ex)
  = InputParse.PRaise (InputParse.NameError "Attribute name is not a recognized property").
Proof.
  split.
  - destruct parse_run_node_ex as (o' & Hp).
    destruct (parse_success_guarantees read_type_ex "run" [("mode", "unix")]%string
                [("timestep", InputParse.XmlChild timestep_node);
                 ("_text", InputParse.XmlText " ")]%string "" object_ex)
      as (Hok & _).
    destruct (Hok o' Hp) as (_ & _ & _ & _ & _ & Hf & _).
    destruct (Hf "timestep"%string (or_introl eq_refl) ltac:(discriminate))
      as (_ & iv & Hl & He).
    exists o', iv. split; [exact Hp|]. split; [exact Hl|exact He].
  - destruct (parse_success_guarantees read_type_ex "run"
                [("mode", "unix"); ("colour", "red")]%string [] "" object_ex)
      as (_ & Hbad & _).
    apply (Hbad [("mode", "unix")]%string "colour"%string "red"%string []).
    + reflexivity.
    + reflexivity.
    + discriminate.
    + reflexivity.
Defined.

Lemma ensemble_check_accepts_iff_witness :
  Ensembles.check UnitMap_ex ensemble_ex = Ok tt.
Proof.
  apply (ensemble_check_accepts_iff UnitMap_ex ensemble_ex eq_refl).
  split; [reflexivity|].
  exists "nvt"%string. split; [reflexivity|].
  right. split; [reflexivity|]. left. reflexivity.
Defined.

End MoreWitnesses.
